(** * candelyabr: the candlestick viewport, the live merge and the
      one-second aggregation

    A shallow embedding of
    - [components/CandlesCanvas.tsx] (viewport clamping, zoom, time-range
      lookup, the vertical-range gestures and the price range of [draw]),
    - the [KlineWebSocket] update handler of [App.tsx], and
    - [aggregateToOneSecondKlines] of [services/binance.ts].

    Number model.  Indices, counts, lengths, pixel coordinates and epoch
    milliseconds are integer-valued JS numbers and are embedded as [Z].
    Prices and quantities are IEEE doubles and are embedded as Rocq's
    primitive binary64 [float], so that [NaN], the infinities of
    [Math.max()] / [Math.min()] on an empty array and the rounding of
    [* 0.05] are the ones of the program.  The horizontal zoom factor is a
    double as well: [oldVisible * scale] is the binary64 product, and
    [Math.round] is taken of the exact value of that double.  A quotient
    of two integers (a pixel offset by a candle span) is rounded from its
    exact value. *)

From Stdlib Require Import ZArith QArith Qround Qpower List Bool Lia Lqa.
From Stdlib Require Import Floats.
Import ListNotations.

Set Warnings "-inexact-float".

Local Open Scope Z_scope.

(** ** JavaScript numerics *)

Module JS.

(** [ToInt32]: the wrap-around of the operands of [>>]. *)
Definition toInt32 (x : Z) : Z :=
  let m := x mod 2 ^ 32 in
  if 2 ^ 31 <=? m then m - 2 ^ 32 else m.

(** [x >> n] on integer-valued numbers. *)
Definition sar (x n : Z) : Z := Z.shiftr (toInt32 x) n.

(** [Math.round] on an exact rational: nearest integer, ties towards
    plus infinity. *)
Definition round (q : Q) : Z := Qfloor (q + (1 # 2)).

(** An integer-valued number as a double. *)
Definition ofZ (z : Z) : float :=
  SF2Prim (binary_normalize prec emax z 0 false).

(** The exact value of a double; [0] for the infinities and [NaN], which
    have none. *)
Definition valueSF (x : spec_float) : Q :=
  match x with
  | S754_finite s m e => (inject_Z (cond_Zopp s (Z.pos m)) * 2 ^ e)%Q
  | _ => 0%Q
  end.

Definition valueQ (x : float) : Q := valueSF (Prim2SF x).

(** [Math.round] on a double, as an integer: the nearest integer to the
    exact value of the double, ties towards plus infinity.  The result is
    only ever cut to a range of counts, under which [Infinity] and
    [-Infinity] behave as an integer beyond every double; [NaN], which no
    caller produces (the factors are the constants of the component and
    their products), has no integer and is read as [0]. *)
Definition roundF (x : float) : Z :=
  match Prim2SF x with
  | S754_infinity s => if s then - 2 ^ 1024 else 2 ^ 1024
  | _ => round (valueQ x)
  end.

(** Truthiness of a number: [0], [-0] and [NaN] are falsy. *)
Definition falsy (x : float) : bool :=
  PrimFloat.is_zero x || PrimFloat.is_nan x.

(** [x || d] on numbers. *)
Definition orElse (x d : float) : float := if falsy x then d else x.

(** [x || d] on integer-valued numbers. *)
Definition orElseZ (x d : Z) : Z := if x =? 0 then d else x.

(** [x ?? d]. *)
Definition nullish {A : Type} (x : option A) (d : A) : A :=
  match x with Some v => v | None => d end.

(** [Math.max(a, b)] on doubles: [NaN] is contagious and [+0] is larger
    than [-0]. *)
Definition max2 (a b : float) : float :=
  if PrimFloat.is_nan a || PrimFloat.is_nan b then PrimFloat.nan
  else if PrimFloat.ltb a b then b
  else if PrimFloat.ltb b a then a
  else if PrimFloat.is_zero a && PrimFloat.get_sign a then b
  else a.

(** [Math.min(a, b)] on doubles: [-0] is smaller than [+0]. *)
Definition min2 (a b : float) : float :=
  if PrimFloat.is_nan a || PrimFloat.is_nan b then PrimFloat.nan
  else if PrimFloat.ltb a b then a
  else if PrimFloat.ltb b a then b
  else if PrimFloat.is_zero a && PrimFloat.get_sign a then a
  else b.

(** [Math.max(...xs)]; [-Infinity] on the empty array. *)
Definition maxOf (xs : list float) : float :=
  fold_left max2 xs PrimFloat.neg_infinity.

(** [Math.min(...xs)]; [Infinity] on the empty array. *)
Definition minOf (xs : list float) : float :=
  fold_left min2 xs PrimFloat.infinity.

(** [xs.slice(lo, hi)]: a negative bound counts from the end, both
    bounds are cut to the array, and an empty range gives []. *)
Definition sliceBound (n i : Z) : Z :=
  if i <? 0 then Z.max (n + i) 0 else Z.min i n.

Definition slice {A : Type} (xs : list A) (lo hi : Z) : list A :=
  let n := Z.of_nat (length xs) in
  let a := sliceBound n lo in
  let b := sliceBound n hi in
  firstn (Z.to_nat (b - a)) (skipn (Z.to_nat a) xs).

(** [xs[i]]: [undefined] outside of the array. *)
Definition index {A : Type} (xs : list A) (i : Z) : option A :=
  if i <? 0 then None else nth_error xs (Z.to_nat i).

End JS.

(** The outcome of a command: a normal return, an uncaught [TypeError]
    (a property read on [undefined]), or a loop that did not finish within
    its fuel. *)
Inductive result (A : Type) : Type :=
| Ok (a : A)
| TypeError
| OutOfFuel.
Arguments Ok {A} a.
Arguments TypeError {A}.
Arguments OutOfFuel {A}.

Definition bind {A B : Type} (r : result A) (k : A -> result B) : result B :=
  match r with
  | Ok a => k a
  | TypeError => TypeError
  | OutOfFuel => OutOfFuel
  end.

Notation "x <- r ;; k" := (bind r (fun x => k))
  (at level 61, r at next level, right associativity).

(** ** Data model *)

(** [Kline] of services/binance.ts. *)
Record Kline : Type := mkKline {
  openTime : Z;
  open : float;
  high : float;
  low : float;
  close : float;
  volume : float;
  closeTime : Z;
  quoteAssetVolume : float;
  numberOfTrades : Z;
  takerBuyBaseVolume : float;
  takerBuyQuoteVolume : float;
  isClosed : option bool
}.

(** [AggTrade] of services/binance.ts. *)
Record AggTrade : Type := mkAggTrade {
  aggId : Z;
  price : float;
  quantity : float;
  timestamp : Z;
  isBuyerMaker : bool
}.

(** The mutable cells ([useRef]) of [CandlesCanvasImpl]. *)
Record View : Type := mkView {
  startIndex : Z;
  visibleCount : Z;
  isDragging : bool;
  lastX : Z;
  lastMouseX : Z;
  lastMouseY : Z;
  yMin : option float;
  yMax : option float;
  autoY : bool;
  isResizingY : bool;
  resizeAnchorY : Z;
  resizeAnchorPrice : float;
  resizeInitialRange : float;
  resizeStartMouseY : Z;
  resizeAnchorTopRatio : float
}.

Definition set_viewport (st : View) (start visible : Z) : View :=
  mkView start visible (isDragging st) (lastX st) (lastMouseX st)
         (lastMouseY st) (yMin st) (yMax st) (autoY st) (isResizingY st)
         (resizeAnchorY st) (resizeAnchorPrice st) (resizeInitialRange st)
         (resizeStartMouseY st) (resizeAnchorTopRatio st).

Definition PADDING_LEFT : Z := 10.
Definition PADDING_RIGHT : Z := 60.
Definition PADDING_TOP : Z := 10.
Definition PADDING_BOTTOM : Z := 24.

Definition len {A : Type} (xs : list A) : Z := Z.of_nat (length xs).

(** ** Viewport clamping *)

(** [clampViewportLocal], over the length [L] of [data]. *)
Definition clampViewportLocal (L : Z) (st : View) : View :=
  let visible := Z.max 10 (Z.min L (visibleCount st)) in
  set_viewport st (Z.max 0 (Z.min (L - visible) (startIndex st))) visible.

(** ** Horizontal zoom *)

Definition candleGap : Z := 2.

(** [Math.max(1, Math.floor(plotWidth / visible) - candleGap) + candleGap]:
    the pixels per candle.  [Math.floor] of a quotient of integers is [Z]'s
    division for a non-zero divisor; [visible] is at least 10 wherever the
    program computes this. *)
Definition candleSpan (width visible : Z) : Z :=
  Z.max 1 ((width - PADDING_LEFT - PADDING_RIGHT) / visible - candleGap)
  + candleGap.

(** The anchor pixel of [performZoomGlobal], cut to the plot. *)
Definition zoomAnchor (width : Z) (anchorX : option Z) : Z :=
  let plotWidth := width - PADDING_LEFT - PADDING_RIGHT in
  let leftPad := PADDING_LEFT in
  Z.max leftPad
        (Z.min (width - PADDING_RIGHT)
               (JS.nullish anchorX (leftPad + plotWidth / 2))).

(** The index of the bar that [performZoomGlobal] takes to be under the
    anchor pixel: [startIndex + Math.round((anchor - leftPad) / span)]. *)
Definition idxAtAnchor (width : Z) (anchorX : option Z) (st : View) : Z :=
  let span := candleSpan width (visibleCount st) in
  startIndex st
  + JS.round (inject_Z (zoomAnchor width anchorX - PADDING_LEFT)
              / inject_Z span).

(** [Math.round(oldVisible * scale)]: the count times the factor as
    doubles, then rounded. *)
Definition targetVisible (scale : float) (st : View) : Z :=
  JS.roundF (PrimFloat.mul (JS.ofZ (visibleCount st)) scale).

(** [newStart] of [performZoomGlobal], before the clamp. *)
Definition zoomNewStart (width : Z) (scale : float) (anchorX : option Z)
    (st : View) : Z :=
  let anchor := zoomAnchor width anchorX in
  let visible := Z.max 10 (Z.min 5000 (targetVisible scale st)) in
  let newCandleSpan := candleSpan width visible in
  JS.round (inject_Z (idxAtAnchor width anchorX st)
            - inject_Z (anchor - PADDING_LEFT) / inject_Z newCandleSpan).

(** [performZoomGlobal(scale, anchorX)]; [L] is [data.length]. *)
Definition performZoomGlobal (width L : Z) (scale : float)
    (anchorX : option Z)
    (st : View) : View :=
  let visible := Z.max 10 (Z.min 5000 (targetVisible scale st)) in
  let newStart := zoomNewStart width scale anchorX st in
  clampViewportLocal L (set_viewport st newStart visible).

(** ** Time-range lookup *)

(** One of the two [while (lo <= hi)] loops of [setRangeByTime];
    [goRight t] is the test on [data[mid].openTime] that moves [lo]. *)
Fixpoint searchLoop (fuel : nat) (goRight : Z -> bool) (data : list Kline)
    (lo hi : Z) : result Z :=
  match fuel with
  | O => OutOfFuel
  | S fuel' =>
      if lo <=? hi then
        let mid := JS.sar (lo + hi) 1 in
        match JS.index data mid with
        | None => TypeError
        | Some k =>
            if goRight (openTime k)
            then searchLoop fuel' goRight data (mid + 1) hi
            else searchLoop fuel' goRight data lo (mid - 1)
        end
      else Ok lo
  end.

(** [startIdx]: the first index with [openTime >= startMs], cut to the
    array. *)
Definition rangeStartIdx (data : list Kline) (startMs : Z) : result Z :=
  lo <- searchLoop (S (length data)) (fun t => t <? startMs) data
                   0 (len data - 1) ;;
  Ok (Z.min (Z.max 0 lo) (len data - 1)).

(** [endIdx]: the last index with [openTime <= endMs], cut to the array. *)
Definition rangeEndIdx (data : list Kline) (endMs : Z) : result Z :=
  lo <- searchLoop (S (length data)) (fun t => t <=? endMs) data
                   0 (len data - 1) ;;
  Ok (Z.min (Z.max 0 (lo - 1)) (len data - 1)).

(** [setRangeByTime(startMs, endMs)]. The cells are written after both
    searches, so a throw leaves them as they were. *)
Definition setRangeByTime (data : list Kline) (startMs endMs : Z)
    (st : View) : result View :=
  if len data =? 0 then Ok st
  else if endMs <=? startMs then Ok st
  else
    startIdx <- rangeStartIdx data startMs ;;
    endIdx <- rangeEndIdx data endMs ;;
    let count := Z.max 10 (endIdx - startIdx + 1) in
    Ok (set_viewport st
          (Z.max 0 (Z.min startIdx (Z.max 0 (len data - count))))
          count).

(** ** Price range and vertical gestures *)

Local Open Scope float_scope.

Definition set_mouse (st : View) (mx my : Z) : View :=
  mkView (startIndex st) (visibleCount st) (isDragging st) (lastX st) mx my
         (yMin st) (yMax st) (autoY st) (isResizingY st)
         (resizeAnchorY st) (resizeAnchorPrice st) (resizeInitialRange st)
         (resizeStartMouseY st) (resizeAnchorTopRatio st).

Definition set_drag (st : View) (dragging : bool) (x my : Z) : View :=
  mkView (startIndex st) (visibleCount st) dragging x (lastMouseX st) my
         (yMin st) (yMax st) (autoY st) (isResizingY st)
         (resizeAnchorY st) (resizeAnchorPrice st) (resizeInitialRange st)
         (resizeStartMouseY st) (resizeAnchorTopRatio st).

Definition set_yrange (st : View) (lo hi : option float) : View :=
  mkView (startIndex st) (visibleCount st) (isDragging st) (lastX st)
         (lastMouseX st) (lastMouseY st) lo hi (autoY st) (isResizingY st)
         (resizeAnchorY st) (resizeAnchorPrice st) (resizeInitialRange st)
         (resizeStartMouseY st) (resizeAnchorTopRatio st).

Definition set_autoY (st : View) (b : bool) : View :=
  mkView (startIndex st) (visibleCount st) (isDragging st) (lastX st)
         (lastMouseX st) (lastMouseY st) (yMin st) (yMax st) b
         (isResizingY st)
         (resizeAnchorY st) (resizeAnchorPrice st) (resizeInitialRange st)
         (resizeStartMouseY st) (resizeAnchorTopRatio st).

Definition set_resize (st : View) (resizing : bool) (anchorY : Z)
    (anchorPrice initialRange : float) (startMouseY : Z)
    (topRatio : float) : View :=
  mkView (startIndex st) (visibleCount st) (isDragging st) (lastX st)
         (lastMouseX st) (lastMouseY st) (yMin st) (yMax st) (autoY st)
         resizing anchorY anchorPrice initialRange startMouseY topRatio.

(** The slice of [data] that [draw] and the handlers look at:
    [data.slice(startIndex, Math.min(data.length, startIndex + visibleCount))]
    with [visibleCount] cut as in [clampViewportLocal]. *)
Definition viewData (data : list Kline) (st : View) : list Kline :=
  let startIndex := startIndex st in
  let visibleCount := Z.max 10 (Z.min (len data) (visibleCount st)) in
  let endIndex := Z.min (len data) (startIndex + visibleCount)%Z in
  JS.slice data startIndex endIndex.

Definition dataMax (vd : list Kline) : float := JS.maxOf (map high vd).
Definition dataMin (vd : list Kline) : float := JS.minOf (map low vd).

(** [if (maxPrice <= minPrice) maxPrice = minPrice + 1e-9]. *)
Definition bumpMax (minPrice maxPrice : float) : float :=
  if maxPrice <=? minPrice then minPrice + 1e-9 else maxPrice.

(** The [(minPrice, maxPrice)] that [draw] paints with; [None] when [draw]
    returns at the empty-data check. *)
Definition drawPriceRange (data : list Kline) (st : View)
    : option (float * float) :=
  if (len data =? 0)%Z then None
  else
    let vd := viewData data st in
    let dataMax := dataMax vd in
    let dataMin := dataMin vd in
    match autoY st, yMin st, yMax st with
    | false, Some lo, Some hi => Some (lo, bumpMax lo hi)
    | _, _, _ =>
        let pad := JS.orElse ((dataMax - dataMin) * 0.05) 1 in
        Some (dataMin - pad, dataMax + pad)
    end.

(** [draw] reads the cells and paints; it writes none of them. *)
Definition draw (data : list Kline) (st : View) : View := st.

Record WheelEvent : Type := mkWheelEvent {
  offsetX : option Z;
  offsetY : option Z;
  deltaY : float;
  altKey : bool;
  shiftKey : bool;
  ctrlKey : bool
}.

Record MouseEvent : Type := mkMouseEvent {
  clientX : Z;
  clientY : Z
}.

(** The new [(yMin, yMax)] for a range of [newRange] that keeps
    [anchorPrice] at the fraction [ratioTop] below the top. *)
Definition rangeAround (anchorPrice newRange ratioTop : float)
    : float * float :=
  let ratioBottom := 1 - ratioTop in
  (anchorPrice - newRange * ratioBottom, anchorPrice + newRange * ratioTop).

(** [handleWheel]. *)
Definition handleWheel (width height : Z) (data : list Kline)
    (ev : WheelEvent) (st : View) : View :=
  let offsetX := JS.nullish (offsetX ev) 0%Z in
  let offsetY := JS.nullish (offsetY ev) 0%Z in
  let st := set_mouse st offsetX offsetY in
  let zoomOut := 0 <? deltaY ev in
  if altKey ev then
    let st := set_autoY st false in
    let plotHeight := (height - PADDING_TOP - PADDING_BOTTOM)%Z in
    let yRel := Z.max 0 (Z.min plotHeight (offsetY - PADDING_TOP)) in
    let vd := viewData data st in
    let minPrice := JS.nullish (yMin st) (dataMin vd) in
    let maxPrice := JS.nullish (yMax st) (dataMax vd) in
    let maxPrice := bumpMax minPrice maxPrice in
    let priceAtCursor :=
      maxPrice
      - (JS.ofZ yRel / JS.ofZ (JS.orElseZ plotHeight 1))
        * (maxPrice - minPrice) in
    let vScale := if zoomOut then 1.15 else 0.85 in
    let newRange := (maxPrice - minPrice) * vScale in
    let ratioTop :=
      (maxPrice - priceAtCursor) / JS.orElse (maxPrice - minPrice) 1 in
    let '(newMin, newMax) := rangeAround priceAtCursor newRange ratioTop in
    draw data (set_yrange st (Some newMin) (Some newMax))
  else
    let scale := if zoomOut then 1.15 else 0.85 in
    let modifier :=
      if shiftKey ev then 1.35 else if ctrlKey ev then 0.9 else 1.0 in
    performZoomGlobal width (len data) (scale * modifier)
                      (Some (lastMouseX st)) st.

(** [handleMouseDown]; [rectLeft] and [rectTop] are the canvas position
    from [getBoundingClientRect].  The cursor style and the [onUserPan]
    callback of the host are no cells of the view and are left out. *)
Definition handleMouseDown (width height : Z) (data : list Kline)
    (rectLeft rectTop : Z) (ev : MouseEvent) (st : View) : View :=
  let st := set_drag st true (clientX ev) (clientY ev) in
  let x := (clientX ev - rectLeft)%Z in
  let y := (clientY ev - rectTop)%Z in
  if (width - PADDING_RIGHT <=? x)%Z then
    let plotHeight := (height - PADDING_TOP - PADDING_BOTTOM)%Z in
    let vd := viewData data st in
    if (0 <? len vd)%Z then
      let minPrice := JS.nullish (yMin st) (dataMin vd) in
      let maxPrice := JS.nullish (yMax st) (dataMax vd) in
      let maxPrice := bumpMax minPrice maxPrice in
      let st := set_autoY st false in
      let anchorY := Z.max 0 (Z.min plotHeight (y - PADDING_TOP)) in
      let priceAtCursor :=
        maxPrice
        - (JS.ofZ anchorY / JS.ofZ (JS.orElseZ plotHeight 1))
          * (maxPrice - minPrice) in
      let range := JS.orElse (maxPrice - minPrice) 1 in
      set_resize st true anchorY priceAtCursor (maxPrice - minPrice)
                 (clientY ev) ((maxPrice - priceAtCursor) / range)
    else st
  else st.

(** [handleMouseUp]. *)
Definition handleMouseUp (st : View) : View :=
  set_resize (set_drag st false (lastX st) (lastMouseY st)) false
             (resizeAnchorY st) (resizeAnchorPrice st)
             (resizeInitialRange st) (resizeStartMouseY st)
             (resizeAnchorTopRatio st).

Section Gestures.

(** [Math.exp], which the embedding leaves open. *)
Variable exp : float -> float.

(** [handleMouseMove]. *)
Definition handleMouseMove (width height : Z) (data : list Kline)
    (ev : MouseEvent) (st : View) : View :=
  if negb (isDragging st) then st
  else
    let dx := (clientX ev - lastX st)%Z in
    let dy := (clientY ev - JS.orElseZ (lastMouseY st) (clientY ev))%Z in
    let st := set_drag st (isDragging st) (clientX ev) (clientY ev) in
    if isResizingY st then
      let dyTotal := (clientY ev - resizeStartMouseY st)%Z in
      let k := exp (JS.ofZ dyTotal * 0.002) in
      let newRange := JS.max2 1e-9 (resizeInitialRange st * k) in
      let '(newMin, newMax) :=
        rangeAround (resizeAnchorPrice st) newRange
                    (resizeAnchorTopRatio st) in
      draw data (set_yrange st (Some newMin) (Some newMax))
    else
      let st :=
        if (dy =? 0)%Z then st
        else
          let st := set_autoY st false in
          let vd := viewData data st in
          let minPrice := JS.nullish (yMin st) (dataMin vd) in
          let maxPrice := JS.nullish (yMax st) (dataMax vd) in
          let maxPrice := bumpMax minPrice maxPrice in
          let plotHeight := (height - PADDING_TOP - PADDING_BOTTOM)%Z in
          let pricePerPx :=
            (maxPrice - minPrice) / JS.ofZ (JS.orElseZ plotHeight 1) in
          let deltaPrice := JS.ofZ dy * pricePerPx in
          set_yrange st
            (Some (JS.nullish (yMin st) minPrice + deltaPrice))
            (Some (JS.nullish (yMax st) maxPrice + deltaPrice)) in
      let perCandle := Z.max 1 (candleSpan width (visibleCount st)) in
      let deltaCandles :=
        JS.round (inject_Z (- dx) / inject_Z perCandle)%Q in
      let st :=
        if (deltaCandles =? 0)%Z then st
        else
          clampViewportLocal (len data)
            (set_viewport st (startIndex st + deltaCandles)%Z
                          (visibleCount st)) in
      draw data st.

(** A drag: the pointer goes down and then moves through [moves]. *)
Definition dragGesture (width height : Z) (data : list Kline)
    (rectLeft rectTop : Z) (down : MouseEvent) (moves : list MouseEvent)
    (st : View) : View :=
  fold_left (fun s ev => handleMouseMove width height data ev s) moves
            (handleMouseDown width height data rectLeft rectTop down st).

End Gestures.

Local Close Scope float_scope.

(** ** Live kline merge (App.tsx) *)

(** The [setData] updater of the [KlineWebSocket] handler. *)
Definition mergeKline (prev : list Kline) (k : Kline) : list Kline :=
  if len prev =? 0 then [k]
  else
    let last := List.last prev k in
    if openTime k =? openTime last then
      let copy := JS.slice prev 0 (len prev - 1) in
      copy ++ [k]
    else
      let next := prev ++ [k] in
      if 2000 <? len next then tl next else next.

(** Ascending [openTime], as a bar sequence is meant to be. *)
Fixpoint ascending (ks : list Kline) : bool :=
  match ks with
  | [] => true
  | k :: rest =>
      match rest with
      | [] => true
      | k' :: _ => (openTime k <? openTime k') && ascending rest
      end
  end.

(** ** One-second aggregation (services/binance.ts) *)

(** A [Map<number, V>]: the entries in insertion order, keys unique. *)
Definition NumMap (V : Type) : Type := list (Z * V).

Fixpoint mapGet {V : Type} (m : NumMap V) (key : Z) : option V :=
  match m with
  | [] => None
  | (k, v) :: m' => if k =? key then Some v else mapGet m' key
  end.

Fixpoint mapSet {V : Type} (m : NumMap V) (key : Z) (v : V) : NumMap V :=
  match m with
  | [] => [(key, v)]
  | (k, w) :: m' =>
      if k =? key then (k, v) :: m' else (k, w) :: mapSet m' key v
  end.

Definition mapKeys {V : Type} (m : NumMap V) : list Z := map fst m.

(** [xs.sort((a, b) => key(a) - key(b))]: a stable sort on an integer
    key. *)
Fixpoint insertBy {A : Type} (key : A -> Z) (x : A) (l : list A) : list A :=
  match l with
  | [] => [x]
  | y :: l' => if key x <=? key y then x :: l else y :: insertBy key x l'
  end.

Definition sortBy {A : Type} (key : A -> Z) (l : list A) : list A :=
  fold_right (insertBy key) [] l.

(** [Math.floor(t.timestamp / 1000) * 1000]. *)
Definition secondOf (t : AggTrade) : Z := timestamp t / 1000 * 1000.

(** The first loop: the trades of each second, in arrival order. *)
Definition groupBySecond (trades : list AggTrade) : NumMap (list AggTrade) :=
  fold_left
    (fun bySecond t =>
       let sec := secondOf t in
       let arr := JS.nullish (mapGet bySecond sec) [] in
       mapSet bySecond sec (arr ++ [t]))
    trades [].

(** The bar of second [s] from its trades [arr], sorted by time; reading
    [arr[0].price] throws on an empty [arr]. *)
Definition klineOfSecond (s : Z) (arr : list AggTrade)
    (prevClose : option float) : result Kline :=
  match arr with
  | [] => TypeError
  | first :: _ =>
      let open := price first in
      let close := price (List.last arr first) in
      let high := JS.maxOf (map price arr) in
      let low := JS.minOf (map price arr) in
      let volume :=
        fold_left (fun sum x => PrimFloat.add sum (quantity x)) arr
                  PrimFloat.zero in
      let numTrades := len arr in
      Ok (mkKline s (JS.nullish prevClose open) high low close volume
                  (s + 999) PrimFloat.zero numTrades PrimFloat.zero
                  PrimFloat.zero (Some true))
  end.

(** The second loop, over the sorted seconds. *)
Fixpoint klinesLoop (bySecond : NumMap (list AggTrade)) (seconds : list Z)
    (prevClose : option float) : result (list Kline) :=
  match seconds with
  | [] => Ok []
  | s :: rest =>
      match mapGet bySecond s with
      | None => TypeError
      | Some arr =>
          k <- klineOfSecond s (sortBy timestamp arr) prevClose ;;
          klines <- klinesLoop bySecond rest (Some (close k)) ;;
          Ok (k :: klines)
      end
  end.

(** [aggregateToOneSecondKlines]. *)
Definition aggregateToOneSecondKlines (trades : list AggTrade)
    : result (list Kline) :=
  if len trades =? 0 then Ok []
  else
    let bySecond := groupBySecond trades in
    let seconds := sortBy (fun s => s) (mapKeys bySecond) in
    klinesLoop bySecond seconds None.

(** The trades of [trades] that fall into the second [s], ordered by time
    (arrival order among equal times). *)
Definition tradesOfSecond (trades : list AggTrade) (s : Z) : list AggTrade :=
  sortBy timestamp (filter (fun t => secondOf t =? s) trades).

(** ** Notions used in the statements *)

(** The cells after [setRangeByTime], whatever its outcome: a throw leaves
    them as they were. *)
Definition cellsAfterSetRange (data : list Kline) (startMs endMs : Z)
    (st : View) : View :=
  match setRangeByTime data startMs endMs st with
  | Ok st' => st'
  | TypeError | OutOfFuel => st
  end.

(** Sample inputs that the examples below are evaluated at. *)
Definition sampleBar (t : Z) (h l : float) : Kline :=
  mkKline t l h l h PrimFloat.one (t + 99) PrimFloat.zero 1 PrimFloat.zero
          PrimFloat.zero (Some true).

Definition sampleView (start visible : Z) : View :=
  mkView start visible false 0 0 0 None None true false 0 PrimFloat.zero
         PrimFloat.zero 0 PrimFloat.zero.

(** Bars with [openTime] [t0, t0 + 1, ...], [n] of them. *)
Definition sampleBars (t0 : Z) (n : nat) : list Kline :=
  map (fun i => sampleBar (t0 + Z.of_nat i) PrimFloat.one PrimFloat.one)
      (seq 0 n).

(** What a vertical gesture must leave alone, and what it must switch
    off. *)
Definition sameViewport (st st' : View) : Prop :=
  startIndex st' = startIndex st /\ visibleCount st' = visibleCount st.









(** The number of bars that open before [t], up to [t], and the bars that
    open within [[s, e]]. *)
Definition barsBefore (data : list Kline) (t : Z) : Z :=
  len (filter (fun k => openTime k <? t) data).

Definition barsUpTo (data : list Kline) (t : Z) : Z :=
  len (filter (fun k => openTime k <=? t) data).

Definition barsWithin (data : list Kline) (s e : Z) : list Kline :=
  filter (fun k => (s <=? openTime k) && (openTime k <=? e)) data.

(** ** The command surface, the effects and the gestures as actions *)

(** The cells as [useRef] creates them for a sequence of [L] bars. *)
Definition initialView (L : Z) : View :=
  mkView 0 (Z.min 120 (Z.max 20 L)) false 0 0 0 None None true false 0
         PrimFloat.zero PrimFloat.zero 0 0.5%float.

(** The effect on [data.length] and [followLive]: snap to the latest bars
    when following, or when the right edge is at the end already. *)
Definition followLiveEffect (followLive : bool) (L : Z) (st : View) : View :=
  let visibleCount := visibleCount st in
  let atEnd := Z.max visibleCount (L - 1) <=? startIndex st + visibleCount in
  if followLive || atEnd
  then set_viewport st (Z.max 0 (L - visibleCount)) visibleCount
  else st.

(** The effect on [data], [width] and [height], up to its listeners:
    [clampViewport(); draw()]. *)
Definition mountEffect (data : list Kline) (st : View) : View :=
  draw data (clampViewportLocal (len data) st).

(** A change of the sequence that changes its length runs both effects,
    in the order of their declaration. *)
Definition dataLengthChanged (followLive : bool) (data : list Kline)
    (st : View) : View :=
  mountEffect data (followLiveEffect followLive (len data) st).

(** [scrollToEnd]. *)
Definition scrollToEnd (data : list Kline) (st : View) : View :=
  let visibleCount := visibleCount st in
  draw data (set_viewport st (Z.max 0 (len data - visibleCount)) visibleCount).

(** [zoomIn] and [zoomOut]: the fixed factors, no anchor given. *)
Definition zoomIn (width : Z) (data : list Kline) (st : View) : View :=
  performZoomGlobal width (len data) 0.85%float None st.

Definition zoomOut (width : Z) (data : list Kline) (st : View) : View :=
  performZoomGlobal width (len data) 1.15%float None st.

(** The rounded targets of the two buttons from a count of [v]: [zoomIn]
    aims below the count and [zoomOut] more than one above it. *)
Definition buttonTargetOk (v : Z) : bool :=
  (JS.roundF (JS.ofZ v * 0.85) <? v)
  && (v + 1 <? JS.roundF (JS.ofZ v * 1.15)).

(** [resetView]. *)
Definition resetView (data : list Kline) (st : View) : View :=
  let visible := Z.min 120 (Z.max 20 (len data)) in
  let st := set_viewport st (Z.max 0 (len data - visible)) visible in
  draw data (set_yrange (set_autoY st true) None None).

(** [resetY]. *)
Definition resetY (data : list Kline) (st : View) : View :=
  draw data (set_yrange (set_autoY st true) None None).

(** What the host and the user can do to a mounted chart. *)
Inductive Action : Type :=
| Wheel (ev : WheelEvent)
| MouseDown (rectLeft rectTop : Z) (ev : MouseEvent)
| MouseMove (ev : MouseEvent)
| MouseUp
| SetRangeByTime (startMs endMs : Z)
| ScrollToEnd
| ZoomIn
| ZoomOut
| ResetView
| ResetY.

Definition act (exp : float -> float) (width height : Z)
    (data : list Kline) (a : Action) (st : View) : View :=
  match a with
  | Wheel ev => handleWheel width height data ev st
  | MouseDown rectLeft rectTop ev =>
      handleMouseDown width height data rectLeft rectTop ev st
  | MouseMove ev => handleMouseMove exp width height data ev st
  | MouseUp => handleMouseUp st
  | SetRangeByTime startMs endMs => cellsAfterSetRange data startMs endMs st
  | ScrollToEnd => scrollToEnd data st
  | ZoomIn => zoomIn width data st
  | ZoomOut => zoomOut width data st
  | ResetView => resetView data st
  | ResetY => resetY data st
  end.

Definition actAll (exp : float -> float) (width height : Z)
    (data : list Kline) (actions : list Action) (st : View) : View :=
  fold_left (fun s a => act exp width height data a s) actions st.

(** The viewport that the handlers keep: at least ten bars asked for, and
    a start index inside [0, max(0, L - visibleCount)]. *)
Definition viewportOk (L : Z) (st : View) : Prop :=
  10 <= visibleCount st
  /\ 0 <= startIndex st <= Z.max 0 (L - visibleCount st).

(** The same Y-range cells. *)
Definition sameYRange (st st' : View) : Prop :=
  autoY st' = autoY st /\ yMin st' = yMin st /\ yMax st' = yMax st.

(** ** Candle and tick geometry of [draw] *)

(** The [visibleCount] that [draw] works with. *)
Definition drawVisibleCount (data : list Kline) (st : View) : Z :=
  Z.max 10 (Z.min (len data) (visibleCount st)).

(** [candleWidth] of [draw]. *)
Definition candleWidth (width visible : Z) : Z :=
  Z.max 1 ((width - PADDING_LEFT - PADDING_RIGHT) / visible - candleGap).

(** The left edge of the body of the [idx]-th visible candle; the body is
    [candleWidth] wide. *)
Definition candleX (width : Z) (data : list Kline) (st : View) (idx : Z) : Z :=
  PADDING_LEFT
  + idx * (candleWidth width (drawVisibleCount data st) + candleGap).

(** [stepCandles]: every how many candles a time label is drawn. *)
Definition stepCandles (width : Z) (data : list Kline) (st : View) : Z :=
  let pixelsPerCandle :=
    candleWidth width (drawVisibleCount data st) + candleGap in
  let desiredPx := 80 in
  Z.max 1 (JS.round (inject_Z desiredPx / inject_Z (Z.max 1 pixelsPerCandle))).

(** [xCenter] of the tick at visible candle [i]. *)
Definition tickX (width : Z) (data : list Kline) (st : View) (i : Z) : Z :=
  let candleWidth := candleWidth width (drawVisibleCount data st) in
  PADDING_LEFT + i * (candleWidth + candleGap) + candleWidth / 2.

(** Pointer moves that each go less than half a candle span from the
    position before ([lastX] at first). *)
Fixpoint slowMoves (span lastX : Z) (moves : list MouseEvent) : Prop :=
  match moves with
  | [] => True
  | ev :: rest =>
      - span < 2 * (clientX ev - lastX) <= span
      /\ slowMoves span (clientX ev) rest
  end.

(** Strictly increasing integers, and the trades that the bars of a
    sequence count. *)
Fixpoint increasing (zs : list Z) : bool :=
  match zs with
  | [] => true
  | z :: rest =>
      match rest with
      | [] => true
      | z' :: _ => (z <? z') && increasing rest
      end
  end.

Definition totalTrades (klines : list Kline) : Z :=
  fold_right (fun k acc => numberOfTrades k + acc) 0 klines.

(** ** Live one-second aggregation (App.tsx) *)

(** The bar that the handler starts for a trade in a new second. *)
Definition newSecondBar (sec : Z) (open : float) (t : AggTrade) : Kline :=
  mkKline sec open (price t) (price t) (price t) (quantity t) (sec + 999)
          PrimFloat.zero 1 PrimFloat.zero PrimFloat.zero (Some false).

(** [{...last, high, low, close, volume, numberOfTrades, isClosed}]: the
    current second with one more trade. *)
Definition addTradeToBar (last : Kline) (t : AggTrade) : Kline :=
  mkKline (openTime last) (open last)
          (JS.max2 (high last) (price t)) (JS.min2 (low last) (price t))
          (price t) (PrimFloat.add (volume last) (quantity t))
          (closeTime last) (quoteAssetVolume last)
          (numberOfTrades last + 1)
          (takerBuyBaseVolume last) (takerBuyQuoteVolume last) (Some false).

(** The [setData] updater of the [AggTradeWebSocket] handler. *)
Definition liveTrade (prev : list Kline) (t : AggTrade) : list Kline :=
  let sec := secondOf t in
  if len prev =? 0 then [newSecondBar sec (price t) t]
  else
    let last := List.last prev (newSecondBar sec (price t) t) in
    if openTime last =? sec then
      let updated := addTradeToBar last t in
      let copy := JS.slice prev 0 (len prev - 1) in
      copy ++ [updated]
    else if openTime last <? sec then
      let newCandle := newSecondBar sec (close last) t in
      prev ++ [newCandle]
    else prev.

(** The handler run over the trades of a stream, from an empty chart. *)
Definition liveTrades (trades : list AggTrade) : list Kline :=
  fold_left liveTrade trades [].

(** A bar with [isClosed] set, as the aggregation of a history has it. *)
Definition closeBar (k : Kline) : Kline :=
  mkKline (openTime k) (open k) (high k) (low k) (close k) (volume k)
          (closeTime k) (quoteAssetVolume k) (numberOfTrades k)
          (takerBuyBaseVolume k) (takerBuyQuoteVolume k) (Some true).

(** Trades in the order of their time (equal times allowed). *)
Fixpoint timeOrdered (trades : list AggTrade) : bool :=
  match trades with
  | [] => true
  | t :: rest =>
      match rest with
      | [] => true
      | t' :: _ => (timestamp t <=? timestamp t') && timeOrdered rest
      end
  end.

(** ** Candle colours of [draw] *)

(** [Math.floor] on doubles: the integer part is read off the mantissa
    and the exponent; zeros, infinities and [NaN] are returned as they
    are. *)
Definition floorF (x : float) : float :=
  match Prim2SF x with
  | S754_finite s m e =>
      let n := if s then Z.neg m else Z.pos m in
      JS.ofZ (if 0 <=? e then n * 2 ^ e else n / 2 ^ (- e))
  | _ => x
  end.

(** [Math.max(...xs)] and [Math.min(...xs)] on integer-valued numbers;
    [None] stands for the infinity of the empty array. *)
Definition maxOfZ (xs : list Z) : option Z :=
  fold_left (fun acc x => Some (match acc with
                                | None => x
                                | Some a => Z.max a x
                                end)) xs None.

Definition minOfZ (xs : list Z) : option Z :=
  fold_left (fun acc x => Some (match acc with
                                | None => x
                                | Some a => Z.min a x
                                end)) xs None.

(** A fill style: ["#000000"], or the template string
    [hsl(hue saturation% lightness%)] as its three numbers. *)
Inductive Color : Type :=
| Black
| Hsl (hue : Z) (saturation lightness : float).

(** [computeColorFromTrades]. *)
Definition computeColorFromTrades (numberOfTrades minTrades maxTrades : Z)
    (isUp : bool) : Color :=
  if maxTrades <=? minTrades then Black
  else
    let ratio :=
      JS.min2 1
        (JS.max2 0
           (PrimFloat.div (JS.ofZ (numberOfTrades - minTrades))
                          (JS.ofZ (maxTrades - minTrades)))) in
    let hue := if isUp then 130 else 0 in
    let saturation := PrimFloat.add 10 (floorF (PrimFloat.mul 90 ratio)) in
    let lightness :=
      PrimFloat.add 45
        (floorF (PrimFloat.mul (if isUp then 10 else (-10))
                               (PrimFloat.sub 1 ratio))) in
    Hsl hue saturation lightness.

(** The colours that [draw] paints the visible candles with, in order;
    none when [draw] returns early or the slice is empty. *)
Definition candleColors (data : list Kline) (st : View) : list Color :=
  if len data =? 0 then []
  else
    let vd := viewData data st in
    match maxOfZ (map numberOfTrades vd), minOfZ (map numberOfTrades vd) with
    | Some maxTrades, Some minTrades =>
        map (fun k =>
               let isUp := PrimFloat.leb (open k) (close k) in
               computeColorFromTrades (numberOfTrades k) minTrades maxTrades
                                      isUp)
            vd
    | _, _ => []
    end.

(** ** History by time range (services/binance.ts) *)

(** A row of the klines endpoint, with its numeric strings read as
    [Number] reads them. *)
Record RawKline : Type := mkRawKline {
  d0 : Z;
  d1 : float;
  d2 : float;
  d3 : float;
  d4 : float;
  d5 : float;
  d6 : Z;
  d7 : float;
  d8 : Z;
  d9 : float;
  d10 : float
}.

(** [mapArrayToKline]. *)
Definition mapArrayToKline (d : RawKline) : Kline :=
  mkKline (d0 d) (d1 d) (d2 d) (d3 d) (d4 d) (d5 d) (d6 d) (d7 d) (d8 d)
          (d9 d) (d10 d) (Some true).

(** The answer to one request: the rows of a 2xx answer, or the status of
    another one. *)
Inductive Response : Type :=
| RespOk (chunk : list RawKline)
| RespFail (status : Z).

(** The outcome of a download: the bars, the [Error] thrown for a failed
    request, or a loop that did not finish within its fuel. *)
Inductive fetched (A : Type) : Type :=
| Fetched (a : A)
| HttpError (status : Z)
| Unfinished.
Arguments Fetched {A} a.
Arguments HttpError {A} status.
Arguments Unfinished {A}.

(** The [while (cursor < endTimeMs)] loop of [fetchKlinesByTime].
    [server startTime endTime] is the answer to the request with these
    parameters (every request of a run has a start time of its own, so a
    function of the parameters can stand for any server).  The result
    carries the start times requested, in order. *)
Fixpoint fetchKlinesLoop (fuel : nat) (server : Z -> Z -> Response)
    (all : list Kline) (cursor endTimeMs : Z)
    : list Z * fetched (list Kline) :=
  match fuel with
  | O => ([], Unfinished)
  | S fuel' =>
      if cursor <? endTimeMs then
        match server cursor endTimeMs with
        | RespFail status => ([cursor], HttpError status)
        | RespOk chunk =>
            if len chunk =? 0 then ([cursor], Fetched all)
            else
              let mapped := map mapArrayToKline chunk in
              let all := all ++ mapped in
              let last :=
                List.last mapped (mkKline 0 0 0 0 0 0 0 0 0 0 0 None) in
              let cursor' := Z.max (cursor + 1) (closeTime last + 1) in
              if len mapped <? 1000 then ([cursor], Fetched all)
              else
                let '(log, r) :=
                  fetchKlinesLoop fuel' server all cursor' endTimeMs in
                (cursor :: log, r)
        end
      else ([], Fetched all)
  end.

(** [fetchKlinesByTime]: the cursor grows by at least one millisecond per
    request, so [endTimeMs - startTimeMs] turns and the closing test are
    fuel enough. *)
Definition fetchKlinesByTime (server : Z -> Z -> Response)
    (startTimeMs endTimeMs : Z) : list Z * fetched (list Kline) :=
  fetchKlinesLoop (S (Z.to_nat (endTimeMs - startTimeMs))) server []
                  startTimeMs endTimeMs.

(** A server that answers every request with ascending bars that open at
    or after the requested start and close no earlier than they open. *)
Definition serverInOrder (server : Z -> Z -> Response) : Prop :=
  forall startTime endTime,
    match server startTime endTime with
    | RespOk chunk =>
        ascending (map mapArrayToKline chunk) = true
        /\ forall d, In d chunk -> startTime <= d0 d <= d6 d
    | RespFail _ => True
    end.

(** A sample server: one bar per millisecond from the requested start on,
    at most 1000 of them per answer and none at or after the requested
    end. *)
Definition pagedRow (startTime : Z) (i : nat) : RawKline :=
  mkRawKline (startTime + Z.of_nat i) 1 1 1 1 1 (startTime + Z.of_nat i)
             0 1 0 0.

Definition pagedRows (startTime : Z) (n : nat) : list RawKline :=
  map (pagedRow startTime) (seq 0 n).

Definition pagedServer (startTime endTime : Z) : Response :=
  RespOk (pagedRows startTime
                    (Z.to_nat (Z.min 1000 (endTime - startTime)))).

(** ** The reconnecting kline stream (services/binance.ts) *)

(** What a [KlineWebSocket] does to its surroundings: it constructs a
    socket, closes one, sets or clears a timer, or hands a bar to
    [onUpdate]. *)
Inductive WsEffect : Type :=
| Connect (socket : nat)
| CloseSocket (socket : nat)
| SetTimeout (timer : positive) (ms : Z)
| ClearTimeout (timer : positive)
| Update (k : Kline).

(** The fields of a [KlineWebSocket]; [sockets] and [timers] count the
    sockets constructed and the timers set so far, and name the next
    ones (a timer handle is a positive number, hence truthy). *)
Record WsClient : Type := mkWsClient {
  ws : option nat;
  reconnectTimer : option positive;
  stopped : bool;
  sockets : nat;
  timers : positive
}.

(** What the surroundings do to a started client: a message arrives
    ([None]: [JSON.parse] throws; [Some None]: no [k] in it;
    [Some (Some k)]: the bar it carries), a socket closes or fails, or the
    timer fires. *)
Inductive WsEvent : Type :=
| OnMessage (payload : option (option Kline))
| OnClose
| OnError
| OnTimer.

(** [connect]. *)
Definition wsConnect (c : WsClient) : WsClient * list WsEffect :=
  (mkWsClient (Some (sockets c)) (reconnectTimer c) (stopped c)
              (S (sockets c)) (timers c),
   [Connect (sockets c)]).

(** [start]. *)
Definition wsStart (c : WsClient) : WsClient * list WsEffect :=
  wsConnect (mkWsClient (ws c) (reconnectTimer c) false (sockets c) (timers c)).

(** [stop]. *)
Definition wsStop (c : WsClient) : WsClient * list WsEffect :=
  (mkWsClient None None true (sockets c) (timers c),
   match ws c with Some s => [CloseSocket s] | None => [] end
   ++ match reconnectTimer c with Some t => [ClearTimeout t] | None => [] end).

(** [scheduleReconnect]. *)
Definition wsScheduleReconnect (c : WsClient) : WsClient * list WsEffect :=
  match reconnectTimer c with
  | Some _ => (c, [])
  | None =>
      (mkWsClient (ws c) (Some (timers c)) (stopped c) (sockets c)
                  (Pos.succ (timers c)),
       [SetTimeout (timers c) 1500])
  end.

(** The handlers that [connect] installs, and the timer callback. *)
Definition wsHandle (c : WsClient) (ev : WsEvent)
    : WsClient * list WsEffect :=
  match ev with
  | OnMessage (Some (Some k)) => (c, [Update k])
  | OnMessage _ => (c, [])
  | OnClose => if stopped c then (c, []) else wsScheduleReconnect c
  | OnError =>
      (c, match ws c with Some s => [CloseSocket s] | None => [] end)
  | OnTimer =>
      let c := mkWsClient (ws c) None (stopped c) (sockets c) (timers c) in
      if negb (stopped c) then wsConnect c else (c, [])
  end.

Definition wsRun (events : list WsEvent) (c : WsClient)
    : WsClient * list WsEffect :=
  fold_left
    (fun acc ev =>
       let '(c', effects) := wsHandle (fst acc) ev in
       (c', snd acc ++ effects))
    events (c, []).

(** An effect that reaches out for a new connection. *)
Definition reconnects (e : WsEffect) : bool :=
  match e with
  | Connect _ | SetTimeout _ _ => true
  | _ => false
  end.

(** ** Trades by time range (services/binance.ts) *)

(** The answer to one request for trades: the trades of a 2xx answer (with
    their fields read as the loop reads them), or the status of another
    one. *)
Inductive AggResponse : Type :=
| AggOk (chunk : list AggTrade)
| AggFail (status : Z).

(** [res.status === 429 || res.status >= 500]. *)
Definition retryable (status : Z) : bool :=
  (status =? 429) || (500 <=? status).

(** [Math.min(5000, 300 * Math.pow(2, attempt))]. *)
Definition backoffMs (attempt : nat) : Z :=
  Z.min 5000 (300 * 2 ^ Z.of_nat attempt).

(** The [for (;;)] loop of one request.  [answer k] is the answer to the
    request after [k] failed tries; [attempt] counts the failed tries.
    The result carries the delays slept, in order. *)
Fixpoint fetchWithRetry (fuel : nat) (answer : nat -> AggResponse)
    (attempt : nat) : list Z * fetched (list AggTrade) :=
  match fuel with
  | O => ([], Unfinished)
  | S fuel' =>
      match answer attempt with
      | AggOk chunk => ([], Fetched chunk)
      | AggFail status =>
          if retryable status then
            let attempt := S attempt in
            let '(sleeps, r) := fetchWithRetry fuel' answer attempt in
            (backoffMs attempt :: sleeps, r)
          else ([], HttpError status)
      end
  end.

Definition windowMs : Z := 60000.

(** The [while (cursor < endTimeMs)] loop of [fetchAggTradesRange];
    [server startTime endTime k] is the answer to the request for that
    window after [k] failed tries. *)
Fixpoint fetchAggTradesLoop (fuel retryFuel : nat)
    (server : Z -> Z -> nat -> AggResponse) (all : list AggTrade)
    (cursor endTimeMs : Z) : list Z * fetched (list AggTrade) :=
  match fuel with
  | O => ([], Unfinished)
  | S fuel' =>
      if cursor <? endTimeMs then
        let '(sleeps, r) :=
          fetchWithRetry retryFuel
            (server cursor (Z.min (cursor + windowMs) endTimeMs)) 0 in
        match r with
        | Fetched chunk =>
            if len chunk =? 0 then
              let '(sleeps', r') :=
                fetchAggTradesLoop fuel' retryFuel server all
                                   (cursor + windowMs) endTimeMs in
              (sleeps ++ 120 :: sleeps', r')
            else
              let all := all ++ chunk in
              let cursor' :=
                Z.max (cursor + 1)
                      (timestamp
                         (List.last all (mkAggTrade 0 0 0 0 false)) + 1) in
              let '(sleeps', r') :=
                fetchAggTradesLoop fuel' retryFuel server all cursor'
                                   endTimeMs in
              (sleeps ++ 120 :: sleeps', r')
        | HttpError status => (sleeps, HttpError status)
        | Unfinished => (sleeps, Unfinished)
        end
      else ([], Fetched all)
  end.

(** [fetchAggTradesRange]; [retryFuel] bounds the tries of one request
    (the program itself never gives up on a 429 or 5xx). *)
Definition fetchAggTradesRange (retryFuel : nat)
    (server : Z -> Z -> nat -> AggResponse) (startTimeMs endTimeMs : Z)
    : list Z * fetched (list AggTrade) :=
  fetchAggTradesLoop (S (Z.to_nat (endTimeMs - startTimeMs))) retryFuel
                     server [] startTimeMs endTimeMs.

(** A server whose 2xx answers hold trades in time order, none before the
    start of the window asked for. *)
Definition aggServerInOrder (server : Z -> Z -> nat -> AggResponse) : Prop :=
  forall startTime endTime k,
    match server startTime endTime k with
    | AggOk chunk =>
        timeOrdered chunk = true
        /\ forall t, In t chunk -> startTime <= timestamp t
    | AggFail _ => True
    end.

(** A sample server: one trade a minute at the start of the window asked
    for, after one 503. *)
Definition sampleAggServer (startTime endTime : Z) (k : nat) : AggResponse :=
  match k with
  | O => AggFail 503
  | S _ => AggOk [mkAggTrade startTime 10 1 startTime false]
  end.

(** * Properties *)

(** ** Viewport clamping *)

Lemma set_viewport_start st s v : startIndex (set_viewport st s v) = s.
Proof. reflexivity. Qed.

Lemma set_viewport_visible st s v : visibleCount (set_viewport st s v) = v.
Proof. reflexivity. Qed.

(** C2, as stated, fails on a sequence shorter than the minimum of ten
    visible bars (with four bars the clamp leaves ten visible), and on a
    count above 5000 over a sequence that long, which the clamp does not
    cut. *)
Lemma clamp_bounds_counterexample :
  ~ (10 <= visibleCount (clampViewportLocal 4 (sampleView 0 20))
        <= Z.min 4 5000
     /\ 0 <= startIndex (clampViewportLocal 4 (sampleView 0 20))
          <= Z.max 0 (4 - visibleCount
                            (clampViewportLocal 4 (sampleView 0 20))))
  /\ ~ (10 <= visibleCount (clampViewportLocal 6000 (sampleView 0 6000))
           <= Z.min 6000 5000
        /\ 0 <= startIndex (clampViewportLocal 6000 (sampleView 0 6000))
             <= Z.max 0 (6000 - visibleCount
                                  (clampViewportLocal 6000
                                                      (sampleView 0 6000)))).
Proof. cbn. lia. Qed.

(** C2 (amended): after the clamp the visible count is
    [max(10, min(L, v))]; it is at least 10, it is at most [min(L, 5000)]
    when the sequence has at least ten bars and [min(L, v)] is at most
    5000, and the start index lies in [0, max(0, L - visible)] always. *)
Theorem clamp_bounds (L : Z) (st : View) :
  let st' := clampViewportLocal L st in
  visibleCount st' = Z.max 10 (Z.min L (visibleCount st))
  /\ 10 <= visibleCount st'
  /\ (10 <= L -> Z.min L (visibleCount st) <= 5000 ->
      visibleCount st' <= Z.min L 5000)
  /\ 0 <= startIndex st' <= Z.max 0 (L - visibleCount st').
Proof.
  unfold clampViewportLocal. cbn zeta.
  rewrite set_viewport_start, set_viewport_visible. lia.
Qed.

Lemma clamp_bounds_witness :
  visibleCount (clampViewportLocal 50 (sampleView 45 20)) = 20
  /\ startIndex (clampViewportLocal 50 (sampleView 45 20)) = 30
  /\ visibleCount (clampViewportLocal 50 (sampleView 45 20))
     <= Z.min 50 5000.
Proof.
  pose proof (clamp_bounds 50 (sampleView 45 20)) as H.
  cbn zeta in H. destruct H as (_ & _ & Hle & _).
  split; [reflexivity | split; [reflexivity |]].
  apply Hle; cbn; lia.
Defined.

(** ** Time-range lookup *)

Lemma sar_half (x : Z) : 0 <= x < 2 ^ 31 -> JS.sar x 1 = x / 2.
Proof.
  intros Hx. unfold JS.sar, JS.toInt32.
  rewrite Z.mod_small by lia.
  destruct (2 ^ 31 <=? x) eqn:E; [apply Z.leb_le in E; lia |].
  now rewrite Z.shiftr_div_pow2.
Qed.

Lemma index_in_range {A : Type} (xs : list A) (i : Z) :
  0 <= i < len xs -> exists x, JS.index xs i = Some x.
Proof.
  intros Hi. unfold JS.index, len in *.
  destruct (i <? 0) eqn:E; [apply Z.ltb_lt in E; lia |].
  destruct (nth_error xs (Z.to_nat i)) eqn:N; [eauto |].
  apply nth_error_None in N. lia.
Qed.

(** On an array of at most 2^30 bars the search loop returns, without a
    throw, an index between its bounds. *)
Lemma searchLoop_returns (goRight : Z -> bool) (data : list Kline) :
  len data <= 2 ^ 30 ->
  forall (fuel : nat) (lo hi : Z),
    0 <= lo -> hi < len data -> lo <= hi + 1 ->
    (Z.to_nat (hi - lo + 1) < fuel)%nat ->
    exists r, searchLoop fuel goRight data lo hi = Ok r /\ lo <= r <= hi + 1.
Proof.
  intros HL. induction fuel as [| fuel IH]; intros lo hi Hlo Hhi Hle Hf.
  - lia.
  - cbn [searchLoop]. destruct (lo <=? hi) eqn:E.
    + apply Z.leb_le in E.
      rewrite sar_half by lia.
      assert (Hmid : lo <= (lo + hi) / 2 <= hi).
      { split; [apply Z.div_le_lower_bound | apply Z.div_le_upper_bound];
          lia. }
      destruct (index_in_range data ((lo + hi) / 2)) as [k Hk]; [lia |].
      rewrite Hk. destruct (goRight (openTime k)).
      * destruct (IH ((lo + hi) / 2 + 1) hi) as (r & Hr & Hb); try lia.
        exists r. split; [exact Hr | lia].
      * destruct (IH lo ((lo + hi) / 2 - 1)) as (r & Hr & Hb); try lia.
        exists r. split; [exact Hr | lia].
    + apply Z.leb_gt in E. exists lo. split; [reflexivity | lia].
Qed.

Lemma rangeStartIdx_returns (data : list Kline) (startMs : Z) :
  len data <= 2 ^ 30 -> exists i, rangeStartIdx data startMs = Ok i.
Proof.
  intros HL. unfold rangeStartIdx.
  destruct (searchLoop_returns (fun t => t <? startMs) data HL
              (S (length data)) 0 (len data - 1)) as (r & Hr & _);
    unfold len in *; try lia.
  rewrite Hr. cbn. eauto.
Qed.

Lemma rangeEndIdx_returns (data : list Kline) (endMs : Z) :
  len data <= 2 ^ 30 -> exists i, rangeEndIdx data endMs = Ok i.
Proof.
  intros HL. unfold rangeEndIdx.
  destruct (searchLoop_returns (fun t => t <=? endMs) data HL
              (S (length data)) 0 (len data - 1)) as (r & Hr & _);
    unfold len in *; try lia.
  rewrite Hr. cbn. eauto.
Qed.

Lemma setRangeByTime_returns (data : list Kline) (startMs endMs : Z)
    (st : View) :
  len data <= 2 ^ 30 ->
  exists st', setRangeByTime data startMs endMs st = Ok st'.
Proof.
  intros HL. unfold setRangeByTime.
  destruct (len data =? 0); [eauto |].
  destruct (endMs <=? startMs); [eauto |].
  destruct (rangeStartIdx_returns data startMs HL) as [i Hi].
  destruct (rangeEndIdx_returns data endMs HL) as [j Hj].
  rewrite Hi, Hj. cbn. eauto.
Qed.

(** The outcome of [setRangeByTime] reads no cell: from two states it
    either returns in both, with the same viewport, or fails in both. *)
Lemma setRangeByTime_again (data : list Kline) (startMs endMs : Z)
    (st st1 : View) :
  setRangeByTime data startMs endMs st = Ok st1 ->
  setRangeByTime data startMs endMs st1 = Ok st1.
Proof.
  unfold setRangeByTime.
  destruct (len data =? 0); [intros [= <-]; reflexivity |].
  destruct (endMs <=? startMs); [intros [= <-]; reflexivity |].
  destruct (rangeStartIdx data startMs) as [i | |]; cbn; try discriminate.
  destruct (rangeEndIdx data endMs) as [j | |]; cbn; try discriminate.
  intros [= <-]. reflexivity.
Qed.

(** C1, as stated, fails: on the bars at 100, 200, 300, 400 the call
    [setRangeByTime(150, 350)] does not end with [startIndex = 1] and
    [visibleCount = 2]. *)
Lemma setRangeByTime_example_counterexample :
  ~ (exists st',
        setRangeByTime
          [sampleBar 100 PrimFloat.one PrimFloat.one;
           sampleBar 200 PrimFloat.one PrimFloat.one;
           sampleBar 300 PrimFloat.one PrimFloat.one;
           sampleBar 400 PrimFloat.one PrimFloat.one]
          150 350 (sampleView 0 20) = Ok st'
        /\ startIndex st' = 1 /\ visibleCount st' = 2).
Proof.
  intros (st' & Hrun & Hs & _).
  vm_compute in Hrun. injection Hrun as <-. discriminate Hs.
Qed.

(** C1 (amended): for the bar sequence with openTimes [100,200,300,400],
    [setRangeByTime(150, 350)] finds the index range 1..2 (the bars at 200
    and 300), raises the count to the minimum of 10 and cuts the start to
    the sequence: it returns with [startIndex = 0] and
    [visibleCount = 10]. *)
Theorem setRangeByTime_example (data : list Kline) (st : View) :
  map openTime data = [100; 200; 300; 400] ->
  rangeStartIdx data 150 = Ok 1
  /\ rangeEndIdx data 350 = Ok 2
  /\ exists st',
       setRangeByTime data 150 350 st = Ok st'
       /\ startIndex st' = 0 /\ visibleCount st' = 10.
Proof.
  intros H.
  destruct data as [| [t1 ? ? ? ? ? ? ? ? ? ? ?] data]; [discriminate |].
  destruct data as [| [t2 ? ? ? ? ? ? ? ? ? ? ?] data]; [discriminate |].
  destruct data as [| [t3 ? ? ? ? ? ? ? ? ? ? ?] data]; [discriminate |].
  destruct data as [| [t4 ? ? ? ? ? ? ? ? ? ? ?] data]; [discriminate |].
  destruct data; [| discriminate].
  cbn in H. injection H as -> -> -> ->.
  split; [reflexivity | split; [reflexivity |]].
  eexists. split; [reflexivity | split; reflexivity].
Qed.

Lemma setRangeByTime_example_witness :
  rangeStartIdx [sampleBar 100 PrimFloat.one PrimFloat.one;
                 sampleBar 200 PrimFloat.one PrimFloat.one;
                 sampleBar 300 PrimFloat.one PrimFloat.one;
                 sampleBar 400 PrimFloat.one PrimFloat.one] 150 = Ok 1.
Proof.
  apply (setRangeByTime_example
           [sampleBar 100 PrimFloat.one PrimFloat.one;
            sampleBar 200 PrimFloat.one PrimFloat.one;
            sampleBar 300 PrimFloat.one PrimFloat.one;
            sampleBar 400 PrimFloat.one PrimFloat.one]
           (sampleView 0 20)).
  reflexivity.
Defined.

(** C9: on an empty sequence, or with [endMs <= startMs],
    [setRangeByTime] returns normally and leaves every cell (the viewport
    and the Y-range among them) as it was. *)
Theorem setRangeByTime_noop (data : list Kline) (startMs endMs : Z)
    (st : View) :
  data = [] \/ endMs <= startMs ->
  setRangeByTime data startMs endMs st = Ok st.
Proof.
  intros [-> | H]; [reflexivity |].
  unfold setRangeByTime.
  destruct (len data =? 0); [reflexivity |].
  apply Z.leb_le in H. now rewrite H.
Qed.

Lemma setRangeByTime_noop_witness :
  setRangeByTime (sampleBars 100 4) 350 150 (sampleView 2 30)
  = Ok (sampleView 2 30).
Proof.
  apply (setRangeByTime_noop (sampleBars 100 4) 350 150 (sampleView 2 30)).
  right. lia.
Defined.

(** C5: [setRangeByTime] is idempotent.  A second call with the same
    arguments leaves the cells exactly as the first call left them, so
    [(startIndex, visibleCount)] is the same after two calls as after one;
    and on a sequence of at most 2^30 bars (where [(lo + hi) >> 1] does not
    wrap) both calls return normally. *)
Theorem setRangeByTime_idempotent (data : list Kline) (startMs endMs : Z)
    (st : View) :
  let once := cellsAfterSetRange data startMs endMs st in
  let twice := cellsAfterSetRange data startMs endMs once in
  (startIndex twice, visibleCount twice) = (startIndex once, visibleCount once)
  /\ twice = once
  /\ (len data <= 2 ^ 30 ->
      setRangeByTime data startMs endMs st = Ok once
      /\ setRangeByTime data startMs endMs once = Ok twice).
Proof.
  cbn zeta.
  assert (Hrun : forall s s1, setRangeByTime data startMs endMs s = Ok s1 ->
                   cellsAfterSetRange data startMs endMs s = s1).
  { intros s s1 H. unfold cellsAfterSetRange. now rewrite H. }
  assert (Htwice : cellsAfterSetRange data startMs endMs
                     (cellsAfterSetRange data startMs endMs st)
                   = cellsAfterSetRange data startMs endMs st).
  { destruct (setRangeByTime data startMs endMs st) as [st1 | |] eqn:E.
    - rewrite (Hrun _ _ E). apply Hrun.
      eapply setRangeByTime_again. exact E.
    - unfold cellsAfterSetRange. now rewrite !E.
    - unfold cellsAfterSetRange. now rewrite !E. }
  split; [now rewrite Htwice | split; [exact Htwice |]].
  intros HL.
  destruct (setRangeByTime_returns data startMs endMs st HL) as [st1 E].
  rewrite Htwice. rewrite (Hrun _ _ E).
  split; [exact E | eapply setRangeByTime_again; exact E].
Qed.

Lemma setRangeByTime_idempotent_witness :
  setRangeByTime (sampleBars 100 40) 105 130 (sampleView 0 20)
  = Ok (cellsAfterSetRange (sampleBars 100 40) 105 130 (sampleView 0 20))
  /\ startIndex
       (cellsAfterSetRange (sampleBars 100 40) 105 130 (sampleView 0 20)) = 5
  /\ visibleCount
       (cellsAfterSetRange (sampleBars 100 40) 105 130 (sampleView 0 20)) = 26.
Proof.
  pose proof (setRangeByTime_idempotent (sampleBars 100 40) 105 130
                (sampleView 0 20)) as H.
  cbn zeta in H. destruct H as (_ & _ & H).
  split; [| split; reflexivity].
  apply H. vm_compute. discriminate.
Defined.

(** ** Live kline merge *)

Lemma len_nonempty {A : Type} (xs : list A) :
  xs <> [] -> (len xs =? 0) = false /\ 1 <= len xs.
Proof.
  intros H. destruct xs as [| x xs]; [congruence |].
  unfold len. cbn [length]. split; [apply Z.eqb_neq |]; lia.
Qed.

Lemma len_app {A : Type} (xs ys : list A) : len (xs ++ ys) = len xs + len ys.
Proof. unfold len. rewrite length_app. lia. Qed.

Lemma slice_init {A : Type} (xs : list A) :
  xs <> [] -> JS.slice xs 0 (len xs - 1) = removelast xs.
Proof.
  intros H. destruct (len_nonempty xs H) as [_ Hn].
  unfold JS.slice, JS.sliceBound. fold (len xs).
  replace (0 <? 0) with false by reflexivity.
  destruct (len xs - 1 <? 0) eqn:E; [apply Z.ltb_lt in E; lia |].
  rewrite Z.min_l by lia. rewrite Z.min_l by lia.
  rewrite Z.sub_0_r. cbn [Z.to_nat skipn].
  rewrite removelast_firstn_len. f_equal. unfold len. lia.
Qed.

Lemma tl_app_nonempty {A : Type} (xs ys : list A) :
  xs <> [] -> tl (xs ++ ys) = tl xs ++ ys.
Proof. destruct xs; [congruence | reflexivity]. Qed.

Lemma len_tl {A : Type} (xs : list A) : xs <> [] -> len (tl xs) = len xs - 1.
Proof.
  destruct xs; [congruence |]. intros _. unfold len. cbn [tl length]. lia.
Qed.

(** The update with a new [openTime]: appended, whatever the order. *)
Lemma mergeKline_other (prev : list Kline) (k : Kline) :
  prev <> [] ->
  openTime k <> openTime (List.last prev k) ->
  mergeKline prev k
  = if 2000 <=? len prev then tl prev ++ [k] else prev ++ [k].
Proof.
  intros Hne Hk. unfold mergeKline.
  destruct (len_nonempty prev Hne) as [-> _].
  apply Z.eqb_neq in Hk. rewrite Hk.
  rewrite len_app. change (len [k]) with 1.
  destruct (2000 <? len prev + 1) eqn:E, (2000 <=? len prev) eqn:E';
    try reflexivity.
  - now apply tl_app_nonempty.
  - apply Z.ltb_lt in E. apply Z.leb_gt in E'. lia.
  - apply Z.ltb_ge in E. apply Z.leb_le in E'. lia.
Qed.

Lemma mergeKline_same (prev : list Kline) (k : Kline) :
  prev <> [] ->
  openTime k = openTime (List.last prev k) ->
  mergeKline prev k = removelast prev ++ [k].
Proof.
  intros Hne Hk. unfold mergeKline.
  destruct (len_nonempty prev Hne) as [-> _].
  apply Z.eqb_eq in Hk. rewrite Hk.
  now rewrite slice_init.
Qed.

Lemma len_removelast {A : Type} (xs : list A) :
  xs <> [] -> len (removelast xs) = len xs - 1.
Proof.
  intros H. destruct (len_nonempty xs H) as [_ Hn].
  rewrite removelast_firstn_len. unfold len in *.
  rewrite length_firstn. lia.
Qed.

Lemma mergeKline_len (prev : list Kline) (k : Kline) :
  len (mergeKline prev k)
  = if len prev =? 0 then 1
    else if openTime k =? openTime (List.last prev k) then len prev
    else if 2000 <=? len prev then len prev else len prev + 1.
Proof.
  destruct prev as [| p prev]; [reflexivity |].
  assert (Hne : p :: prev <> []) by discriminate.
  destruct (len_nonempty _ Hne) as [E0 Hn]. rewrite E0.
  destruct (openTime k =? openTime (last (p :: prev) k)) eqn:E.
  - apply Z.eqb_eq in E. rewrite (mergeKline_same _ _ Hne E).
    rewrite len_app, len_removelast by exact Hne.
    change (len [k]) with 1. lia.
  - apply Z.eqb_neq in E. rewrite (mergeKline_other _ _ Hne E).
    destruct (2000 <=? len (p :: prev)).
    + rewrite len_app, len_tl by exact Hne. change (len [k]) with 1. lia.
    + now rewrite len_app.
Qed.

Lemma ascending_app_desc (l : list Kline) (a b : Kline) :
  openTime b < openTime a -> ascending (l ++ [a; b]) = false.
Proof.
  intros H. induction l as [| x l IH].
  - cbn. replace (openTime a <? openTime b) with false; [reflexivity |].
    symmetry. apply Z.ltb_ge. lia.
  - cbn [app]. destruct (l ++ [a; b]) as [| y r] eqn:E.
    + destruct l; discriminate.
    + change (ascending (x :: y :: r))
        with ((openTime x <? openTime y) && ascending (y :: r)).
      rewrite IH. apply andb_false_r.
Qed.

(** C4, as stated, fails on a sequence that is already longer than 2000
    bars (the one-second history and the range loader can leave one in the
    state that the handler merges into): the merge drops a single entry
    per append, so 2001 bars stay 2001. *)
Lemma mergeKline_cap_counterexample :
  ascending (sampleBars 0 2001) = true
  /\ ~ (len (mergeKline (sampleBars 0 2001)
                        (sampleBar 2001 PrimFloat.one PrimFloat.one))
        <= 2000).
Proof.
  split; [vm_compute; reflexivity |].
  rewrite mergeKline_len. vm_compute. intros H. apply H. reflexivity.
Qed.

(** C4 (amended): the live kline merge replaces the last bar when the
    update's openTime equals the last bar's, and appends when it is
    strictly greater, dropping the oldest entry when the sequence already
    holds 2000 entries or more; so a sequence of at most 2000 entries stays
    at most 2000, and a longer one never grows. *)
Theorem mergeKline_live (prev : list Kline) (k : Kline) :
  (prev <> [] -> openTime k = openTime (List.last prev k) ->
   mergeKline prev k = removelast prev ++ [k])
  /\ (prev <> [] -> openTime (List.last prev k) < openTime k ->
      mergeKline prev k
      = if 2000 <=? len prev then tl prev ++ [k] else prev ++ [k])
  /\ (len prev <= 2000 -> len (mergeKline prev k) <= 2000)
  /\ len (mergeKline prev k) <= Z.max 2000 (len prev).
Proof.
  split; [apply mergeKline_same |].
  split; [intros Hne Hk; apply mergeKline_other; [exact Hne | lia] |].
  rewrite mergeKline_len.
  destruct (len prev =? 0) eqn:E0;
    destruct (openTime k =? openTime (last prev k));
    destruct (2000 <=? len prev) eqn:E; try apply Z.leb_le in E;
    try apply Z.leb_gt in E; lia.
Qed.

Lemma mergeKline_live_witness :
  mergeKline (sampleBars 100 3) (sampleBar 102 PrimFloat.infinity PrimFloat.one)
  = removelast (sampleBars 100 3)
    ++ [sampleBar 102 PrimFloat.infinity PrimFloat.one]
  /\ mergeKline (sampleBars 100 3) (sampleBar 103 PrimFloat.one PrimFloat.one)
     = sampleBars 100 4
  /\ len (mergeKline (sampleBars 100 3)
                     (sampleBar 103 PrimFloat.one PrimFloat.one)) <= 2000.
Proof.
  assert (Hne : sampleBars 100 3 <> []) by (vm_compute; discriminate).
  destruct (mergeKline_live (sampleBars 100 3)
              (sampleBar 102 PrimFloat.infinity PrimFloat.one))
    as (Hsame & _).
  destruct (mergeKline_live (sampleBars 100 3)
              (sampleBar 103 PrimFloat.one PrimFloat.one))
    as (_ & Hnew & Hcap & _).
  split; [apply Hsame; [exact Hne | reflexivity] |].
  split; [apply Hnew; [exact Hne | vm_compute; reflexivity] |].
  apply Hcap. vm_compute. discriminate.
Defined.

Lemma last_tl {A : Type} (xs : list A) (d : A) :
  tl xs <> [] -> List.last (tl xs) d = List.last xs d.
Proof.
  destruct xs as [| x [| y xs]]; cbn [tl]; try congruence. reflexivity.
Qed.

(** C10: on a non-empty sequence the live kline merge appends every update
    whose openTime differs from the last bar's (dropping the oldest entry
    of a sequence of 2000 or more), also when it is strictly less; the
    merged sequence is then no longer ascending by openTime. *)
Theorem mergeKline_appends_out_of_order (prev : list Kline) (k : Kline) :
  prev <> [] ->
  openTime k <> openTime (List.last prev k) ->
  mergeKline prev k
  = (if 2000 <=? len prev then tl prev ++ [k] else prev ++ [k])
  /\ (openTime k < openTime (List.last prev k) ->
      ascending (mergeKline prev k) = false).
Proof.
  intros Hne Hk. pose proof (mergeKline_other prev k Hne Hk) as Hm.
  split; [exact Hm |]. intros Hlt. rewrite Hm.
  assert (Hshape : forall xs : list Kline,
             xs <> [] -> List.last xs k = List.last prev k ->
             ascending (xs ++ [k]) = false).
  { intros xs Hxs Hl.
    rewrite (app_removelast_last k Hxs), <- app_assoc. cbn [app].
    apply ascending_app_desc. rewrite Hl. exact Hlt. }
  destruct (2000 <=? len prev) eqn:E.
  - apply Z.leb_le in E.
    assert (Htl : tl prev <> []).
    { intros H0. pose proof (len_tl prev Hne) as Hl.
      rewrite H0 in Hl. change (len (@nil Kline)) with 0 in Hl. lia. }
    apply Hshape; [exact Htl | now apply last_tl].
  - now apply Hshape.
Qed.

Lemma mergeKline_appends_out_of_order_witness :
  ascending (sampleBars 100 3) = true
  /\ mergeKline (sampleBars 100 3) (sampleBar 50 PrimFloat.one PrimFloat.one)
     = sampleBars 100 3 ++ [sampleBar 50 PrimFloat.one PrimFloat.one]
  /\ ascending (mergeKline (sampleBars 100 3)
                           (sampleBar 50 PrimFloat.one PrimFloat.one))
     = false.
Proof.
  assert (H1 : sampleBars 100 3 <> []) by (vm_compute; discriminate).
  assert (H2 : openTime (sampleBar 50 PrimFloat.one PrimFloat.one)
               <> openTime (List.last (sampleBars 100 3)
                              (sampleBar 50 PrimFloat.one PrimFloat.one)))
    by (vm_compute; discriminate).
  destruct (mergeKline_appends_out_of_order _ _ H1 H2) as [Ha Hb].
  split; [reflexivity | split; [exact Ha |]].
  apply Hb. vm_compute. reflexivity.
Defined.

(** ** Price range of [draw] *)

Lemma drawPriceRange_auto (data : list Kline) (st : View) :
  data <> [] -> autoY st = true ->
  drawPriceRange data st
  = let vd := viewData data st in
    let pad :=
      JS.orElse (PrimFloat.mul (PrimFloat.sub (dataMax vd) (dataMin vd))
                               0.05%float) 1%float in
    Some (PrimFloat.sub (dataMin vd) pad, PrimFloat.add (dataMax vd) pad).
Proof.
  intros Hne Hauto. unfold drawPriceRange.
  destruct (len_nonempty data Hne) as [-> _].
  rewrite Hauto. reflexivity.
Qed.

(** C8: in auto Y-range mode [draw] paints with the range
    [min(visible lows) - pad, max(visible highs) + pad], where [pad] is
    [(max - min) * 0.05], or 1 when that product is zero (the product
    being a number); for visible highs [10, 12, 9] and lows [8, 7, 11]
    the range is [6.75, 12.25]. *)
Theorem draw_auto_price_range (data : list Kline) (st : View) :
  data <> [] -> autoY st = true ->
  let vd := viewData data st in
  let hi := JS.maxOf (map high vd) in
  let lo := JS.minOf (map low vd) in
  let product := PrimFloat.mul (PrimFloat.sub hi lo) 0.05%float in
  let pad := if PrimFloat.is_zero product then 1%float else product in
  (PrimFloat.is_nan product = false ->
   drawPriceRange data st
   = Some (PrimFloat.sub lo pad, PrimFloat.add hi pad))
  /\ (map high vd = [10; 12; 9]%float -> map low vd = [8; 7; 11]%float ->
      drawPriceRange data st = Some (6.75, 12.25)%float).
Proof.
  intros Hne Hauto. cbn zeta.
  rewrite (drawPriceRange_auto data st Hne Hauto). cbn zeta.
  unfold dataMax, dataMin. split.
  - intros Hnan. unfold JS.orElse, JS.falsy. rewrite Hnan.
    rewrite orb_false_r. reflexivity.
  - intros -> ->. vm_compute. reflexivity.
Qed.

Lemma draw_auto_price_range_witness :
  drawPriceRange
    [sampleBar 1 10 8; sampleBar 2 12 7; sampleBar 3 9 11]%float
    (sampleView 0 10)
  = Some (PrimFloat.sub 7 0.25, PrimFloat.add 12 0.25)%float
  /\ drawPriceRange
       [sampleBar 1 10 8; sampleBar 2 12 7; sampleBar 3 9 11]%float
       (sampleView 0 10)
     = Some (6.75, 12.25)%float.
Proof.
  assert (Hne : [sampleBar 1 10 8; sampleBar 2 12 7; sampleBar 3 9 11]%float
                <> []) by discriminate.
  assert (Hauto : autoY (sampleView 0 10) = true) by reflexivity.
  pose proof (draw_auto_price_range _ _ Hne Hauto) as H.
  cbn zeta in H. destruct H as [Hgen Hex].
  split.
  - apply Hgen. vm_compute. reflexivity.
  - apply Hex; vm_compute; reflexivity.
Defined.

(** ** Vertical-range gestures *)

Lemma handleWheel_alt (width height : Z) (data : list Kline)
    (ev : WheelEvent) (st : View) :
  altKey ev = true ->
  autoY (handleWheel width height data ev st) = false
  /\ sameViewport st (handleWheel width height data ev st).
Proof.
  intros Halt. unfold handleWheel. rewrite Halt.
  unfold rangeAround, sameViewport, draw. cbn. auto.
Qed.

Lemma handleMouseDown_viewport (width height : Z) (data : list Kline)
    (rectLeft rectTop : Z) (ev : MouseEvent) (st : View) :
  sameViewport st (handleMouseDown width height data rectLeft rectTop ev st).
Proof.
  unfold handleMouseDown, sameViewport.
  destruct (width - PADDING_RIGHT <=? clientX ev - rectLeft); [| now cbn].
  destruct (0 <? len (viewData data _)); now cbn.
Qed.

(** A press in the right gutter over a non-empty visible slice enters the
    resize mode and switches auto-Y off. *)
Lemma handleMouseDown_gutter (width height : Z) (data : list Kline)
    (rectLeft rectTop : Z) (ev : MouseEvent) (st : View) :
  width - PADDING_RIGHT <= clientX ev - rectLeft ->
  viewData data st <> [] ->
  let st' := handleMouseDown width height data rectLeft rectTop ev st in
  isDragging st' = true /\ isResizingY st' = true /\ autoY st' = false.
Proof.
  intros Hx Hvd. cbn zeta. unfold handleMouseDown.
  apply Z.leb_le in Hx. rewrite Hx.
  change (viewData data (set_drag st true (clientX ev) (clientY ev)))
    with (viewData data st).
  destruct (len_nonempty _ Hvd) as [_ Hn].
  replace (0 <? len (viewData data st)) with true
    by (symmetry; apply Z.ltb_lt; lia).
  cbn. auto.
Qed.

Section ResizeDrag.

Variable exp : float -> float.
Variables (width height : Z) (data : list Kline).

(** In the resize mode a pointer move rewrites the Y-range only. *)
Lemma handleMouseMove_resizing (ev : MouseEvent) (st : View) :
  isDragging st = true -> isResizingY st = true ->
  let st' := handleMouseMove exp width height data ev st in
  isDragging st' = true /\ isResizingY st' = true
  /\ autoY st' = autoY st /\ sameViewport st st'.
Proof.
  intros Hd Hr. cbn zeta. unfold handleMouseMove. rewrite Hd.
  cbn [negb]. cbn [isResizingY set_drag]. rewrite Hr.
  unfold rangeAround, sameViewport, draw. cbn. auto.
Qed.

Lemma moves_resizing (moves : list MouseEvent) (st : View) :
  isDragging st = true -> isResizingY st = true ->
  let st' :=
    fold_left (fun s ev => handleMouseMove exp width height data ev s)
              moves st in
  isResizingY st' = true /\ autoY st' = autoY st /\ sameViewport st st'.
Proof.
  revert st. induction moves as [| ev moves IH]; intros st Hd Hr.
  - cbn. unfold sameViewport. auto.
  - cbn [fold_left].
    destruct (handleMouseMove_resizing ev st Hd Hr)
      as (Hd' & Hr' & Ha & Hs & Hv).
    destruct (IH _ Hd' Hr') as (Hr'' & Ha' & Hs' & Hv').
    unfold sameViewport. repeat split; congruence.
Qed.

End ResizeDrag.

Lemma handleMouseUp_keeps (st : View) :
  autoY (handleMouseUp st) = autoY st /\ sameViewport st (handleMouseUp st).
Proof. unfold sameViewport. cbn. auto. Qed.

(** C6: the wheel with the secondary modifier (alt), and a pointer drag
    that starts in the right price-axis gutter and so runs in the resize
    mode, switch auto-Y off and leave [startIndex] and [visibleCount] as
    they were: after the wheel event, after every move of the drag, and
    after its release. *)
Theorem vertical_gestures_keep_viewport (exp : float -> float)
    (width height : Z) (data : list Kline) (st : View) :
  (forall ev : WheelEvent,
      altKey ev = true ->
      let st' := handleWheel width height data ev st in
      autoY st' = false /\ sameViewport st st')
  /\ (forall (rectLeft rectTop : Z) (down : MouseEvent)
             (moves : list MouseEvent),
         width - PADDING_RIGHT <= clientX down - rectLeft ->
         viewData data st <> [] ->
         let st' :=
           dragGesture exp width height data rectLeft rectTop down moves st in
         isResizingY st' = true
         /\ autoY st' = false /\ sameViewport st st'
         /\ autoY (handleMouseUp st') = false
         /\ sameViewport st (handleMouseUp st')).
Proof.
  split.
  - intros ev Halt. cbn zeta. now apply handleWheel_alt.
  - intros rectLeft rectTop down moves Hx Hvd. cbn zeta. unfold dragGesture.
    destruct (handleMouseDown_gutter width height data rectLeft rectTop
                down st Hx Hvd) as (Hd & Hr & Ha).
    destruct (handleMouseDown_viewport width height data rectLeft rectTop
                down st) as (Hs & Hv).
    destruct (moves_resizing exp width height data moves _ Hd Hr)
      as (Hr' & Ha' & Hs' & Hv').
    set (st' := fold_left _ moves _) in *.
    destruct (handleMouseUp_keeps st') as (Ha'' & Hs'' & Hv'').
    unfold sameViewport. repeat split; congruence.
Qed.

Lemma vertical_gestures_keep_viewport_witness :
  autoY (handleWheel 900 480 (sampleBars 100 30)
           (mkWheelEvent (Some 300) (Some 200) PrimFloat.one true false false)
           (sampleView 5 20)) = false
  /\ startIndex
       (dragGesture (fun x => x) 900 480 (sampleBars 100 30) 0 0
          (mkMouseEvent 870 200)
          [mkMouseEvent 860 230; mkMouseEvent 500 260]
          (sampleView 5 20)) = 5
  /\ startIndex
       (dragGesture (fun x => x) 900 480 (sampleBars 100 30) 0 0
          (mkMouseEvent 700 200)
          [mkMouseEvent 860 230; mkMouseEvent 500 260]
          (sampleView 5 20)) = 10.
Proof.
  destruct (vertical_gestures_keep_viewport (fun x => x) 900 480
              (sampleBars 100 30) (sampleView 5 20)) as [Hwheel Hdrag].
  split; [| split].
  - apply (Hwheel (mkWheelEvent (Some 300) (Some 200) PrimFloat.one
                                true false false)).
    reflexivity.
  - assert (Hx : 900 - PADDING_RIGHT <= clientX (mkMouseEvent 870 200) - 0)
      by (vm_compute; discriminate).
    assert (Hvd : viewData (sampleBars 100 30) (sampleView 5 20) <> [])
      by (vm_compute; discriminate).
    destruct (Hdrag 0 0 (mkMouseEvent 870 200)
                [mkMouseEvent 860 230; mkMouseEvent 500 260] Hx Hvd)
      as (_ & _ & Hsame & _).
    exact (proj1 Hsame).
  - vm_compute. reflexivity.
Defined.

(** ** One-second aggregation *)

Lemma mapGet_mapSet {V : Type} (m : NumMap V) (key s : Z) (v : V) :
  mapGet (mapSet m key v) s = if key =? s then Some v else mapGet m s.
Proof.
  induction m as [| [k w] m IH]; cbn.
  - reflexivity.
  - destruct (k =? key) eqn:E; cbn.
    + apply Z.eqb_eq in E. subst k. now destruct (key =? s).
    + rewrite IH. destruct (key =? s) eqn:E'; [| reflexivity].
      apply Z.eqb_eq in E'. subst s. now rewrite E.
Qed.

Lemma mapKeys_mapGet {V : Type} (m : NumMap V) (s : Z) :
  In s (mapKeys m) -> exists v, mapGet m s = Some v.
Proof.
  induction m as [| [k w] m IH]; cbn; [tauto |].
  intros [-> | H].
  - rewrite Z.eqb_refl. eauto.
  - destruct (k =? s); eauto.
Qed.

(** After the first loop the entry of a second holds the trades of that
    second, in arrival order. *)
Lemma group_get (trades : list AggTrade) (s : Z) :
  forall m : NumMap (list AggTrade),
    mapGet
      (fold_left
         (fun bySecond t =>
            mapSet bySecond (secondOf t)
                   (JS.nullish (mapGet bySecond (secondOf t)) [] ++ [t]))
         trades m) s
    = match filter (fun t => secondOf t =? s) trades with
      | [] => mapGet m s
      | ts => Some (JS.nullish (mapGet m s) [] ++ ts)
      end.
Proof.
  induction trades as [| t trades IH]; intros m; cbn [fold_left filter].
  - reflexivity.
  - rewrite IH, mapGet_mapSet.
    destruct (secondOf t =? s) eqn:E.
    + apply Z.eqb_eq in E. subst s. cbn [JS.nullish].
      destruct (filter (fun t0 => secondOf t0 =? secondOf t) trades);
        [reflexivity | now rewrite <- app_assoc].
    + reflexivity.
Qed.

Lemma groupBySecond_get (trades : list AggTrade) (s : Z) :
  mapGet (groupBySecond trades) s
  = match filter (fun t => secondOf t =? s) trades with
    | [] => None
    | ts => Some ts
    end.
Proof.
  unfold groupBySecond. rewrite group_get. reflexivity.
Qed.

Lemma insertBy_In {A : Type} (key : A -> Z) (x y : A) (l : list A) :
  In x (insertBy key y l) -> x = y \/ In x l.
Proof.
  induction l as [| z l IH]; cbn.
  - intros [<- | []]. now left.
  - destruct (key y <=? key z); cbn.
    + intros [<- | H]; auto.
    + intros [<- | H]; auto. destruct (IH H); auto.
Qed.

Lemma sortBy_In {A : Type} (key : A -> Z) (x : A) (l : list A) :
  In x (sortBy key l) -> In x l.
Proof.
  induction l as [| y l IH]; [cbn; tauto |].
  change (sortBy key (y :: l)) with (insertBy key y (sortBy key l)).
  intros H. destruct (insertBy_In _ _ _ _ H) as [-> | H'];
    [now left | right; auto].
Qed.

Lemma insertBy_length {A : Type} (key : A -> Z) (x : A) (l : list A) :
  length (insertBy key x l) = S (length l).
Proof.
  induction l as [| y l IH]; cbn; [reflexivity |].
  destruct (key x <=? key y); cbn; [reflexivity | now rewrite IH].
Qed.

Lemma sortBy_length {A : Type} (key : A -> Z) (l : list A) :
  length (sortBy key l) = length l.
Proof.
  induction l as [| y l IH]; [reflexivity |].
  change (sortBy key (y :: l)) with (insertBy key y (sortBy key l)).
  rewrite insertBy_length, IH. reflexivity.
Qed.

Lemma klineOfSecond_fields (s : Z) (arr : list AggTrade)
    (prevClose : option float) (k : Kline) :
  klineOfSecond s arr prevClose = Ok k ->
  exists first,
    hd_error arr = Some first
    /\ openTime k = s
    /\ open k = JS.nullish prevClose (price first)
    /\ close k = price (List.last arr first)
    /\ high k = JS.maxOf (map price arr)
    /\ low k = JS.minOf (map price arr)
    /\ numberOfTrades k = len arr.
Proof.
  destruct arr as [| first arr]; cbn [klineOfSecond]; [discriminate |].
  intros [= <-]. exists first. cbn. repeat split; reflexivity.
Qed.

(** The second loop: the bars carry the seconds in order, every bar opens
    at the close before it, and the first one at the close handed in, or
    at its first trade when there is none. *)
Lemma klinesLoop_chain (m : NumMap (list AggTrade)) :
  forall (seconds : list Z) (prevClose : option float) (klines : list Kline),
    klinesLoop m seconds prevClose = Ok klines ->
    map openTime klines = seconds
    /\ (forall k, hd_error klines = Some k ->
          exists arr first,
            mapGet m (openTime k) = Some arr
            /\ hd_error (sortBy timestamp arr) = Some first
            /\ open k = JS.nullish prevClose (price first))
    /\ (forall i prev k,
          nth_error klines i = Some prev ->
          nth_error klines (S i) = Some k ->
          open k = close prev).
Proof.
  induction seconds as [| s seconds IH]; intros prevClose klines;
    cbn [klinesLoop].
  - intros [= <-]. split; [reflexivity |].
    split; [discriminate | intros [| i]; discriminate].
  - destruct (mapGet m s) as [arr |] eqn:Eg; [| discriminate].
    destruct (klineOfSecond s (sortBy timestamp arr) prevClose)
      as [k0 | |] eqn:Ek; cbn [bind]; try discriminate.
    destruct (klinesLoop m seconds (Some (close k0)))
      as [rest | |] eqn:Er; cbn [bind]; try discriminate.
    intros [= <-].
    destruct (klineOfSecond_fields _ _ _ _ Ek)
      as (first & Hhd & Ht & Hopen & _).
    destruct (IH _ _ Er) as (Hkeys & Hfirst & Hchain).
    split; [cbn; now rewrite Ht, Hkeys |]. split.
    + intros k [= <-]. exists arr, first. now rewrite Ht.
    + intros [| i] prev k; cbn [nth_error].
      * intros [= <-] Hk.
        destruct (Hfirst k) as (arr' & first' & _ & _ & Ho).
        { now destruct rest; [discriminate | injection Hk as ->]. }
        exact Ho.
      * apply Hchain.
Qed.

(** The second loop returns when every second has a non-empty entry. *)
Lemma klinesLoop_returns (m : NumMap (list AggTrade)) :
  forall (seconds : list Z) (prevClose : option float),
    (forall s, In s seconds ->
       exists arr, mapGet m s = Some arr /\ arr <> []) ->
    exists klines, klinesLoop m seconds prevClose = Ok klines.
Proof.
  induction seconds as [| s seconds IH]; intros prevClose Hall;
    cbn [klinesLoop]; [eauto |].
  destruct (Hall s (or_introl eq_refl)) as (arr & -> & Hne).
  assert (Hs : exists k, klineOfSecond s (sortBy timestamp arr) prevClose
                         = Ok k).
  { destruct (sortBy timestamp arr) as [| first sorted] eqn:E.
    - apply (f_equal (@length _)) in E. rewrite sortBy_length in E.
      destruct arr; [congruence | discriminate].
    - cbn. eauto. }
  destruct Hs as [k ->]. cbn [bind].
  destruct (IH (Some (close k))) as [rest ->].
  { intros s' Hs'. apply Hall. now right. }
  cbn. eauto.
Qed.

Lemma aggregate_returns (trades : list AggTrade) :
  exists klines, aggregateToOneSecondKlines trades = Ok klines.
Proof.
  unfold aggregateToOneSecondKlines.
  destruct (len trades =? 0); [eauto |].
  apply klinesLoop_returns. intros s Hs.
  apply sortBy_In, mapKeys_mapGet in Hs. destruct Hs as [arr Harr].
  exists arr. split; [exact Harr |].
  rewrite groupBySecond_get in Harr.
  destruct (filter (fun t => secondOf t =? s) trades); congruence.
Qed.

(** C7: the trades at 1000, 1500, 1999 ms with prices 10, 11, 9 and
    quantities 1, 2, 3 give exactly one bar with openTime 1000, high 11,
    low 9, close 9, volume 6 and three trades (it opens at 10); and for
    every list of trades the aggregation returns bars of which the first
    opens at the price of the first trade of its second and every later
    one at the close of the bar before it. *)
Theorem aggregate_one_second :
  (forall (i1 i2 i3 : Z) (m1 m2 m3 : bool),
      aggregateToOneSecondKlines
        [mkAggTrade i1 10 1 1000 m1; mkAggTrade i2 11 2 1500 m2;
         mkAggTrade i3 9 3 1999 m3]
      = Ok [mkKline 1000 10 11 9 9 6 1999 0 3 0 0 (Some true)])
  /\ (forall trades : list AggTrade,
         exists klines,
           aggregateToOneSecondKlines trades = Ok klines
           /\ (forall k, hd_error klines = Some k ->
                 exists first,
                   hd_error (tradesOfSecond trades (openTime k)) = Some first
                   /\ open k = price first)
           /\ (forall i prev k,
                 nth_error klines i = Some prev ->
                 nth_error klines (S i) = Some k ->
                 open k = close prev)).
Proof.
  split.
  - intros. vm_compute. reflexivity.
  - intros trades. destruct (aggregate_returns trades) as [klines Hrun].
    exists klines. split; [exact Hrun |].
    unfold aggregateToOneSecondKlines in Hrun.
    destruct (len trades =? 0).
    + injection Hrun as <-.
      split; [discriminate | intros [| i]; discriminate].
    + destruct (klinesLoop_chain _ _ _ _ Hrun) as (_ & Hfirst & Hchain).
      split; [| exact Hchain].
      intros k Hk. destruct (Hfirst k Hk) as (arr & first & Hget & Hhd & Ho).
      exists first. split; [| exact Ho].
      rewrite groupBySecond_get in Hget. unfold tradesOfSecond.
      destruct (filter (fun t => secondOf t =? openTime k) trades);
        [discriminate | now injection Hget as <-].
Qed.

Lemma aggregate_one_second_witness :
  exists k0 k1,
    aggregateToOneSecondKlines
      [mkAggTrade 1 10 1 1000 false; mkAggTrade 2 11 2 1500 true;
       mkAggTrade 3 12 1 2100 false; mkAggTrade 4 8 5 2900 true]
    = Ok [k0; k1]
    /\ open k0 = 10%float /\ close k0 = 11%float /\ open k1 = close k0.
Proof.
  destruct (proj2 aggregate_one_second
              [mkAggTrade 1 10 1 1000 false; mkAggTrade 2 11 2 1500 true;
               mkAggTrade 3 12 1 2100 false; mkAggTrade 4 8 5 2900 true])
    as (klines & Hrun & _ & Hchain).
  pose (k0 := mkKline 1000 10 11 10 11 3 1999 0 2 0 0 (Some true)).
  pose (k1 := mkKline 2000 11 12 8 8 6 2999 0 2 0 0 (Some true)).
  assert (Hk : klines = [k0; k1]).
  { vm_compute in Hrun. injection Hrun as <-. reflexivity. }
  exists k0, k1. rewrite Hk in Hrun, Hchain.
  split; [exact Hrun |]. split; [reflexivity |]. split; [reflexivity |].
  apply (Hchain 0%nat k0 k1); reflexivity.
Defined.

(** ** Horizontal zoom *)





(** *** Rounding to a double

    The product and the quotient of two doubles are the exact product and
    quotient rounded to the format.  The lemmas below bound that rounding
    from the definition of the format's rounding, through the shift
    record that it keeps. *)












(** *** Digits and validity *)





(** *** Multiplication *)




(** *** Division *)




(** *** Integers as doubles *)





(** *** [Math.round] of a double *)






(** *** The zoom *)







(** * Further properties *)

(** ** The binary searches on an ascending sequence *)

Lemma ascending_cons (x : Kline) (l : list Kline) :
  ascending (x :: l) = true ->
  ascending l = true /\ forall k, In k l -> openTime x < openTime k.
Proof.
  revert x. induction l as [| y l IH]; intros x H.
  - split; [reflexivity | intros k []].
  - change (ascending (x :: y :: l))
      with ((openTime x <? openTime y) && ascending (y :: l)) in H.
    apply andb_true_iff in H. destruct H as [Hxy Hl].
    apply Z.ltb_lt in Hxy. split; [exact Hl |].
    destruct (IH y Hl) as [_ Hy].
    intros k [<- | Hk]; [exact Hxy |]. specialize (Hy k Hk). lia.
Qed.

(** On an ascending sequence a test that holds below a threshold holds
    exactly on a prefix, whose length is the number of bars it holds
    for. *)
Lemma threshold_prefix (g : Z -> bool) (l : list Kline) :
  (forall a b, a <= b -> g b = true -> g a = true) ->
  ascending l = true ->
  forall (i : nat) (k : Kline),
    nth_error l i = Some k ->
    (g (openTime k) = true
     <-> (i < length (filter (fun k => g (openTime k)) l))%nat).
Proof.
  intros Hg. induction l as [| x l IH]; intros Hasc i k Hi.
  - destruct i; discriminate.
  - destruct (ascending_cons x l Hasc) as [Hl Hx]. cbn [filter].
    destruct (g (openTime x)) eqn:Ex.
    + destruct i as [| i]; cbn [nth_error] in Hi.
      * injection Hi as <-. cbn [length]. split; [lia | intros _; exact Ex].
      * rewrite (IH Hl i k Hi). cbn [length]. lia.
    + assert (Hnone : forall k', In k' l -> g (openTime k') = false).
      { intros k' Hk'. destruct (g (openTime k')) eqn:E; [| reflexivity].
        rewrite (Hg (openTime x) (openTime k')) in Ex;
          [discriminate | specialize (Hx k' Hk'); lia | exact E]. }
      assert (Hf : filter (fun k0 => g (openTime k0)) l = []).
      { clear -Hnone. induction l as [| y l IHl]; [reflexivity |].
        cbn [filter]. rewrite (Hnone y) by now left.
        apply IHl. intros k' Hk'. apply Hnone. now right. }
      rewrite Hf. cbn [length]. split; [| lia]. intros Hk.
      destruct i as [| i]; cbn [nth_error] in Hi.
      * injection Hi as <-. congruence.
      * apply nth_error_In in Hi. rewrite (Hnone k Hi) in Hk. discriminate.
Qed.

(** The search loop finds the end of the prefix on which its test
    holds. *)
Lemma searchLoop_prefix (goRight : Z -> bool) (data : list Kline) (p : Z) :
  len data <= 2 ^ 30 ->
  (forall i k, JS.index data i = Some k ->
               (goRight (openTime k) = true <-> i < p)) ->
  forall (fuel : nat) (lo hi : Z),
    0 <= lo -> hi < len data -> lo <= p <= hi + 1 ->
    (Z.to_nat (hi - lo + 1) < fuel)%nat ->
    searchLoop fuel goRight data lo hi = Ok p.
Proof.
  intros HL Hp. induction fuel as [| fuel IH]; intros lo hi Hlo Hhi Hb Hf.
  - lia.
  - cbn [searchLoop]. destruct (lo <=? hi) eqn:E.
    + apply Z.leb_le in E. rewrite sar_half by lia.
      assert (Hmid : lo <= (lo + hi) / 2 <= hi).
      { split; [apply Z.div_le_lower_bound | apply Z.div_le_upper_bound];
          lia. }
      destruct (index_in_range data ((lo + hi) / 2)) as [k Hk]; [lia |].
      rewrite Hk. pose proof (Hp _ _ Hk) as Hiff.
      destruct (goRight (openTime k)).
      * assert ((lo + hi) / 2 < p) by now apply Hiff.
        apply IH; lia.
      * assert (~ (lo + hi) / 2 < p) by (intros H; apply Hiff in H;
                                           discriminate).
        apply IH; lia.
    + apply Z.leb_gt in E. f_equal. lia.
Qed.

Lemma index_nth_error {A : Type} (xs : list A) (i : Z) (x : A) :
  JS.index xs i = Some x -> 0 <= i /\ nth_error xs (Z.to_nat i) = Some x.
Proof.
  unfold JS.index. destruct (i <? 0) eqn:E; [discriminate |].
  apply Z.ltb_ge in E. auto.
Qed.

Lemma len_filter_le {A : Type} (f : A -> bool) (xs : list A) :
  0 <= len (filter f xs) <= len xs.
Proof.
  unfold len. pose proof (filter_length_le f xs). lia.
Qed.

Lemma search_threshold (g : Z -> bool) (data : list Kline) :
  (forall a b, a <= b -> g b = true -> g a = true) ->
  ascending data = true -> len data <= 2 ^ 30 ->
  searchLoop (S (length data)) g data 0 (len data - 1)
  = Ok (len (filter (fun k => g (openTime k)) data)).
Proof.
  intros Hg Hasc HL.
  pose proof (len_filter_le (fun k => g (openTime k)) data) as Hp.
  apply searchLoop_prefix; unfold len in *; try lia.
  intros i k Hk. apply index_nth_error in Hk. destruct Hk as [Hi Hk].
  rewrite (threshold_prefix g data Hg Hasc _ _ Hk). lia.
Qed.

(** X1: on an ascending sequence of at most 2^30 bars the first search
    returns the index of the first bar that opens at or after [startMs]
    (the number of bars that open before it), cut to the last index when
    there is none; the second returns the index of the last bar that
    opens at or before [endMs], or 0 when there is none. *)
Theorem rangeIdx_ascending (data : list Kline) (startMs endMs : Z) :
  ascending data = true -> len data <= 2 ^ 30 ->
  rangeStartIdx data startMs
  = Ok (Z.min (barsBefore data startMs) (len data - 1))
  /\ rangeEndIdx data endMs
     = Ok (Z.min (Z.max 0 (barsUpTo data endMs - 1)) (len data - 1)).
Proof.
  intros Hasc HL. unfold rangeStartIdx, rangeEndIdx, barsBefore, barsUpTo.
  rewrite (search_threshold (fun t => t <? startMs) data), 
          (search_threshold (fun t => t <=? endMs) data); try assumption.
  - pose proof (len_filter_le (fun k => openTime k <? startMs) data).
    cbn [bind]. split; f_equal; lia.
  - intros a b Hab Hb. apply Z.leb_le in Hb. apply Z.leb_le. lia.
  - intros a b Hab Hb. apply Z.ltb_lt in Hb. apply Z.ltb_lt. lia.
Qed.

Lemma rangeIdx_ascending_witness :
  rangeStartIdx (sampleBars 100 40) 105 = Ok 5
  /\ rangeEndIdx (sampleBars 100 40) 130 = Ok 30.
Proof.
  assert (Hasc : ascending (sampleBars 100 40) = true)
    by (vm_compute; reflexivity).
  assert (HL : len (sampleBars 100 40) <= 2 ^ 30)
    by (vm_compute; discriminate).
  exact (rangeIdx_ascending (sampleBars 100 40) 105 130 Hasc HL).
Defined.

Lemma filter_window {A : Type} (f : A -> bool) (l : list A) :
  forall p q : nat,
    (forall i x, nth_error l i = Some x ->
                 (f x = true <-> (p <= i < q)%nat)) ->
    filter f l = firstn (q - p) (skipn p l).
Proof.
  induction l as [| x l IH]; intros p q H.
  - now rewrite skipn_nil, firstn_nil.
  - cbn [filter]. pose proof (H 0%nat x eq_refl) as Hx.
    destruct p as [| p].
    + destruct q as [| q].
      * destruct (f x); [lia |].
        rewrite (IH 0%nat 0%nat); [reflexivity |].
        intros i y Hy. rewrite (H (S i) y Hy). lia.
      * destruct (f x); [| lia].
        cbn [skipn Nat.sub firstn]. f_equal.
        rewrite (IH 0%nat q); [now rewrite Nat.sub_0_r |].
        intros i y Hy. rewrite (H (S i) y Hy). lia.
    + destruct (f x); [lia |].
      cbn [skipn]. rewrite (IH p (Nat.pred q)).
      * f_equal. lia.
      * intros i y Hy. rewrite (H (S i) y Hy). lia.
Qed.

Lemma slice_firstn_skipn {A : Type} (xs : list A) (a b : Z) :
  0 <= a <= b -> b <= len xs ->
  JS.slice xs a b = firstn (Z.to_nat b - Z.to_nat a) (skipn (Z.to_nat a) xs).
Proof.
  intros Ha Hb. unfold JS.slice, JS.sliceBound. fold (len xs).
  destruct (a <? 0) eqn:Ea; [apply Z.ltb_lt in Ea; lia |].
  destruct (b <? 0) eqn:Eb; [apply Z.ltb_lt in Eb; lia |].
  rewrite !Z.min_l by lia. f_equal. lia.
Qed.

Lemma slice_In {A : Type} (xs : list A) (a b : Z) (i : nat) (x : A) :
  0 <= a <= Z.of_nat i -> Z.of_nat i < b <= len xs ->
  nth_error xs i = Some x -> In x (JS.slice xs a b).
Proof.
  intros Ha Hb Hx. rewrite slice_firstn_skipn by lia.
  apply (nth_error_In _ (i - Z.to_nat a)).
  rewrite nth_error_firstn.
  destruct (Nat.ltb_spec (i - Z.to_nat a) (Z.to_nat b - Z.to_nat a));
    [| lia].
  rewrite nth_error_skipn. rewrite <- Hx. f_equal. lia.
Qed.

(** The position of a bar of an ascending sequence against the two
    thresholds of a time range. *)
Lemma ascending_position (data : list Kline) (s e : Z) (i : nat)
    (k : Kline) :
  ascending data = true -> nth_error data i = Some k ->
  (openTime k < s <-> Z.of_nat i < barsBefore data s)
  /\ (openTime k <= e <-> Z.of_nat i < barsUpTo data e).
Proof.
  intros Hasc Hk. unfold barsBefore, barsUpTo, len. split.
  - rewrite <- Z.ltb_lt.
    rewrite (threshold_prefix (fun t => t <? s) data) by
      (try eassumption; intros a b Hab Hb; apply Z.ltb_lt in Hb;
       apply Z.ltb_lt; lia).
    lia.
  - rewrite <- Z.leb_le.
    rewrite (threshold_prefix (fun t => t <=? e) data) by
      (try eassumption; intros a b Hab Hb; apply Z.leb_le in Hb;
       apply Z.leb_le; lia).
    lia.
Qed.

Lemma barsWithin_window (data : list Kline) (s e : Z) :
  ascending data = true ->
  barsWithin data s e
  = firstn (Z.to_nat (barsUpTo data e) - Z.to_nat (barsBefore data s))
           (skipn (Z.to_nat (barsBefore data s)) data).
Proof.
  intros Hasc. unfold barsWithin. apply filter_window.
  intros i k Hk.
  destruct (ascending_position data s e i k Hasc Hk) as [Hs He].
  rewrite andb_true_iff, Z.leb_le, Z.leb_le.
  pose proof (len_filter_le (fun k => openTime k <? s) data).
  pose proof (len_filter_le (fun k => openTime k <=? e) data).
  unfold barsBefore, barsUpTo in *. lia.
Qed.

Lemma barsWithin_len (data : list Kline) (s e : Z) :
  s <= e ->
  len (barsWithin data s e) = barsUpTo data e - barsBefore data s.
Proof.
  intros Hse. unfold barsWithin, barsUpTo, barsBefore, len.
  induction data as [| k data IH]; [reflexivity |].
  cbn [filter].
  destruct (s <=? openTime k) eqn:E1; destruct (openTime k <=? e) eqn:E2;
    destruct (openTime k <? s) eqn:E3; cbn [andb length];
    try apply Z.leb_le in E1; try apply Z.leb_gt in E1;
    try apply Z.leb_le in E2; try apply Z.leb_gt in E2;
    try apply Z.ltb_lt in E3; try apply Z.ltb_ge in E3; lia.
Qed.

(** The outcome of [setRangeByTime] on an ascending sequence, in terms of
    the counts [p] of bars before [startMs] and [q] of bars up to
    [endMs]. *)
Lemma setRangeByTime_ascending (data : list Kline) (startMs endMs : Z)
    (st : View) :
  ascending data = true -> len data <= 2 ^ 30 ->
  data <> [] -> startMs < endMs ->
  let startIdx := Z.min (barsBefore data startMs) (len data - 1) in
  let endIdx := Z.max 0 (barsUpTo data endMs - 1) in
  let count := Z.max 10 (endIdx - startIdx + 1) in
  setRangeByTime data startMs endMs st
  = Ok (set_viewport st
          (Z.max 0 (Z.min startIdx (Z.max 0 (len data - count)))) count).
Proof.
  intros Hasc HL Hne Hse. cbn zeta. unfold setRangeByTime.
  destruct (len_nonempty data Hne) as [-> Hn].
  replace (endMs <=? startMs) with false by (symmetry; apply Z.leb_gt; lia).
  unfold rangeStartIdx, rangeEndIdx.
  rewrite (search_threshold (fun t => t <? startMs) data),
          (search_threshold (fun t => t <=? endMs) data); try assumption;
    [| intros a b Hab Hb; apply Z.leb_le in Hb; apply Z.leb_le; lia
     | intros a b Hab Hb; apply Z.ltb_lt in Hb; apply Z.ltb_lt; lia].
  cbn [bind].
  fold (barsBefore data startMs). fold (barsUpTo data endMs).
  pose proof (len_filter_le (fun k => openTime k <? startMs) data) as Hp.
  fold (barsBefore data startMs) in Hp.
  replace (Z.min (Z.max 0 (barsBefore data startMs)) (len data - 1))
    with (Z.min (barsBefore data startMs) (len data - 1)) by lia.
  pose proof (len_filter_le (fun k => openTime k <=? endMs) data) as Hq.
  fold (barsUpTo data endMs) in Hq.
  replace (Z.min (Z.max 0 (barsUpTo data endMs - 1)) (len data - 1))
    with (Z.max 0 (barsUpTo data endMs - 1)) by lia.
  reflexivity.
Qed.

(** X2: on an ascending sequence (at most 2^30 bars) and a range
    [startMs < endMs] that covers at least ten bars, [setRangeByTime]
    returns with the viewport set to exactly the covered bars: it starts
    at the first bar that opens at or after [startMs], counts the bars
    that open within the range, and the slice that [draw] paints is
    those bars. *)
Theorem setRangeByTime_covers (data : list Kline) (startMs endMs : Z)
    (st : View) :
  ascending data = true -> len data <= 2 ^ 30 ->
  startMs < endMs ->
  10 <= len (barsWithin data startMs endMs) ->
  exists st',
    setRangeByTime data startMs endMs st = Ok st'
    /\ startIndex st' = barsBefore data startMs
    /\ visibleCount st' = len (barsWithin data startMs endMs)
    /\ viewData data st' = barsWithin data startMs endMs.
Proof.
  intros Hasc HL Hse Hn.
  pose proof (barsWithin_len data startMs endMs ltac:(lia)) as Hlen.
  pose proof (len_filter_le (fun k => openTime k <? startMs) data) as Hp.
  pose proof (len_filter_le (fun k => openTime k <=? endMs) data) as Hq.
  fold (barsBefore data startMs) in Hp. fold (barsUpTo data endMs) in Hq.
  assert (Hne : data <> []).
  { intros ->. cbn in Hn. lia. }
  eexists. split; [apply setRangeByTime_ascending; assumption |].
  cbn zeta. rewrite Hlen. rewrite Hlen in Hn.
  rewrite (barsWithin_window data startMs endMs Hasc).
  set (p := barsBefore data startMs) in *.
  set (q := barsUpTo data endMs) in *.
  set (L := len data) in *.
  replace (Z.min p (L - 1)) with p by lia.
  replace (Z.max 0 (q - 1)) with (q - 1) by lia.
  replace (Z.max 10 (q - 1 - p + 1)) with (q - p) by lia.
  replace (Z.max 0 (Z.min p (Z.max 0 (L - (q - p))))) with p by lia.
  rewrite set_viewport_start, set_viewport_visible.
  split; [reflexivity |]. split; [reflexivity |].
  unfold viewData. rewrite set_viewport_start, set_viewport_visible.
  fold L.
  replace (Z.max 10 (Z.min L (q - p))) with (q - p) by lia.
  replace (Z.min L (p + (q - p))) with q by lia.
  rewrite slice_firstn_skipn by (fold L; lia).
  reflexivity.
Qed.

Lemma setRangeByTime_covers_witness :
  exists st',
    setRangeByTime (sampleBars 100 40) 105 130 (sampleView 0 20) = Ok st'
    /\ startIndex st' = 5 /\ visibleCount st' = 26
    /\ viewData (sampleBars 100 40) st' = sampleBars 105 26.
Proof.
  assert (Hasc : ascending (sampleBars 100 40) = true)
    by (vm_compute; reflexivity).
  assert (HL : len (sampleBars 100 40) <= 2 ^ 30)
    by (vm_compute; discriminate).
  assert (Hse : 105 < 130) by lia.
  assert (Hn : 10 <= len (barsWithin (sampleBars 100 40) 105 130))
    by (vm_compute; discriminate).
  destruct (setRangeByTime_covers (sampleBars 100 40) 105 130
              (sampleView 0 20) Hasc HL Hse Hn)
    as (st' & Hrun & Hs & Hv & Hvd).
  exists st'. split; [exact Hrun |].
  split; [rewrite Hs; vm_compute; reflexivity |].
  split; [rewrite Hv; vm_compute; reflexivity |].
  rewrite Hvd. vm_compute. reflexivity.
Defined.

(** X3: on an ascending sequence (at most 2^30 bars) and a range
    [startMs < endMs], [setRangeByTime] returns, and every bar that opens
    within the range is in the slice that [draw] paints afterwards, also
    when the count is raised to ten or the start is cut to the
    sequence. *)
Theorem setRangeByTime_shows_range (data : list Kline) (startMs endMs : Z)
    (st : View) :
  ascending data = true -> len data <= 2 ^ 30 ->
  startMs < endMs ->
  exists st',
    setRangeByTime data startMs endMs st = Ok st'
    /\ forall k, In k (barsWithin data startMs endMs) ->
                 In k (viewData data st').
Proof.
  intros Hasc HL Hse.
  destruct data as [| k0 data0] eqn:Edata.
  { exists st. split; [reflexivity | intros k []]. }
  rewrite <- Edata in *. assert (Hne : data <> []) by (subst; discriminate).
  clear Edata.
  eexists. split; [apply setRangeByTime_ascending; assumption |].
  intros k Hk. apply filter_In in Hk. destruct Hk as [Hin Hk].
  apply andb_true_iff in Hk. destruct Hk as [Hs He].
  apply Z.leb_le in Hs, He.
  apply In_nth_error in Hin. destruct Hin as [i Hi].
  destruct (ascending_position data startMs endMs i k Hasc Hi) as [Ps Pe].
  assert (Hi' : (i < length data)%nat)
    by (apply nth_error_Some; congruence).
  pose proof (len_filter_le (fun k => openTime k <? startMs) data) as Hp.
  pose proof (len_filter_le (fun k => openTime k <=? endMs) data) as Hq.
  fold (barsBefore data startMs) in Hp. fold (barsUpTo data endMs) in Hq.
  cbn zeta. unfold viewData.
  rewrite set_viewport_start, set_viewport_visible.
  apply (slice_In data _ _ i k); unfold len in *; try assumption; lia.
Qed.

Lemma setRangeByTime_shows_range_witness :
  exists st',
    setRangeByTime (sampleBars 100 4) 101 102 (sampleView 0 20) = Ok st'
    /\ In (sampleBar 101 PrimFloat.one PrimFloat.one)
          (viewData (sampleBars 100 4) st').
Proof.
  assert (Hasc : ascending (sampleBars 100 4) = true)
    by (vm_compute; reflexivity).
  assert (HL : len (sampleBars 100 4) <= 2 ^ 30)
    by (vm_compute; discriminate).
  assert (Hse : 101 < 102) by lia.
  destruct (setRangeByTime_shows_range (sampleBars 100 4) 101 102
              (sampleView 0 20) Hasc HL Hse) as (st' & Hrun & Hin).
  exists st'. split; [exact Hrun |]. apply Hin.
  vm_compute. left. reflexivity.
Defined.

(** ** The viewport invariant *)

Lemma clamp_viewportOk (L : Z) (st : View) :
  viewportOk L (clampViewportLocal L st).
Proof.
  unfold viewportOk, clampViewportLocal. cbn zeta.
  rewrite set_viewport_start, set_viewport_visible. lia.
Qed.

Lemma performZoomGlobal_viewportOk (width L : Z) (scale : float)
    (anchorX : option Z) (st : View) :
  viewportOk L (performZoomGlobal width L scale anchorX st).
Proof. unfold performZoomGlobal. apply clamp_viewportOk. Qed.

Lemma setRangeByTime_viewportOk (data : list Kline) (startMs endMs : Z)
    (st : View) :
  viewportOk (len data) st ->
  viewportOk (len data) (cellsAfterSetRange data startMs endMs st).
Proof.
  intros Hok. unfold cellsAfterSetRange, setRangeByTime.
  destruct (len data =? 0); [exact Hok |].
  destruct (endMs <=? startMs); [exact Hok |].
  destruct (rangeStartIdx data startMs) as [i | |]; cbn [bind];
    try exact Hok.
  destruct (rangeEndIdx data endMs) as [j | |]; cbn [bind]; try exact Hok.
  unfold viewportOk. rewrite set_viewport_start, set_viewport_visible. lia.
Qed.

Lemma handleMouseMove_viewportOk (exp : float -> float) (width height : Z)
    (data : list Kline) (ev : MouseEvent) (st : View) :
  viewportOk (len data) st ->
  viewportOk (len data) (handleMouseMove exp width height data ev st).
Proof.
  intros Hok. unfold handleMouseMove.
  destruct (isDragging st); [| exact Hok]. cbn [negb].
  cbn [isResizingY set_drag].
  destruct (isResizingY st).
  - unfold rangeAround, draw. exact Hok.
  - unfold draw.
    match goal with
    | |- viewportOk _ (if ?c then _ else _) => destruct c
    end.
    + destruct (clientY ev - JS.orElseZ (lastMouseY st) (clientY ev) =? 0);
        exact Hok.
    + apply clamp_viewportOk.
Qed.

Lemma act_viewportOk (exp : float -> float) (width height : Z)
    (data : list Kline) (a : Action) (st : View) :
  viewportOk (len data) st ->
  viewportOk (len data) (act exp width height data a st).
Proof.
  intros Hok. destruct a; cbn [act].
  - unfold handleWheel. destruct (altKey ev).
    + unfold rangeAround, draw. exact Hok.
    + apply performZoomGlobal_viewportOk.
  - destruct (handleMouseDown_viewport width height data rectLeft rectTop
                ev st) as [Hs Hv].
    unfold viewportOk in *. rewrite Hs, Hv. exact Hok.
  - now apply handleMouseMove_viewportOk.
  - exact Hok.
  - now apply setRangeByTime_viewportOk.
  - unfold scrollToEnd, draw, viewportOk in *. cbn zeta.
    rewrite set_viewport_start, set_viewport_visible. lia.
  - apply performZoomGlobal_viewportOk.
  - apply performZoomGlobal_viewportOk.
  - unfold resetView, draw, viewportOk.
    cbn [visibleCount startIndex set_yrange set_autoY set_viewport]. lia.
  - exact Hok.
Qed.

Lemma viewData_len (data : list Kline) (st : View) :
  0 <= startIndex st <= len data ->
  len (viewData data st)
  = Z.min (len data)
          (startIndex st + Z.max 10 (Z.min (len data) (visibleCount st)))
    - startIndex st.
Proof.
  intros Hs. unfold viewData.
  rewrite slice_firstn_skipn by lia.
  unfold len in *. rewrite length_firstn, length_skipn. lia.
Qed.

(** X4: the viewport invariant.  The mount effect establishes
    [10 <= visibleCount] and [0 <= startIndex <= max(0, L - visibleCount)]
    from any cells; every gesture and every command keeps it; and under
    it the slice that [draw] paints is never empty over a non-empty
    sequence. *)
Theorem viewport_invariant (exp : float -> float) (width height : Z)
    (data : list Kline) :
  (forall st, viewportOk (len data) (mountEffect data st))
  /\ (forall (actions : list Action) (st : View),
         viewportOk (len data) st ->
         viewportOk (len data) (actAll exp width height data actions st))
  /\ (forall st, viewportOk (len data) st -> data <> [] ->
                 viewData data st <> []).
Proof.
  split; [intros st; apply clamp_viewportOk |]. split.
  - induction actions as [| a actions IH]; intros st Hok; [exact Hok |].
    apply IH. now apply act_viewportOk.
  - intros st [Hv Hs] Hne Hnil.
    destruct (len_nonempty data Hne) as [_ Hn].
    pose proof (viewData_len data st ltac:(lia)) as Hlen.
    rewrite Hnil in Hlen. change (len (@nil Kline)) with 0 in Hlen. lia.
Qed.

Lemma viewport_invariant_witness :
  viewportOk 30
    (actAll (fun x => x) 900 480 (sampleBars 100 30)
       [Wheel (mkWheelEvent (Some 300) (Some 200) PrimFloat.one
                            false true false);
        MouseDown 0 0 (mkMouseEvent 400 200);
        MouseMove (mkMouseEvent 900 260); MouseUp; ZoomIn;
        SetRangeByTime 110 112; ScrollToEnd]
       (mountEffect (sampleBars 100 30) (initialView 30)))
  /\ viewData (sampleBars 100 30)
       (actAll (fun x => x) 900 480 (sampleBars 100 30)
          [SetRangeByTime 110 112]
          (mountEffect (sampleBars 100 30) (initialView 30))) <> [].
Proof.
  destruct (viewport_invariant (fun x => x) 900 480 (sampleBars 100 30))
    as (Hmount & Hacts & Hview).
  split.
  - apply (Hacts _ _ (Hmount (initialView 30))).
  - apply Hview; [| vm_compute; discriminate].
    apply (Hacts _ _ (Hmount (initialView 30))).
Defined.

(** ** Follow-live, the commands and the zoom buttons *)

(** X5: the follow-live rule.  When the sequence changes its length, a
    view that follows, or whose right edge is at most one bar before the
    new end, is snapped to the latest bars ([startIndex] becomes
    [max(0, L - visibleCount)]); a view that does not follow and whose
    right edge is further back is left where it is. *)
Theorem follow_live_rule (followLive : bool) (data : list Kline)
    (st : View) :
  let st' := dataLengthChanged followLive data st in
  (followLive = true
   \/ (0 <= startIndex st
       /\ len data - 1 <= startIndex st + visibleCount st) ->
   startIndex st' = Z.max 0 (len data - visibleCount st')
   /\ len data <= startIndex st' + visibleCount st')
  /\ (followLive = false -> 10 <= visibleCount st -> 0 <= startIndex st ->
      startIndex st + visibleCount st < len data - 1 ->
      sameViewport st st').
Proof.
  cbn zeta. unfold dataLengthChanged, mountEffect, draw, followLiveEffect.
  cbn zeta. split.
  - intros Hsnap.
    assert (Hc : (followLive
                  || (Z.max (visibleCount st) (len data - 1)
                      <=? startIndex st + visibleCount st)) = true).
    { destruct Hsnap as [-> | [Hs He]]; [reflexivity |].
      apply orb_true_iff. right. apply Z.leb_le. lia. }
    rewrite Hc. unfold clampViewportLocal. cbn zeta.
    rewrite !set_viewport_start, !set_viewport_visible. lia.
  - intros -> Hv Hs He. cbn [orb].
    replace (Z.max (visibleCount st) (len data - 1)
             <=? startIndex st + visibleCount st) with false
      by (symmetry; apply Z.leb_gt; lia).
    unfold sameViewport, clampViewportLocal. cbn zeta.
    rewrite !set_viewport_start, !set_viewport_visible. lia.
Qed.

Lemma follow_live_rule_witness :
  startIndex (dataLengthChanged false (sampleBars 100 31) (sampleView 10 20))
  = 11
  /\ startIndex (dataLengthChanged false (sampleBars 100 33)
                                   (sampleView 10 20)) = 10.
Proof.
  destruct (follow_live_rule false (sampleBars 100 31) (sampleView 10 20))
    as [Hsnap _].
  destruct (follow_live_rule false (sampleBars 100 33) (sampleView 10 20))
    as [_ Hstay].
  split.
  - destruct Hsnap as [Hs _]; [right; vm_compute; split; discriminate |].
    rewrite Hs. vm_compute. reflexivity.
  - assert (H1 : 10 <= visibleCount (sampleView 10 20))
      by (vm_compute; discriminate).
    assert (H2 : 0 <= startIndex (sampleView 10 20))
      by (vm_compute; discriminate).
    assert (H3 : startIndex (sampleView 10 20)
                 + visibleCount (sampleView 10 20)
                 < len (sampleBars 100 33) - 1)
      by (vm_compute; reflexivity).
    exact (proj1 (Hstay eq_refl H1 H2 H3)).
Defined.

Lemma slice_to_end {A : Type} (xs : list A) (a : Z) :
  0 <= a <= len xs -> JS.slice xs a (len xs) = skipn (Z.to_nat a) xs.
Proof.
  intros Ha. rewrite slice_firstn_skipn by lia.
  apply firstn_all2. rewrite length_skipn. unfold len. lia.
Qed.

(** X6: [resetView] and [scrollToEnd] show the latest bars.  After
    [resetView] the slice that [draw] paints is the last 120 bars (all of
    them when there are fewer) and the Y-range is automatic; after
    [scrollToEnd], with a count of at least ten, it is the last
    [visibleCount] bars. *)
Theorem commands_show_latest (data : list Kline) (st : View) :
  (viewData data (resetView data st) = skipn (length data - 120) data
   /\ autoY (resetView data st) = true
   /\ yMin (resetView data st) = None /\ yMax (resetView data st) = None)
  /\ (10 <= visibleCount st ->
      viewData data (scrollToEnd data st)
      = skipn (length data - Z.to_nat (visibleCount st)) data).
Proof.
  split.
  - split; [| now cbn]. unfold viewData, resetView, draw.
    cbn [visibleCount startIndex set_yrange set_autoY set_viewport].
    set (L := len data).
    replace (Z.min L (Z.max 0 (L - Z.min 120 (Z.max 20 L))
                      + Z.max 10 (Z.min L (Z.min 120 (Z.max 20 L)))))
      with L by (unfold L, len; lia).
    unfold L. rewrite slice_to_end by (unfold len; lia).
    f_equal. unfold len. lia.
  - intros Hv. unfold viewData, scrollToEnd, draw. cbn zeta.
    rewrite set_viewport_start, set_viewport_visible.
    set (L := len data). set (v := visibleCount st) in *.
    replace (Z.min L (Z.max 0 (L - v) + Z.max 10 (Z.min L v)))
      with L by (unfold L, len; lia).
    unfold L. rewrite slice_to_end by (unfold len; lia).
    f_equal. unfold len. lia.
Qed.

Lemma commands_show_latest_witness :
  viewData (sampleBars 0 130) (resetView (sampleBars 0 130) (sampleView 3 15))
  = sampleBars 10 120
  /\ viewData (sampleBars 0 130)
              (scrollToEnd (sampleBars 0 130) (sampleView 3 15))
     = sampleBars 115 15.
Proof.
  destruct (commands_show_latest (sampleBars 0 130) (sampleView 3 15))
    as [[Hreset _] Hscroll].
  split.
  - rewrite Hreset. vm_compute. reflexivity.
  - rewrite Hscroll by (vm_compute; discriminate). vm_compute. reflexivity.
Defined.

(** The two double products are checked for every count from 10 to
    5000, one by one. *)
Lemma buttonTargets_checked :
  forallb buttonTargetOk (map Z.of_nat (seq 10 4991)) = true.
Proof. vm_compute. reflexivity. Qed.

Lemma forallb_range (f : Z -> bool) (n : nat) :
  forall a : nat,
    forallb f (map Z.of_nat (seq a n)) = true ->
    forall v, Z.of_nat a <= v < Z.of_nat a + Z.of_nat n -> f v = true.
Proof.
  induction n as [| n IH]; intros a H v Hv; [lia |].
  cbn [seq map forallb] in H. apply andb_true_iff in H. destruct H as [H0 H].
  destruct (Z.eq_dec v (Z.of_nat a)) as [-> | Hne]; [exact H0 |].
  apply (IH (S a) H). lia.
Qed.

Lemma buttonTargets (v : Z) :
  10 <= v <= 5000 ->
  JS.roundF (JS.ofZ v * 0.85) < v /\ v + 1 < JS.roundF (JS.ofZ v * 1.15).
Proof.
  intros Hv.
  pose proof (forallb_range buttonTargetOk 4991 10 buttonTargets_checked v)
    as H.
  assert (E : Z.of_nat 10 + Z.of_nat 4991 = 5001) by reflexivity.
  rewrite E in H. change (Z.of_nat 10) with 10 in H.
  specialize (H ltac:(lia)). unfold buttonTargetOk in H.
  apply andb_true_iff in H.
  destruct H as [H1 H2]. apply Z.ltb_lt in H1. apply Z.ltb_lt in H2.
  split; assumption.
Qed.

Lemma performZoomGlobal_visible (width L : Z) (scale : float)
    (anchorX : option Z) (st : View) :
  visibleCount (performZoomGlobal width L scale anchorX st)
  = Z.max 10 (Z.min L (Z.max 10 (Z.min 5000 (targetVisible scale st)))).
Proof. reflexivity. Qed.

(** X7: the zoom buttons.  From a count [v] with [10 <= v <= min(L, 5000)],
    [zoomIn] gives a count in [10, v] that is smaller than [v] unless [v]
    is the minimum of 10, and [zoomOut] gives a count in [v, min(L, 5000)]
    that is larger than [v] unless [v] is that maximum. *)
Theorem zoom_buttons_monotone (width : Z) (data : list Kline) (st : View) :
  10 <= visibleCount st <= Z.min (len data) 5000 ->
  (10 <= visibleCount (zoomIn width data st) <= visibleCount st
   /\ (10 < visibleCount st ->
       visibleCount (zoomIn width data st) < visibleCount st))
  /\ (visibleCount st <= visibleCount (zoomOut width data st)
                      <= Z.min (len data) 5000
      /\ (visibleCount st < Z.min (len data) 5000 ->
          visibleCount st < visibleCount (zoomOut width data st))).
Proof.
  intros Hv. unfold zoomIn, zoomOut. rewrite !performZoomGlobal_visible.
  unfold targetVisible.
  destruct (buttonTargets (visibleCount st) ltac:(lia)) as [Hin Hout].
  lia.
Qed.

Lemma zoom_buttons_monotone_witness :
  visibleCount (zoomIn 900 (sampleBars 0 200) (sampleView 0 100)) < 100
  /\ 100 < visibleCount (zoomOut 900 (sampleBars 0 200) (sampleView 0 100)).
Proof.
  assert (Hv : 10 <= visibleCount (sampleView 0 100)
               <= Z.min (len (sampleBars 0 200)) 5000)
    by (vm_compute; split; discriminate).
  destruct (zoom_buttons_monotone 900 (sampleBars 0 200) (sampleView 0 100)
              Hv) as [[_ Hin] [_ Hout]].
  split; [apply Hin | apply Hout]; vm_compute; reflexivity.
Defined.

(** X8: what the horizontal operations never touch.  The wheel without
    the secondary modifier, [zoomIn], [zoomOut], [scrollToEnd] and
    [setRangeByTime] leave the Y-range cells ([autoY], [yMin], [yMax]) as
    they were. *)
Theorem horizontal_keeps_yrange (exp : float -> float) (width height : Z)
    (data : list Kline) (a : Action) (st : View) :
  match a with
  | Wheel ev => altKey ev = false
  | SetRangeByTime _ _ | ScrollToEnd | ZoomIn | ZoomOut => True
  | _ => False
  end ->
  sameYRange st (act exp width height data a st).
Proof.
  unfold sameYRange.
  destruct a; cbn [act]; intros Ha; try contradiction.
  - unfold handleWheel. rewrite Ha. now cbn.
  - unfold cellsAfterSetRange, setRangeByTime.
    destruct (len data =? 0); [auto |].
    destruct (endMs <=? startMs); [auto |].
    destruct (rangeStartIdx data startMs) as [i | |]; cbn [bind]; auto.
    destruct (rangeEndIdx data endMs) as [j | |]; cbn [bind]; auto.
  - now cbn.
  - now cbn.
  - now cbn.
Qed.

Lemma horizontal_keeps_yrange_witness :
  sameYRange (sampleView 0 100)
    (act (fun x => x) 900 480 (sampleBars 0 200)
         (Wheel (mkWheelEvent (Some 300) (Some 200) PrimFloat.one
                              false false true))
         (sampleView 0 100)).
Proof.
  apply (horizontal_keeps_yrange (fun x => x) 900 480 (sampleBars 0 200)
           (Wheel (mkWheelEvent (Some 300) (Some 200) PrimFloat.one
                                false false true))).
  reflexivity.
Defined.

(** ** Panning *)

(** [Math.round] of a quotient of integers, in integers. *)
Lemma round_div (a b : Z) :
  0 < b -> JS.round (inject_Z a / inject_Z b) = (2 * a + b) / (2 * b).
Proof.
  intros Hb. destruct b as [| pb | pb]; try lia.
  unfold JS.round.
  assert (E : (inject_Z a / inject_Z (Z.pos pb) + (1 # 2)
               == (2 * a + Z.pos pb) # (2 * pb))%Q).
  { rewrite <- Qmake_Qdiv. unfold Qeq, Qplus. cbn [Qnum Qden]. lia. }
  rewrite (Qfloor_comp _ _ E). reflexivity.
Qed.

Lemma candleSpan_pos (width visible : Z) : 3 <= candleSpan width visible.
Proof. unfold candleSpan, candleGap. lia. Qed.

Lemma handleMouseMove_slow (exp : float -> float) (width height : Z)
    (data : list Kline) (ev : MouseEvent) (st : View) :
  isDragging st = true -> isResizingY st = false ->
  - candleSpan width (visibleCount st) < 2 * (clientX ev - lastX st)
    <= candleSpan width (visibleCount st) ->
  let st' := handleMouseMove exp width height data ev st in
  isDragging st' = true /\ isResizingY st' = false
  /\ lastX st' = clientX ev /\ sameViewport st st'.
Proof.
  intros Hd Hr Hdx. cbn zeta. unfold handleMouseMove. rewrite Hd.
  cbn [negb]. cbn [isResizingY set_drag]. rewrite Hr.
  pose proof (candleSpan_pos width (visibleCount st)) as Hspan.
  assert (Hround :
            JS.round (inject_Z (- (clientX ev - lastX st))
                      / inject_Z (Z.max 1 (candleSpan width (visibleCount st))))
            = 0).
  { rewrite round_div by lia.
    replace (Z.max 1 (candleSpan width (visibleCount st)))
      with (candleSpan width (visibleCount st)) by lia.
    apply Z.div_small. lia. }
  unfold draw, sameViewport.
  destruct (clientY ev - JS.orElseZ (lastMouseY st) (clientY ev) =? 0);
    cbn [visibleCount startIndex set_yrange set_autoY set_drag isDragging
         isResizingY lastX];
    rewrite Hround; cbn; auto.
Qed.

(** X9: a slow drag never pans.  While the pointer is down outside the
    resize mode, a sequence of moves that each go less than half a candle
    span from the position before leaves [startIndex] and [visibleCount]
    where they were, however far the pointer travels in all: the handler
    rounds every move on its own and keeps no remainder. *)
Theorem slow_drag_never_pans (exp : float -> float) (width height : Z)
    (data : list Kline) (moves : list MouseEvent) (st : View) :
  isDragging st = true -> isResizingY st = false ->
  slowMoves (candleSpan width (visibleCount st)) (lastX st) moves ->
  sameViewport st
    (fold_left (fun s ev => handleMouseMove exp width height data ev s)
               moves st).
Proof.
  revert st. induction moves as [| ev moves IH]; intros st Hd Hr Hslow.
  - cbn. unfold sameViewport. auto.
  - cbn [fold_left]. destruct Hslow as [Hdx Hrest].
    destruct (handleMouseMove_slow exp width height data ev st Hd Hr Hdx)
      as (Hd' & Hr' & Hx & Hs & Hv).
    specialize (IH (handleMouseMove exp width height data ev st) Hd' Hr').
    rewrite Hv, Hx in IH. destruct (IH Hrest) as [Hs' Hv'].
    unfold sameViewport. split; congruence.
Qed.

Lemma slow_drag_never_pans_witness :
  startIndex
    (fold_left (fun s ev => handleMouseMove (fun x => x) 900 480
                              (sampleBars 100 60) ev s)
       [mkMouseEvent 420 200; mkMouseEvent 440 200; mkMouseEvent 460 200;
        mkMouseEvent 480 200; mkMouseEvent 500 200]
       (handleMouseDown 900 480 (sampleBars 100 60) 0 0
                        (mkMouseEvent 400 200) (sampleView 30 20))) = 30
  /\ startIndex
       (fold_left (fun s ev => handleMouseMove (fun x => x) 900 480
                                 (sampleBars 100 60) ev s)
          [mkMouseEvent 500 200]
          (handleMouseDown 900 480 (sampleBars 100 60) 0 0
                           (mkMouseEvent 400 200) (sampleView 30 20))) = 28.
Proof.
  split; [| vm_compute; reflexivity].
  refine (proj1 (slow_drag_never_pans (fun x => x) 900 480
                   (sampleBars 100 60)
                   [mkMouseEvent 420 200; mkMouseEvent 440 200;
                    mkMouseEvent 460 200; mkMouseEvent 480 200;
                    mkMouseEvent 500 200]
                   (handleMouseDown 900 480 (sampleBars 100 60) 0 0
                      (mkMouseEvent 400 200) (sampleView 30 20)) _ _ _)).
  - reflexivity.
  - reflexivity.
  - vm_compute. repeat split; discriminate.
Defined.

(** ** Candle and tick geometry *)

Lemma viewData_len_le (data : list Kline) (st : View) :
  0 <= startIndex st <= len data ->
  len (viewData data st) <= drawVisibleCount data st.
Proof.
  intros Hs. rewrite viewData_len by exact Hs. unfold drawVisibleCount. lia.
Qed.

(** X10: the candles stay inside the plot.  When the plot is at least
    three pixels wide per visible bar, the body of every candle that
    [draw] paints lies between the left padding and the right price
    gutter, and neighbouring bodies are two pixels apart. *)
Theorem candles_inside_plot (width : Z) (data : list Kline) (st : View)
    (idx : Z) :
  0 <= startIndex st <= len data ->
  3 * drawVisibleCount data st <= width - PADDING_LEFT - PADDING_RIGHT ->
  0 <= idx < len (viewData data st) ->
  PADDING_LEFT <= candleX width data st idx
  /\ candleX width data st idx + candleWidth width (drawVisibleCount data st)
     <= width - PADDING_RIGHT
  /\ candleX width data st (idx + 1)
     - (candleX width data st idx
        + candleWidth width (drawVisibleCount data st)) = candleGap.
Proof.
  intros Hs Hw Hidx.
  pose proof (viewData_len_le data st Hs) as Hn.
  unfold candleX, candleWidth, candleGap in *.
  set (V := drawVisibleCount data st) in *.
  set (W := width - PADDING_LEFT - PADDING_RIGHT) in *.
  assert (HV : 10 <= V) by (unfold V, drawVisibleCount; lia).
  assert (Hq : 3 <= W / V) by (apply Z.div_le_lower_bound; lia).
  assert (Hm : V * (W / V) <= W) by (apply Z.mul_div_le; lia).
  replace (Z.max 1 (W / V - 2)) with (W / V - 2) by lia.
  replace (width - PADDING_RIGHT) with (PADDING_LEFT + W) by (unfold W; lia).
  split; [nia |]. split; [nia | lia].
Qed.

Lemma candles_inside_plot_witness :
  PADDING_LEFT <= candleX 900 (sampleBars 100 60) (sampleView 30 20) 19
  /\ candleX 900 (sampleBars 100 60) (sampleView 30 20) 19
     + candleWidth 900 (drawVisibleCount (sampleBars 100 60)
                                         (sampleView 30 20))
     <= 900 - PADDING_RIGHT.
Proof.
  assert (Hs : 0 <= startIndex (sampleView 30 20) <= len (sampleBars 100 60))
    by (vm_compute; split; discriminate).
  assert (Hw : 3 * drawVisibleCount (sampleBars 100 60) (sampleView 30 20)
               <= 900 - PADDING_LEFT - PADDING_RIGHT)
    by (vm_compute; discriminate).
  assert (Hidx : 0 <= 19 < len (viewData (sampleBars 100 60)
                                         (sampleView 30 20)))
    by (vm_compute; split; [discriminate | reflexivity]).
  destruct (candles_inside_plot 900 (sampleBars 100 60) (sampleView 30 20)
              19 Hs Hw Hidx) as (H1 & H2 & _).
  split; [exact H1 | exact H2].
Defined.

(** X11: the time labels keep their distance.  [draw] labels every
    [stepCandles]-th candle, and two neighbouring labels are at least 54
    pixels apart (80 is what the code aims at, and rounding the step to
    a whole number of candles can fall short of it by a third). *)
Theorem tick_labels_apart (width : Z) (data : list Kline) (st : View)
    (i : Z) :
  1 <= stepCandles width data st
  /\ 54 <= tickX width data st (i + stepCandles width data st)
           - tickX width data st i.
Proof.
  unfold tickX, stepCandles. cbn zeta.
  set (cw := candleWidth width (drawVisibleCount data st)).
  assert (Hcw : 1 <= cw) by (unfold cw, candleWidth; lia).
  unfold candleGap.
  replace (Z.max 1 (cw + 2)) with (cw + 2) by lia.
  rewrite round_div by lia.
  set (p := cw + 2) in *.
  assert (Hp : 3 <= p) by (unfold p; lia).
  pose proof (Z.div_mod (2 * 80 + p) (2 * p) ltac:(lia)) as Hdm.
  pose proof (Z.mod_pos_bound (2 * 80 + p) (2 * p) ltac:(lia)) as Hmod.
  set (r := (2 * 80 + p) / (2 * p)) in *.
  split; [lia |].
  destruct (Z.max_spec 1 r) as [[Hr ->] | [Hr ->]]; nia.
Qed.

(** ** The live kline merge on in-order updates *)

Lemma ascending_increasing (ks : list Kline) :
  ascending ks = increasing (map openTime ks).
Proof.
  induction ks as [| k ks IH]; [reflexivity |].
  destruct ks as [| k' ks]; [reflexivity |].
  change (ascending (k :: k' :: ks))
    with ((openTime k <? openTime k') && ascending (k' :: ks)).
  rewrite IH. reflexivity.
Qed.

Lemma increasing_snoc (zs : list Z) (a b : Z) :
  increasing (zs ++ [a]) = true -> a < b ->
  increasing (zs ++ [a; b]) = true.
Proof.
  intros H Hab. induction zs as [| x zs IH].
  - cbn. apply Z.ltb_lt in Hab. now rewrite Hab.
  - destruct zs as [| y zs].
    + cbn in *. apply andb_true_iff in H. destruct H as [-> _].
      apply Z.ltb_lt in Hab. now rewrite Hab.
    + change (increasing ((x :: y :: zs) ++ [a]))
        with ((x <? y) && increasing ((y :: zs) ++ [a])) in H.
      change (increasing ((x :: y :: zs) ++ [a; b]))
        with ((x <? y) && increasing ((y :: zs) ++ [a; b])).
      apply andb_true_iff in H. destruct H as [-> H]. now apply IH.
Qed.

Lemma increasing_tl (zs : list Z) :
  increasing zs = true -> increasing (tl zs) = true.
Proof.
  destruct zs as [| x [| y zs]]; try reflexivity.
  change (increasing (x :: y :: zs))
    with ((x <? y) && increasing (y :: zs)).
  intros H. apply andb_true_iff in H. now destruct H.
Qed.

Lemma last_snoc {A : Type} (xs : list A) (x d : A) : last (xs ++ [x]) d = x.
Proof. apply last_last. Qed.

Lemma map_tl' {A B : Type} (f : A -> B) (xs : list A) :
  map f (tl xs) = tl (map f xs).
Proof. now destruct xs. Qed.

Lemma mergeKline_last (prev : list Kline) (k d : Kline) :
  last (mergeKline prev k) d = k.
Proof.
  destruct prev as [| p prev]; [reflexivity |].
  assert (Hne : p :: prev <> []) by discriminate.
  destruct (Z.eq_dec (openTime k) (openTime (last (p :: prev) k))) as [E | E].
  - rewrite (mergeKline_same _ _ Hne E). apply last_snoc.
  - rewrite (mergeKline_other _ _ Hne E).
    destruct (2000 <=? len (p :: prev)); apply last_snoc.
Qed.

(** X12: in-order updates keep the sequence well-formed.  On an ascending
    sequence, an update whose openTime is the last bar's or later gives an
    ascending sequence again; and the update is always the last bar of
    the merged sequence. *)
Theorem mergeKline_in_order (prev : list Kline) (k : Kline) :
  ascending prev = true ->
  openTime (last prev k) <= openTime k ->
  ascending (mergeKline prev k) = true
  /\ forall d, last (mergeKline prev k) d = k.
Proof.
  intros Hasc Hk. split; [| intros d; apply mergeKline_last].
  destruct prev as [| p prev]; [reflexivity |].
  assert (Hne : p :: prev <> []) by discriminate.
  set (l := p :: prev) in *.
  pose proof (app_removelast_last k Hne) as Hl.
  rewrite ascending_increasing in *.
  destruct (Z.eq_dec (openTime k) (openTime (last l k))) as [E | E].
  - rewrite (mergeKline_same _ _ Hne E).
    rewrite Hl, map_app in Hasc. rewrite map_app. cbn [map] in *.
    now rewrite E.
  - rewrite (mergeKline_other _ _ Hne E).
    assert (Happ : increasing (map openTime (l ++ [k])) = true).
    { rewrite Hl at 1. rewrite <- app_assoc, map_app. cbn [app map].
      apply increasing_snoc; [| lia].
      rewrite Hl, map_app in Hasc. exact Hasc. }
    destruct (2000 <=? len l); [| exact Happ].
    rewrite <- (tl_app_nonempty l [k] Hne), map_tl'.
    now apply increasing_tl.
Qed.

Lemma mergeKline_in_order_witness :
  ascending (mergeKline (sampleBars 100 3)
                        (sampleBar 103 PrimFloat.one PrimFloat.one)) = true.
Proof.
  refine (proj1 (mergeKline_in_order (sampleBars 100 3)
                   (sampleBar 103 PrimFloat.one PrimFloat.one) _ _)).
  - vm_compute. reflexivity.
  - vm_compute. discriminate.
Defined.

(** ** The bars of the one-second aggregation *)

Lemma increasing_cons_iff (x : Z) (l : list Z) :
  increasing (x :: l) = true
  <-> increasing l = true /\ forall y, In y l -> x < y.
Proof.
  revert x. induction l as [| y l IH]; intros x.
  - split; [intros _; split; [reflexivity | intros y []] | reflexivity].
  - change (increasing (x :: y :: l))
      with ((x <? y) && increasing (y :: l)).
    rewrite andb_true_iff, Z.ltb_lt. split.
    + intros [Hxy Hl]. split; [exact Hl |].
      intros z [<- | Hz]; [exact Hxy |].
      apply IH in Hl. destruct Hl as [_ Hy]. specialize (Hy z Hz). lia.
    + intros [Hl Hall]. split; [apply Hall; now left | exact Hl].
Qed.

Lemma increasing_NoDup (l : list Z) : increasing l = true -> NoDup l.
Proof.
  induction l as [| x l IH]; intros H; [constructor |].
  apply increasing_cons_iff in H. destruct H as [Hl Hx].
  constructor; [| now apply IH].
  intros Hin. specialize (Hx x Hin). lia.
Qed.

Lemma In_insertBy {A : Type} (key : A -> Z) (x y : A) (l : list A) :
  x = y \/ In x l -> In x (insertBy key y l).
Proof.
  induction l as [| z l IH]; cbn.
  - intros [-> | []]. now left.
  - destruct (key y <=? key z); cbn.
    + intros [-> | [-> | H]]; auto.
    + intros [-> | [-> | H]]; auto.
Qed.

Lemma In_sortBy {A : Type} (key : A -> Z) (x : A) (l : list A) :
  In x l -> In x (sortBy key l).
Proof.
  induction l as [| y l IH]; [tauto |].
  change (sortBy key (y :: l)) with (insertBy key y (sortBy key l)).
  intros [<- | H]; apply In_insertBy; auto.
Qed.

Lemma insert_increasing (x : Z) (l : list Z) :
  increasing l = true -> ~ In x l ->
  increasing (insertBy (fun s => s) x l) = true.
Proof.
  induction l as [| y l IH]; intros Hl Hx; [reflexivity |].
  cbn [insertBy]. apply increasing_cons_iff in Hl. destruct Hl as [Hl Hy].
  destruct (x <=? y) eqn:E.
  - apply Z.leb_le in E. apply increasing_cons_iff. split.
    + apply increasing_cons_iff. auto.
    + intros z [<- | Hz].
      * assert (x <> y) by (intros ->; apply Hx; now left). lia.
      * specialize (Hy z Hz). lia.
  - apply Z.leb_gt in E. apply increasing_cons_iff. split.
    + apply IH; [exact Hl |]. intros H. apply Hx. now right.
    + intros z Hz. apply insertBy_In in Hz.
      destruct Hz as [-> | Hz]; [lia | now apply Hy].
Qed.

(** Sorting distinct keys gives strictly increasing keys. *)
Lemma sortBy_increasing (l : list Z) :
  NoDup l -> increasing (sortBy (fun s => s) l) = true.
Proof.
  induction 1 as [| x l Hx Hl IH]; [reflexivity |].
  change (sortBy (fun s => s) (x :: l))
    with (insertBy (fun s => s) x (sortBy (fun s => s) l)).
  apply insert_increasing; [exact IH |].
  intros H. apply Hx. now apply sortBy_In in H.
Qed.

Lemma mapGet_mapKeys {V : Type} (m : NumMap V) (s : Z) (v : V) :
  mapGet m s = Some v -> In s (mapKeys m).
Proof.
  induction m as [| [k w] m IH]; cbn; [discriminate |].
  destruct (k =? s) eqn:E; [apply Z.eqb_eq in E; auto | auto].
Qed.

Lemma mapSet_keys {V : Type} (m : NumMap V) (key : Z) (v : V) :
  mapKeys (mapSet m key v)
  = if existsb (Z.eqb key) (mapKeys m) then mapKeys m
    else mapKeys m ++ [key].
Proof.
  unfold mapKeys. induction m as [| [k w] m IH]; cbn; [reflexivity |].
  rewrite (Z.eqb_sym key k).
  destruct (k =? key); cbn; [reflexivity |].
  rewrite IH. now destruct (existsb (Z.eqb key) (map fst m)).
Qed.

Lemma mapSet_NoDup {V : Type} (m : NumMap V) (key : Z) (v : V) :
  NoDup (mapKeys m) -> NoDup (mapKeys (mapSet m key v)).
Proof.
  intros H. rewrite mapSet_keys.
  destruct (existsb (Z.eqb key) (mapKeys m)) eqn:E; [exact H |].
  apply NoDup_app; [exact H | repeat constructor; intros [] |].
  intros x Hx [Ex | []]. subst x.
  assert (existsb (Z.eqb key) (mapKeys m) = true); [| congruence].
  apply existsb_exists. exists key. split; [exact Hx | apply Z.eqb_refl].
Qed.

Lemma groupBySecond_NoDup (trades : list AggTrade) :
  NoDup (mapKeys (groupBySecond trades)).
Proof.
  unfold groupBySecond.
  assert (H : forall m : NumMap (list AggTrade),
             NoDup (mapKeys m) ->
             NoDup (mapKeys
                      (fold_left
                         (fun bySecond t =>
                            mapSet bySecond (secondOf t)
                              (JS.nullish (mapGet bySecond (secondOf t)) []
                               ++ [t]))
                         trades m))).
  { induction trades as [| t trades IH]; intros m Hm; [exact Hm |].
    cbn [fold_left]. apply IH. now apply mapSet_NoDup. }
  apply H. constructor.
Qed.

(** What the second loop makes of the entry of each second. *)
Lemma klinesLoop_shape (m : NumMap (list AggTrade)) :
  forall (seconds : list Z) (prevClose : option float) (klines : list Kline),
    klinesLoop m seconds prevClose = Ok klines ->
    Forall2
      (fun s k =>
         exists arr,
           mapGet m s = Some arr
           /\ openTime k = s /\ closeTime k = s + 999
           /\ numberOfTrades k = len arr /\ isClosed k = Some true)
      seconds klines.
Proof.
  induction seconds as [| s seconds IH]; intros prevClose klines;
    cbn [klinesLoop].
  - intros [= <-]. constructor.
  - destruct (mapGet m s) as [arr |] eqn:Eg; [| discriminate].
    destruct (klineOfSecond s (sortBy timestamp arr) prevClose)
      as [k0 | |] eqn:Ek; cbn [bind]; try discriminate.
    destruct (klinesLoop m seconds (Some (close k0)))
      as [rest | |] eqn:Er; cbn [bind]; try discriminate.
    intros [= <-]. constructor; [| eapply IH; exact Er].
    exists arr. split; [exact Eg |].
    unfold klineOfSecond in Ek.
    destruct (sortBy timestamp arr) as [| first sorted] eqn:Es;
      [discriminate |].
    injection Ek as <-.
    cbn [numberOfTrades openTime closeTime isClosed].
    repeat split; try reflexivity.
    rewrite <- Es. unfold len. now rewrite sortBy_length.
Qed.

Lemma count_sum_nil (seconds : list Z) :
  fold_right
    (fun s acc =>
       len (filter (fun t : AggTrade => secondOf t =? s) []) + acc) 0 seconds
  = 0.
Proof. induction seconds as [| s seconds IH]; cbn; [reflexivity | exact IH]. Qed.

Lemma indicator_sum (x : Z) (seconds : list Z) :
  NoDup seconds -> In x seconds ->
  fold_right (fun s acc => (if x =? s then 1 else 0) + acc) 0 seconds = 1.
Proof.
  induction 1 as [| s seconds Hs Hnd IH]; intros Hin; [contradiction |].
  cbn [fold_right]. destruct Hin as [-> | Hin].
  - rewrite Z.eqb_refl.
    assert (Hz : fold_right (fun s acc => (if x =? s then 1 else 0) + acc)
                            0 seconds = 0).
    { clear -Hs. induction seconds as [| y l IHl]; [reflexivity |].
      cbn [fold_right]. destruct (x =? y) eqn:E.
      - apply Z.eqb_eq in E. subst y. exfalso. apply Hs. now left.
      - rewrite IHl; [reflexivity |]. intros H. apply Hs. now right. }
    rewrite Hz. reflexivity.
  - destruct (x =? s) eqn:E.
    + apply Z.eqb_eq in E. subst s. contradiction.
    + now rewrite IH.
Qed.

(** Over distinct seconds that cover the trades, the trades of the
    seconds add up to the trades. *)
Lemma count_sum (seconds : list Z) (trades : list AggTrade) :
  NoDup seconds ->
  (forall t, In t trades -> In (secondOf t) seconds) ->
  fold_right
    (fun s acc => len (filter (fun t => secondOf t =? s) trades) + acc)
    0 seconds
  = len trades.
Proof.
  intros Hnd. induction trades as [| t trades IH]; intros Hcov.
  - apply count_sum_nil.
  - assert (Hsplit :
              forall l : list Z,
                fold_right
                  (fun s acc =>
                     len (filter (fun t0 => secondOf t0 =? s) (t :: trades))
                     + acc) 0 l
                = fold_right
                    (fun s acc => (if secondOf t =? s then 1 else 0) + acc)
                    0 l
                  + fold_right
                      (fun s acc =>
                         len (filter (fun t0 => secondOf t0 =? s) trades)
                         + acc) 0 l).
    { induction l as [| s l IHl]; [reflexivity |].
      cbn [fold_right]. rewrite IHl. cbn [filter].
      destruct (secondOf t =? s); unfold len; cbn [length]; lia. }
    rewrite Hsplit, IH by (intros t' Ht'; apply Hcov; now right).
    rewrite indicator_sum by (try assumption; apply Hcov; now left).
    unfold len. cbn [length]. lia.
Qed.

Lemma aggregate_seconds (trades : list AggTrade) (klines : list Kline) :
  aggregateToOneSecondKlines trades = Ok klines ->
  Forall2
    (fun s k =>
       openTime k = s /\ closeTime k = s + 999
       /\ numberOfTrades k = len (filter (fun t => secondOf t =? s) trades)
       /\ isClosed k = Some true)
    (sortBy (fun s => s) (mapKeys (groupBySecond trades))) klines.
Proof.
  unfold aggregateToOneSecondKlines.
  destruct (len trades =? 0) eqn:E0.
  - intros [= <-]. destruct trades; [constructor |].
    apply Z.eqb_eq in E0. unfold len in E0. cbn in E0. lia.
  - intros Hrun. apply klinesLoop_shape in Hrun.
    eapply Forall2_impl; [| exact Hrun].
    intros s k (arr & Hget & Ht & Hc & Hn & Hx).
    rewrite groupBySecond_get in Hget.
    destruct (filter (fun t => secondOf t =? s) trades) eqn:Ef;
      [discriminate |].
    injection Hget as <-. auto.
Qed.

Lemma Forall2_map_eq {A B C : Type} (f : B -> C) (g : A -> C)
    (xs : list A) (ys : list B) :
  Forall2 (fun x y => f y = g x) xs ys -> map f ys = map g xs.
Proof. induction 1; cbn; congruence. Qed.

Lemma Forall2_In_r {A B : Type} (R : A -> B -> Prop) (xs : list A)
    (ys : list B) (y : B) :
  Forall2 R xs ys -> In y ys -> exists x, In x xs /\ R x y.
Proof.
  induction 1 as [| x y' xs ys Hxy _ IH]; intros Hin; [contradiction |].
  destruct Hin as [<- | Hin]; [exists x; split; [now left | exact Hxy] |].
  destruct (IH Hin) as (x' & Hx' & HR). exists x'. split; [now right | exact HR].
Qed.

Lemma Forall2_In_l {A B : Type} (R : A -> B -> Prop) (xs : list A)
    (ys : list B) (x : A) :
  Forall2 R xs ys -> In x xs -> exists y, In y ys /\ R x y.
Proof.
  induction 1 as [| x' y xs ys Hxy _ IH]; intros Hin; [contradiction |].
  destruct Hin as [<- | Hin]; [exists y; split; [now left | exact Hxy] |].
  destruct (IH Hin) as (y' & Hy' & HR). exists y'. split; [now right | exact HR].
Qed.

(** X13: the aggregation gives a well-formed bar sequence, whatever the
    order of the trades: it returns bars that are strictly ascending by
    openTime, each opening on a whole second and closing 999 ms later,
    marked closed, and there is a bar for the second of every trade. *)
Theorem aggregate_wellformed (trades : list AggTrade) :
  exists klines,
    aggregateToOneSecondKlines trades = Ok klines
    /\ ascending klines = true
    /\ (forall k, In k klines ->
          openTime k mod 1000 = 0
          /\ closeTime k = openTime k + 999
          /\ isClosed k = Some true)
    /\ (forall t, In t trades ->
          exists k, In k klines /\ openTime k = secondOf t).
Proof.
  destruct (aggregate_returns trades) as [klines Hrun].
  exists klines. split; [exact Hrun |].
  pose proof (aggregate_seconds trades klines Hrun) as Hshape.
  set (seconds := sortBy (fun s => s) (mapKeys (groupBySecond trades))) in *.
  assert (Htimes : map openTime klines = seconds).
  { rewrite <- (map_id seconds).
    apply Forall2_map_eq. eapply Forall2_impl; [| exact Hshape].
    intros s k (Ht & _). exact Ht. }
  split; [| split].
  - rewrite ascending_increasing, Htimes.
    apply sortBy_increasing, groupBySecond_NoDup.
  - intros k Hk.
    destruct (Forall2_In_r _ _ _ _ Hshape Hk)
      as (s & Hs & Ht & Hc & _ & Hx).
    split; [| split; [lia | exact Hx]].
    rewrite Ht. unfold seconds in Hs.
    apply sortBy_In, mapKeys_mapGet in Hs. destruct Hs as [arr Harr].
    rewrite groupBySecond_get in Harr.
    destruct (filter (fun t => secondOf t =? s) trades) as [| t ts] eqn:Ef;
      [discriminate |].
    assert (Hin : In t (filter (fun t => secondOf t =? s) trades))
      by (rewrite Ef; now left).
    apply filter_In in Hin. destruct Hin as [_ Hsec].
    apply Z.eqb_eq in Hsec. rewrite <- Hsec. unfold secondOf.
    apply Z.mod_mul. lia.
  - intros t Ht.
    assert (Hin : In (secondOf t) seconds).
    { unfold seconds. apply In_sortBy.
      assert (Hf : In t (filter (fun t0 => secondOf t0 =? secondOf t) trades))
        by (apply filter_In; split; [exact Ht | apply Z.eqb_refl]).
      pose proof (groupBySecond_get trades (secondOf t)) as Hget.
      destruct (filter (fun t0 => secondOf t0 =? secondOf t) trades);
        [contradiction |].
      eapply mapGet_mapKeys. exact Hget. }
    destruct (Forall2_In_l _ _ _ _ Hshape Hin) as (k & Hk & Hko & _).
    exists k. auto.
Qed.

(** X14: every trade is counted once.  Each bar counts the trades that
    fall into its second, at least one, and the counts of all bars add up
    to the number of trades. *)
Theorem aggregate_counts_trades (trades : list AggTrade)
    (klines : list Kline) :
  aggregateToOneSecondKlines trades = Ok klines ->
  (forall k, In k klines ->
     numberOfTrades k = len (tradesOfSecond trades (openTime k))
     /\ 1 <= numberOfTrades k)
  /\ totalTrades klines = len trades.
Proof.
  intros Hrun.
  pose proof (aggregate_seconds trades klines Hrun) as Hshape.
  set (seconds := sortBy (fun s => s) (mapKeys (groupBySecond trades))) in *.
  split.
  - intros k Hk.
    destruct (Forall2_In_r _ _ _ _ Hshape Hk)
      as (s & Hs & Ht & _ & Hn & _).
    unfold tradesOfSecond, len in *. rewrite sortBy_length, Ht, Hn.
    split; [reflexivity |].
    unfold seconds in Hs. apply sortBy_In, mapKeys_mapGet in Hs.
    destruct Hs as [arr Harr]. rewrite groupBySecond_get in Harr.
    destruct (filter (fun t => secondOf t =? s) trades);
      [discriminate | cbn [length]; lia].
  - assert (Hsum :
              totalTrades klines
              = fold_right
                  (fun s acc =>
                     len (filter (fun t => secondOf t =? s) trades) + acc)
                  0 seconds).
    { clear -Hshape. induction Hshape as [| s k ss ks Hk _ IH];
        [reflexivity |].
      cbn [totalTrades fold_right] in *. fold (totalTrades ks).
      destruct Hk as (_ & _ & -> & _). now rewrite IH. }
    rewrite Hsum. apply count_sum.
    + apply increasing_NoDup, sortBy_increasing, groupBySecond_NoDup.
    + intros t Ht. unfold seconds. apply In_sortBy.
      assert (Hf : In t (filter (fun t0 => secondOf t0 =? secondOf t) trades))
        by (apply filter_In; split; [exact Ht | apply Z.eqb_refl]).
      pose proof (groupBySecond_get trades (secondOf t)) as Hget.
      destruct (filter (fun t0 => secondOf t0 =? secondOf t) trades);
        [contradiction |].
      eapply mapGet_mapKeys. exact Hget.
Qed.

Lemma aggregate_counts_trades_witness :
  totalTrades
    [mkKline 1000 10 11 10 11 3 1999 0 2 0 0 (Some true);
     mkKline 2000 11 12 8 8 6 2999 0 2 0 0 (Some true)] = 4.
Proof.
  apply (aggregate_counts_trades
           [mkAggTrade 1 10 1 1000 false; mkAggTrade 2 11 2 1500 true;
            mkAggTrade 3 12 1 2100 false; mkAggTrade 4 8 5 2900 true]).
  vm_compute. reflexivity.
Defined.

(** ** The live one-second aggregation *)

Lemma increasing_same_last (zs : list Z) (a b : Z) :
  increasing (zs ++ [a]) = true -> a = b -> increasing (zs ++ [b]) = true.
Proof. now intros H <-. Qed.

(** X15: the live aggregation, case by case.  On an ascending sequence
    the handler gives an ascending sequence again, at most one bar
    longer.  The first trade of an empty chart starts a bar at its
    second; a trade of the last bar's second replaces that bar by the bar
    with the trade added; a trade of a later second appends a bar that
    opens at the last close; and a trade of an earlier second is
    ignored. *)
Theorem liveTrade_ascending (prev : list Kline) (t : AggTrade) :
  ascending prev = true ->
  ascending (liveTrade prev t) = true
  /\ len prev <= len (liveTrade prev t) <= len prev + 1
  /\ (prev = [] ->
      liveTrade prev t = [newSecondBar (secondOf t) (price t) t])
  /\ (forall d, prev <> [] ->
        (openTime (last prev d) = secondOf t ->
         liveTrade prev t
         = removelast prev ++ [addTradeToBar (last prev d) t])
        /\ (openTime (last prev d) < secondOf t ->
            liveTrade prev t
            = prev ++ [newSecondBar (secondOf t) (close (last prev d)) t])
        /\ (secondOf t < openTime (last prev d) ->
            liveTrade prev t = prev)).
Proof.
  intros Hasc. unfold liveTrade. cbn zeta.
  destruct prev as [| p prev].
  { split; [reflexivity |]. split; [unfold len; cbn; lia |].
    split; [reflexivity | intros d H; congruence]. }
  assert (Hne : p :: prev <> []) by discriminate.
  set (l := p :: prev) in *.
  destruct (len_nonempty l Hne) as [-> Hn].
  set (d0 := newSecondBar (secondOf t) (price t) t).
  pose proof (app_removelast_last d0 Hne) as Hl.
  assert (Hlast : forall d, last l d = last l d0).
  { intros d. unfold l. clear. revert p.
    induction prev as [| q prev IH]; intros p; [reflexivity |].
    change (last (p :: q :: prev) d) with (last (q :: prev) d).
    change (last (p :: q :: prev) d0) with (last (q :: prev) d0). apply IH. }
  rewrite ascending_increasing in Hasc.
  destruct (openTime (last l d0) =? secondOf t) eqn:E1.
  - apply Z.eqb_eq in E1. rewrite slice_init by exact Hne.
    split; [| split; [| split]].
    + rewrite ascending_increasing, map_app. cbn [map addTradeToBar openTime].
      rewrite Hl, map_app in Hasc. exact Hasc.
    + rewrite len_app, len_removelast by exact Hne.
      change (len [addTradeToBar (last l d0) t]) with 1. lia.
    + intros H. congruence.
    + intros d _. rewrite (Hlast d).
      split; [reflexivity |]. split; intros H; lia.
  - apply Z.eqb_neq in E1.
    destruct (openTime (last l d0) <? secondOf t) eqn:E2.
    + apply Z.ltb_lt in E2. split; [| split; [| split]].
      * rewrite ascending_increasing. rewrite Hl at 1.
        rewrite <- app_assoc, map_app. cbn [app map newSecondBar openTime].
        apply increasing_snoc; [| exact E2].
        rewrite Hl, map_app in Hasc. exact Hasc.
      * rewrite len_app. change (len [_]) with 1. lia.
      * intros H. congruence.
      * intros d _. rewrite (Hlast d).
        split; [intros H; lia |]. split; [reflexivity | intros H; lia].
    + apply Z.ltb_ge in E2. split; [| split; [| split]].
      * now rewrite ascending_increasing.
      * lia.
      * intros H. congruence.
      * intros d _. rewrite (Hlast d).
        split; [intros H; lia |]. split; [intros H; lia | reflexivity].
Qed.

Lemma liveTrade_ascending_witness :
  ascending (liveTrade (sampleBars 1000 3)
                       (mkAggTrade 1 10 1 5500 false)) = true
  /\ liveTrade (sampleBars 1000 3) (mkAggTrade 1 10 1 5500 false)
     = sampleBars 1000 3
       ++ [newSecondBar 5000 1 (mkAggTrade 1 10 1 5500 false)].
Proof.
  destruct (liveTrade_ascending (sampleBars 1000 3)
              (mkAggTrade 1 10 1 5500 false))
    as (Hasc & _ & _ & Hcases); [vm_compute; reflexivity |].
  split; [exact Hasc |].
  destruct (Hcases (sampleBar 0 1 1)) as (_ & Happend & _);
    [discriminate |].
  apply Happend. vm_compute. reflexivity.
Defined.

(** ** Facts on doubles *)

Lemma SFeqb_refl_finite (s : bool) (m : positive) (e : Z) :
  SFeqb (S754_finite s m e) (S754_finite s m e) = true.
Proof.
  unfold SFeqb, SFcompare.
  destruct s; rewrite Z.compare_refl, Pos.compare_cont_refl; reflexivity.
Qed.

Lemma is_nan_true (p : float) :
  PrimFloat.is_nan p = true -> Prim2SF p = S754_nan.
Proof.
  unfold PrimFloat.is_nan. rewrite FloatAxioms.eqb_spec. intros H.
  destruct (Prim2SF p) as [s | s | | s m e] eqn:E.
  - destruct s; discriminate.
  - destruct s; discriminate.
  - reflexivity.
  - rewrite SFeqb_refl_finite in H. discriminate.
Qed.

Lemma is_nan_false (p : float) :
  PrimFloat.is_nan p = false -> Prim2SF p <> S754_nan.
Proof.
  unfold PrimFloat.is_nan. rewrite FloatAxioms.eqb_spec. intros H E.
  rewrite E in H. discriminate.
Qed.

(** [Math.max(-Infinity, p)] is [p], for every double. *)
Lemma max2_neg_infinity (p : float) : JS.max2 PrimFloat.neg_infinity p = p.
Proof.
  unfold JS.max2.
  change (PrimFloat.is_nan PrimFloat.neg_infinity) with false. cbn [orb].
  destruct (PrimFloat.is_nan p) eqn:En.
  - apply is_nan_true in En. apply Prim2SF_inj. now rewrite En.
  - apply is_nan_false in En. rewrite !ltb_spec.
    change (Prim2SF PrimFloat.neg_infinity) with (S754_infinity true).
    destruct (Prim2SF p) as [s | s | | s m e] eqn:E; try congruence;
      try reflexivity.
    destruct s; [| reflexivity].
    cbn. apply Prim2SF_inj. now rewrite E.
Qed.

(** [Math.min(Infinity, p)] is [p], for every double. *)
Lemma min2_infinity (p : float) : JS.min2 PrimFloat.infinity p = p.
Proof.
  unfold JS.min2.
  change (PrimFloat.is_nan PrimFloat.infinity) with false. cbn [orb].
  destruct (PrimFloat.is_nan p) eqn:En.
  - apply is_nan_true in En. apply Prim2SF_inj. now rewrite En.
  - apply is_nan_false in En. rewrite !ltb_spec.
    change (Prim2SF PrimFloat.infinity) with (S754_infinity false).
    destruct (Prim2SF p) as [s | s | | s m e] eqn:E; try congruence;
      try reflexivity.
    destruct s; reflexivity.
Qed.

(** [0 + q] is [q], except for the negative zero. *)
Lemma zero_add (q : float) :
  q <> (-0)%float -> PrimFloat.add PrimFloat.zero q = q.
Proof.
  intros Hq. apply Prim2SF_inj. rewrite add_spec.
  change (Prim2SF PrimFloat.zero) with (S754_zero false).
  destruct (Prim2SF q) as [s | s | | s m e] eqn:E; try reflexivity.
  destruct s; [| reflexivity].
  exfalso. apply Hq. apply Prim2SF_inj. now rewrite E.
Qed.

(** ** Live and batch aggregation agree *)

Lemma timeOrdered_cons (t : AggTrade) (l : list AggTrade) :
  timeOrdered (t :: l) = true ->
  timeOrdered l = true /\ forall t', In t' l -> timestamp t <= timestamp t'.
Proof.
  revert t. induction l as [| y l IH]; intros t H.
  - split; [reflexivity | intros t' []].
  - change (timeOrdered (t :: y :: l))
      with ((timestamp t <=? timestamp y) && timeOrdered (y :: l)) in H.
    apply andb_true_iff in H. destruct H as [Hty Hl].
    apply Z.leb_le in Hty. split; [exact Hl |].
    destruct (IH y Hl) as [_ Hy].
    intros t' [<- | Ht']; [exact Hty |]. specialize (Hy t' Ht'). lia.
Qed.

Lemma timeOrdered_intro (t : AggTrade) (l : list AggTrade) :
  timeOrdered l = true ->
  (forall t', In t' l -> timestamp t <= timestamp t') ->
  timeOrdered (t :: l) = true.
Proof.
  intros Hl Ht. destruct l as [| y l]; [reflexivity |].
  change (timeOrdered (t :: y :: l))
    with ((timestamp t <=? timestamp y) && timeOrdered (y :: l)).
  rewrite Hl, andb_true_r. apply Z.leb_le. apply Ht. now left.
Qed.

Lemma timeOrdered_app (l : list AggTrade) (t : AggTrade) :
  timeOrdered (l ++ [t]) = true <->
  timeOrdered l = true /\ forall t', In t' l -> timestamp t' <= timestamp t.
Proof.
  induction l as [| x l IH].
  - split; [intros _; split; [reflexivity | intros t' []] | reflexivity].
  - cbn [app]. split.
    + intros H. apply timeOrdered_cons in H. destruct H as [Hl Hx].
      apply IH in Hl. destruct Hl as [Hl Hall]. split.
      * apply timeOrdered_intro; [exact Hl |].
        intros t' Ht'. apply Hx. apply in_or_app. now left.
      * intros t' [<- | Ht']; [| now apply Hall].
        apply Hx. apply in_or_app. right. now left.
    + intros [Hxl Hall]. apply timeOrdered_cons in Hxl.
      destruct Hxl as [Hl Hx]. apply timeOrdered_intro.
      * apply IH. split; [exact Hl |]. intros t' Ht'. apply Hall. now right.
      * intros t' Ht'. apply in_app_or in Ht'.
        destruct Ht' as [Ht' | [<- | []]]; [now apply Hx |].
        apply Hall. now left.
Qed.

Lemma timeOrdered_filter (f : AggTrade -> bool) (l : list AggTrade) :
  timeOrdered l = true -> timeOrdered (filter f l) = true.
Proof.
  induction l as [| x l IH]; intros H; [reflexivity |].
  apply timeOrdered_cons in H. destruct H as [Hl Hx]. cbn [filter].
  destruct (f x); [| now apply IH].
  apply timeOrdered_intro; [now apply IH |].
  intros t' Ht'. apply filter_In in Ht'. apply Hx. tauto.
Qed.

Lemma sortBy_timeOrdered (l : list AggTrade) :
  timeOrdered l = true -> sortBy timestamp l = l.
Proof.
  induction l as [| x l IH]; intros H; [reflexivity |].
  change (sortBy timestamp (x :: l))
    with (insertBy timestamp x (sortBy timestamp l)).
  apply timeOrdered_cons in H. destruct H as [Hl Hx].
  rewrite (IH Hl). destruct l as [| y l]; [reflexivity |].
  cbn [insertBy].
  replace (timestamp x <=? timestamp y) with true; [reflexivity |].
  symmetry. apply Z.leb_le. apply Hx. now left.
Qed.

Lemma sortBy_increasing_id (l : list Z) :
  increasing l = true -> sortBy (fun s => s) l = l.
Proof.
  induction l as [| x l IH]; intros H; [reflexivity |].
  change (sortBy (fun s => s) (x :: l))
    with (insertBy (fun s => s) x (sortBy (fun s => s) l)).
  apply increasing_cons_iff in H. destruct H as [Hl Hx].
  rewrite (IH Hl). destruct l as [| y l]; [reflexivity |].
  cbn [insertBy].
  replace (x <=? y) with true; [reflexivity |].
  symmetry. apply Z.leb_le. specialize (Hx y (or_introl eq_refl)). lia.
Qed.

Lemma secondOf_mono (t t' : AggTrade) :
  timestamp t <= timestamp t' -> secondOf t <= secondOf t'.
Proof.
  intros H. unfold secondOf. apply Z.mul_le_mono_nonneg_r; [lia |].
  apply Z.div_le_mono; lia.
Qed.

Lemma groupBySecond_snoc (trades : list AggTrade) (t : AggTrade) :
  groupBySecond (trades ++ [t])
  = mapSet (groupBySecond trades) (secondOf t)
           (JS.nullish (mapGet (groupBySecond trades) (secondOf t)) []
            ++ [t]).
Proof. unfold groupBySecond. now rewrite fold_left_app. Qed.

Lemma mapGet_not_key {V : Type} (m : NumMap V) (s : Z) :
  ~ In s (mapKeys m) -> mapGet m s = None.
Proof.
  intros H. destruct (mapGet m s) eqn:E; [| reflexivity].
  exfalso. apply H. eapply mapGet_mapKeys. exact E.
Qed.

(** The second loop reads the entries of its seconds only. *)
Lemma klinesLoop_ext (m m' : NumMap (list AggTrade)) :
  forall (seconds : list Z) (prevClose : option float),
    (forall s, In s seconds -> mapGet m' s = mapGet m s) ->
    klinesLoop m' seconds prevClose = klinesLoop m seconds prevClose.
Proof.
  induction seconds as [| s seconds IH]; intros prevClose H; [reflexivity |].
  cbn [klinesLoop]. rewrite (H s (or_introl eq_refl)).
  destruct (mapGet m s) as [arr |]; [| reflexivity].
  destruct (klineOfSecond s (sortBy timestamp arr) prevClose) as [k | |];
    cbn [bind]; try reflexivity.
  rewrite IH; [reflexivity |]. intros s' Hs'. apply H. now right.
Qed.

(** One more second at the end: one more bar, opening at the last close. *)
Lemma klinesLoop_snoc (m : NumMap (list AggTrade)) :
  forall (seconds : list Z) (s : Z) (prevClose : option float)
         (bars : list Kline),
    klinesLoop m seconds prevClose = Ok bars ->
    klinesLoop m (seconds ++ [s]) prevClose
    = match mapGet m s with
      | None => TypeError
      | Some arr =>
          k <- klineOfSecond s (sortBy timestamp arr)
                 (match bars with
                  | [] => prevClose
                  | b :: _ => Some (close (last bars b))
                  end) ;;
          Ok (bars ++ [k])
      end.
Proof.
  induction seconds as [| s0 seconds IH]; intros s prevClose bars.
  - cbn [klinesLoop app]. intros [= <-].
    destruct (mapGet m s) as [arr |]; [| reflexivity].
    destruct (klineOfSecond s (sortBy timestamp arr) prevClose);
      reflexivity.
  - cbn [klinesLoop app].
    destruct (mapGet m s0) as [arr0 |]; [| discriminate].
    destruct (klineOfSecond s0 (sortBy timestamp arr0) prevClose)
      as [k0 | |]; cbn [bind]; try discriminate.
    destruct (klinesLoop m seconds (Some (close k0))) as [rest | |] eqn:Er;
      cbn [bind]; try discriminate.
    intros [= <-]. rewrite (IH s _ rest Er).
    destruct (mapGet m s) as [arr |]; [| reflexivity].
    assert (Hpc : match rest with
                  | [] => Some (close k0)
                  | b :: _ => Some (close (last rest b))
                  end
                  = Some (close (last (k0 :: rest) k0))).
    { destruct rest as [| b rest]; [reflexivity |].
      f_equal. f_equal. clear. revert b.
      induction rest as [| c rest IHr]; intros b; [reflexivity |].
      change (last (b :: c :: rest) b) with (last (c :: rest) b).
      change (last (k0 :: b :: c :: rest) k0) with (last (c :: rest) k0).
      clear IHr. revert c. induction rest as [| e rest IHr]; intros c;
        [reflexivity |].
      change (last (c :: e :: rest) b) with (last (e :: rest) b).
      change (last (c :: e :: rest) k0) with (last (e :: rest) k0).
      apply IHr. }
    rewrite Hpc.
    destruct (klineOfSecond s (sortBy timestamp arr)
                (Some (close (last (k0 :: rest) k0)))); reflexivity.
Qed.

Lemma increasing_last_max (l : list Z) (d : Z) :
  increasing l = true -> forall x, In x l -> x <= last l d.
Proof.
  induction l as [| y l IH]; intros H x Hx; [contradiction |].
  apply increasing_cons_iff in H. destruct H as [Hl Hy].
  destruct l as [| z l].
  - destruct Hx as [<- | []]. cbn. lia.
  - change (last (y :: z :: l) d) with (last (z :: l) d).
    destruct Hx as [<- | Hx]; [| now apply IH].
    assert (Hz : y < z) by (apply Hy; now left).
    specialize (IH Hl z (or_introl eq_refl)). lia.
Qed.

Lemma increasing_app_one (l : list Z) (c : Z) :
  increasing l = true -> (forall x, In x l -> x < c) ->
  increasing (l ++ [c]) = true.
Proof.
  induction l as [| y l IH]; intros H Hc; [reflexivity |].
  apply increasing_cons_iff in H. destruct H as [Hl Hy].
  cbn [app]. apply increasing_cons_iff. split.
  - apply IH; [exact Hl |]. intros x Hx. apply Hc. now right.
  - intros x Hx. apply in_app_or in Hx.
    destruct Hx as [Hx | [<- | []]]; [now apply Hy | apply Hc; now left].
Qed.

Lemma last_map {A B : Type} (f : A -> B) (l : list A) (d : A) (e : B) :
  l <> [] -> last (map f l) e = f (last l d).
Proof.
  induction l as [| x l IH]; intros H; [congruence |].
  destruct l as [| y l]; [reflexivity |].
  change (last (map f (x :: y :: l)) e) with (last (map f (y :: l)) e).
  change (last (x :: y :: l) d) with (last (y :: l) d).
  apply IH. discriminate.
Qed.

Lemma map_openTime_closeBar (l : list Kline) :
  map openTime (map closeBar l) = map openTime l.
Proof. rewrite map_map. reflexivity. Qed.

(** The keys of the grouping are seconds of trades, each with a
    non-empty entry. *)
Lemma groupBySecond_key (trades : list AggTrade) (s : Z) :
  In s (mapKeys (groupBySecond trades)) ->
  exists arr t,
    mapGet (groupBySecond trades) s = Some arr /\ arr <> []
    /\ arr = filter (fun t => secondOf t =? s) trades
    /\ In t trades /\ secondOf t = s.
Proof.
  intros Hs. apply mapKeys_mapGet in Hs. destruct Hs as [arr Harr].
  pose proof Harr as Hget. rewrite groupBySecond_get in Harr.
  destruct (filter (fun t => secondOf t =? s) trades) as [| t ts] eqn:Ef;
    [discriminate |].
  injection Harr as <-. exists (t :: ts), t.
  split; [exact Hget |]. split; [discriminate |]. split; [reflexivity |].
  assert (Hin : In t (filter (fun t => secondOf t =? s) trades))
    by (rewrite Ef; now left).
  apply filter_In in Hin. destruct Hin as [Hin Hsec].
  apply Z.eqb_eq in Hsec. auto.
Qed.

(** The bar of a second from its trades in time order, written out. *)
Lemma klineOfSecond_cons (s : Z) (first : AggTrade) (rest : list AggTrade)
    (prevClose : option float) :
  klineOfSecond s (first :: rest) prevClose
  = Ok (mkKline s (JS.nullish prevClose (price first))
               (JS.maxOf (map price (first :: rest)))
               (JS.minOf (map price (first :: rest)))
               (price (last (first :: rest) first))
               (fold_left (fun sum x => PrimFloat.add sum (quantity x))
                          (first :: rest) PrimFloat.zero)
               (s + 999) PrimFloat.zero (len (first :: rest))
               PrimFloat.zero PrimFloat.zero (Some true)).
Proof. reflexivity. Qed.

(** One more trade in the last second: the batch bar of that second is
    the live update of the bar before. *)
Lemma bar_add_trade (s : Z) (arr : list AggTrade) (t : AggTrade)
    (prevClose : option float) (k lb : Kline) :
  klineOfSecond s arr prevClose = Ok k ->
  closeBar lb = k ->
  klineOfSecond s (arr ++ [t]) prevClose = Ok (closeBar (addTradeToBar lb t)).
Proof.
  destruct arr as [| first rest]; [discriminate |].
  rewrite klineOfSecond_cons. intros [= <-] Hlb.
  change ((first :: rest) ++ [t]) with (first :: (rest ++ [t])).
  rewrite klineOfSecond_cons. f_equal.
  unfold closeBar in Hlb. injection Hlb as H1 H2 H3 H4 H5 H6 H7 H8 H9 H10 H11.
  unfold closeBar, addTradeToBar.
  cbn [openTime open high low close volume closeTime quoteAssetVolume
       numberOfTrades takerBuyBaseVolume takerBuyQuoteVolume].
  rewrite H1, H2, H3, H4, H6, H7, H8, H9, H10, H11.
  change (first :: rest ++ [t]) with ((first :: rest) ++ [t]).
  unfold JS.maxOf, JS.minOf. rewrite !map_app, !fold_left_app.
  rewrite last_snoc, len_app. reflexivity.
Qed.

(** The first trade of a new second: the batch bar of that second is the
    bar that the live handler starts. *)
Lemma bar_new_second (s : Z) (t : AggTrade) (prevClose : option float) :
  quantity t <> (-0)%float ->
  klineOfSecond s [t] prevClose
  = Ok (closeBar (newSecondBar s (JS.nullish prevClose (price t)) t)).
Proof.
  intros Hq. rewrite klineOfSecond_cons. unfold closeBar, newSecondBar.
  cbn [openTime open high low close volume closeTime quoteAssetVolume
       numberOfTrades takerBuyBaseVolume takerBuyQuoteVolume].
  unfold JS.maxOf, JS.minOf. cbn [map fold_left last].
  rewrite max2_neg_infinity, min2_infinity, (zero_add _ Hq). reflexivity.
Qed.

Lemma increasing_app_inv (l : list Z) (c : Z) :
  increasing (l ++ [c]) = true -> forall x, In x l -> x < c.
Proof.
  induction l as [| y l IH]; intros H x Hx; [contradiction |].
  cbn [app] in H. apply increasing_cons_iff in H. destruct H as [Hl Hy].
  destruct Hx as [<- | Hx]; [| now apply IH].
  apply Hy. apply in_or_app. right. now left.
Qed.

Lemma last_In {A : Type} (l : list A) (d : A) : l <> [] -> In (last l d) l.
Proof.
  intros H. rewrite (app_removelast_last d H) at 2.
  apply in_or_app. right. now left.
Qed.

(** One more trade, in time order: the batch bars move as the live bars
    do. *)
Lemma live_batch_step (T : list AggTrade) (t : AggTrade) :
  timeOrdered (T ++ [t]) = true ->
  quantity t <> (-0)%float ->
  increasing (mapKeys (groupBySecond T)) = true ->
  klinesLoop (groupBySecond T) (mapKeys (groupBySecond T)) None
  = Ok (map closeBar (liveTrades T)) ->
  increasing (mapKeys (groupBySecond (T ++ [t]))) = true
  /\ klinesLoop (groupBySecond (T ++ [t]))
                (mapKeys (groupBySecond (T ++ [t]))) None
     = Ok (map closeBar (liveTrades (T ++ [t]))).
Proof.
  intros Hord Hq Hinc Hbatch.
  apply timeOrdered_app in Hord. destruct Hord as [HordT Hle].
  assert (HL : liveTrades (T ++ [t]) = liveTrade (liveTrades T) t)
    by (unfold liveTrades; now rewrite fold_left_app).
  rewrite HL, groupBySecond_snoc.
  set (m := groupBySecond T) in *. set (c := secondOf t).
  set (L := liveTrades T) in *.
  set (d0 := newSecondBar c (price t) t).
  assert (Hkeys : forall s, In s (mapKeys m) ->
                    s <= c
                    /\ exists arr, mapGet m s = Some arr /\ arr <> []
                                   /\ arr = filter (fun t => secondOf t =? s) T).
  { intros s Hs. destruct (groupBySecond_key T s Hs)
      as (arr & t' & Hget & Hne & Harr & Hin & Hsec).
    split; [| eauto]. subst s. apply secondOf_mono. now apply Hle. }
  assert (Htimes : map openTime L = mapKeys m).
  { destruct (klinesLoop_chain _ _ _ _ Hbatch) as [Ht _].
    now rewrite map_openTime_closeBar in Ht. }
  rewrite mapSet_keys.
  set (m' := mapSet m c (JS.nullish (mapGet m c) [] ++ [t])).
  destruct (existsb (Z.eqb c) (mapKeys m)) eqn:Ex.
  - (* the trade falls into the last second *)
    apply existsb_exists in Ex. destruct Ex as (c' & Hin & Ec).
    apply Z.eqb_eq in Ec. subst c'.
    split; [exact Hinc |].
    assert (Hkne : mapKeys m <> []) by (intros E; rewrite E in Hin; contradiction).
    assert (Hlastk : last (mapKeys m) 0 = c).
    { pose proof (increasing_last_max _ 0 Hinc c Hin).
      pose proof (proj1 (Hkeys _ (last_In (mapKeys m) 0 Hkne))). lia. }
    assert (Hk : exists ks, mapKeys m = ks ++ [c]).
    { exists (removelast (mapKeys m)).
      rewrite <- Hlastk. now apply app_removelast_last. }
    destruct Hk as [ks Hk]. rewrite Hk in *.
    pose proof (increasing_app_inv ks c Hinc) as Hks.
    destruct (klinesLoop_returns m ks None) as [bs1 H1].
    { intros s Hs. destruct (Hkeys s) as (_ & arr & Hget & Hne & _);
        [apply in_or_app; now left | eauto]. }
    destruct (Hkeys c Hin) as (_ & arr & Hget & Hne & Harr).
    assert (Hordarr : timeOrdered arr = true)
      by (rewrite Harr; now apply timeOrdered_filter).
    pose proof (klinesLoop_snoc m ks c None bs1 H1) as Hsnoc.
    rewrite Hbatch, Hget, (sortBy_timeOrdered arr Hordarr) in Hsnoc.
    set (pc := match bs1 with
               | [] => None
               | b :: _ => Some (close (last bs1 b))
               end) in *.
    destruct (klineOfSecond c arr pc) as [k | |] eqn:Ek; cbn [bind] in Hsnoc;
      try discriminate.
    injection Hsnoc as Hbars.
    assert (HLne : L <> []).
    { intros E. rewrite E in Htimes. destruct ks; discriminate. }
    pose proof (app_removelast_last d0 HLne) as HLd.
    rewrite HLd, map_app in Hbars. cbn [map] in Hbars.
    apply app_inj_tail in Hbars. destruct Hbars as [Hb1 Hlb].
    assert (Hlo : openTime (last L d0) = c).
    { destruct (klineOfSecond_fields _ _ _ _ Ek) as (_ & _ & Ho & _).
      rewrite <- Hlb in Ho. exact Ho. }
    assert (H1' : klinesLoop m' ks None = Ok bs1).
    { rewrite <- H1. apply klinesLoop_ext. intros s Hs.
      unfold m'. rewrite mapGet_mapSet.
      replace (c =? s) with false; [reflexivity |].
      symmetry. apply Z.eqb_neq. specialize (Hks s Hs). lia. }
    rewrite (klinesLoop_snoc m' ks c None bs1 H1'). fold pc.
    unfold m' at 1. rewrite mapGet_mapSet, Z.eqb_refl, Hget.
    cbn [JS.nullish].
    rewrite sortBy_timeOrdered.
    2:{ apply timeOrdered_app. split; [exact Hordarr |].
        intros t' Ht'. apply Hle. rewrite Harr in Ht'.
        apply filter_In in Ht'. tauto. }
    rewrite (bar_add_trade c arr t pc k (last L d0) Ek Hlb). cbn [bind].
    f_equal. unfold liveTrade. cbn zeta. fold c. fold d0.
    destruct (len_nonempty L HLne) as [-> _].
    rewrite Hlo, Z.eqb_refl, slice_init by exact HLne.
    rewrite map_app, Hb1. reflexivity.
  - (* the trade opens a new second *)
    assert (Hlt : forall s, In s (mapKeys m) -> s < c).
    { intros s Hs. destruct (Hkeys s Hs) as [Hsc _].
      assert (s <> c); [| lia]. intros ->.
      assert (existsb (Z.eqb c) (mapKeys m) = true); [| congruence].
      apply existsb_exists. exists c. split; [exact Hs | apply Z.eqb_refl]. }
    split; [now apply increasing_app_one |].
    assert (Hnone : mapGet m c = None).
    { apply mapGet_not_key. intros H. specialize (Hlt c H). lia. }
    assert (H' : klinesLoop m' (mapKeys m) None = Ok (map closeBar L)).
    { rewrite <- Hbatch. apply klinesLoop_ext. intros s Hs.
      unfold m'. rewrite mapGet_mapSet.
      replace (c =? s) with false; [reflexivity |].
      symmetry. apply Z.eqb_neq. specialize (Hlt s Hs). lia. }
    rewrite (klinesLoop_snoc m' (mapKeys m) c None _ H').
    unfold m' at 1. rewrite mapGet_mapSet, Z.eqb_refl, Hnone.
    cbn [JS.nullish app].
    change (sortBy timestamp [t]) with [t].
    rewrite (bar_new_second c t _ Hq). cbn [bind]. f_equal.
    unfold liveTrade. cbn zeta. fold c. fold d0.
    destruct L as [| l0 L0] eqn:EL; [reflexivity |].
    assert (HLne : l0 :: L0 <> []) by discriminate.
    destruct (len_nonempty _ HLne) as [-> _].
    assert (Hin : In (openTime (last (l0 :: L0) d0)) (mapKeys m)).
    { rewrite <- Htimes. apply in_map. now apply last_In. }
    specialize (Hlt _ Hin).
    replace (openTime (last (l0 :: L0) d0) =? c) with false
      by (symmetry; apply Z.eqb_neq; lia).
    replace (openTime (last (l0 :: L0) d0) <? c) with true
      by (symmetry; apply Z.ltb_lt; lia).
    rewrite map_app. cbn [map]. f_equal. f_equal. f_equal.
    change (map closeBar (l0 :: L0)) with (closeBar l0 :: map closeBar L0).
    cbn [JS.nullish].
    change (closeBar l0 :: map closeBar L0) with (map closeBar (l0 :: L0)).
    rewrite (last_map closeBar (l0 :: L0) d0 (closeBar l0) HLne).
    reflexivity.
Qed.

Lemma live_batch_invariant (trades : list AggTrade) :
  timeOrdered trades = true ->
  (forall t, In t trades -> quantity t <> (-0)%float) ->
  increasing (mapKeys (groupBySecond trades)) = true
  /\ klinesLoop (groupBySecond trades) (mapKeys (groupBySecond trades)) None
     = Ok (map closeBar (liveTrades trades)).
Proof.
  induction trades as [| t trades IH] using rev_ind; intros Hord Hq.
  - split; reflexivity.
  - pose proof Hord as Hord'. apply timeOrdered_app in Hord'.
    destruct Hord' as [HordT _].
    destruct IH as [Hinc Hbatch];
      [exact HordT | intros t' Ht'; apply Hq, in_or_app; now left |].
    apply live_batch_step; try assumption.
    apply Hq, in_or_app. right. now left.
Qed.

(** X16: live and batch aggregation agree.  For trades in the order of
    their time, none with a quantity of negative zero, the bars that the
    live handler builds trade by trade from an empty chart are the bars
    that [aggregateToOneSecondKlines] returns for the whole list, up to
    the [isClosed] mark. *)
Theorem live_matches_batch (trades : list AggTrade) :
  timeOrdered trades = true ->
  (forall t, In t trades -> quantity t <> (-0)%float) ->
  aggregateToOneSecondKlines trades = Ok (map closeBar (liveTrades trades)).
Proof.
  intros Hord Hq.
  destruct (live_batch_invariant trades Hord Hq) as [Hinc Hbatch].
  unfold aggregateToOneSecondKlines.
  destruct trades as [| t trades]; [reflexivity |].
  replace (len (t :: trades) =? 0) with false
    by (symmetry; apply Z.eqb_neq; unfold len; cbn [length]; lia).
  now rewrite (sortBy_increasing_id _ Hinc).
Qed.

Lemma live_matches_batch_witness :
  aggregateToOneSecondKlines
    [mkAggTrade 1 10 1 1000 false; mkAggTrade 2 11 2 1500 true;
     mkAggTrade 3 12 1 2100 false; mkAggTrade 4 8 5 2900 true]
  = Ok (map closeBar
          (liveTrades
             [mkAggTrade 1 10 1 1000 false; mkAggTrade 2 11 2 1500 true;
              mkAggTrade 3 12 1 2100 false; mkAggTrade 4 8 5 2900 true])).
Proof.
  apply live_matches_batch.
  - vm_compute. reflexivity.
  - intros t Ht. cbn [In] in Ht.
    destruct Ht as [<- | [<- | [<- | [<- | []]]]]; cbn [quantity];
      intros H; apply (f_equal Prim2SF) in H; vm_compute in H; discriminate.
Defined.

(** ** Candle colours *)

Lemma maxOfZ_bounds (xs : list Z) (a : Z) :
  exists b,
    fold_left (fun acc x => Some (match acc with
                                  | None => x
                                  | Some a => Z.max a x
                                  end)) xs (Some a) = Some b
    /\ a <= b /\ (forall x, In x xs -> x <= b)
    /\ (b = a \/ In b xs).
Proof.
  revert a. induction xs as [| x xs IH]; intros a; cbn [fold_left].
  - exists a. repeat split; [lia | intros x [] | now left].
  - destruct (IH (Z.max a x)) as (b & Hb & Hab & Hall & Hin).
    exists b. split; [exact Hb |]. split; [lia |]. split.
    + intros y [<- | Hy]; [lia | now apply Hall].
    + destruct Hin as [-> | Hin]; [| right; now right].
      destruct (Z.max_spec a x) as [[_ ->] | [_ ->]];
        [right; now left | now left].
Qed.

Lemma minOfZ_bounds (xs : list Z) (a : Z) :
  exists b,
    fold_left (fun acc x => Some (match acc with
                                  | None => x
                                  | Some a => Z.min a x
                                  end)) xs (Some a) = Some b
    /\ b <= a /\ (forall x, In x xs -> b <= x)
    /\ (b = a \/ In b xs).
Proof.
  revert a. induction xs as [| x xs IH]; intros a; cbn [fold_left].
  - exists a. repeat split; [lia | intros x [] | now left].
  - destruct (IH (Z.min a x)) as (b & Hb & Hab & Hall & Hin).
    exists b. split; [exact Hb |]. split; [lia |]. split.
    + intros y [<- | Hy]; [lia | now apply Hall].
    + destruct Hin as [-> | Hin]; [| right; now right].
      destruct (Z.min_spec a x) as [[_ ->] | [_ ->]];
        [now left | right; now left].
Qed.

(** On a non-empty array the two folds give its largest and its smallest
    element. *)
Lemma maxOfZ_minOfZ (xs : list Z) :
  xs <> [] ->
  exists hi lo,
    maxOfZ xs = Some hi /\ minOfZ xs = Some lo
    /\ In hi xs /\ In lo xs
    /\ forall x, In x xs -> lo <= x <= hi.
Proof.
  destruct xs as [| a xs]; [congruence |]. intros _.
  unfold maxOfZ, minOfZ. cbn [fold_left].
  destruct (maxOfZ_bounds xs a) as (hi & Hhi & Hahi & Hallhi & Hinhi).
  destruct (minOfZ_bounds xs a) as (lo & Hlo & Halo & Halllo & Hinlo).
  exists hi, lo. split; [exact Hhi |]. split; [exact Hlo |].
  split; [destruct Hinhi as [-> | H]; [now left | now right] |].
  split; [destruct Hinlo as [-> | H]; [now left | now right] |].
  intros x [<- | Hx]; [lia |].
  specialize (Hallhi x Hx). specialize (Halllo x Hx). lia.
Qed.

(** X17: the trade-count colouring.  Over a non-empty slice, when all
    visible bars have the same number of trades every candle is painted
    black, rising and falling bars alike; otherwise no candle is black,
    and the hue is 130 for a bar with [close >= open] and 0 for the
    others. *)
Theorem candle_colors_degenerate (data : list Kline) (st : View) :
  viewData data st <> [] ->
  ((forall k k', In k (viewData data st) -> In k' (viewData data st) ->
                 numberOfTrades k = numberOfTrades k') ->
   candleColors data st = map (fun _ => Black) (viewData data st))
  /\ ((exists k k', In k (viewData data st) /\ In k' (viewData data st)
                    /\ numberOfTrades k <> numberOfTrades k') ->
      Forall2
        (fun k c =>
           exists s l,
             c = Hsl (if PrimFloat.leb (open k) (close k) then 130 else 0)
                     s l)
        (viewData data st) (candleColors data st)).
Proof.
  intros Hvd.
  assert (Hdata : (len data =? 0) = false).
  { destruct data as [| k data]; [| reflexivity].
    exfalso. apply Hvd. unfold viewData, JS.slice.
    now rewrite skipn_nil, firstn_nil. }
  unfold candleColors. rewrite Hdata.
  set (vd := viewData data st) in *.
  destruct (maxOfZ_minOfZ (map numberOfTrades vd)) as
    (hi & lo & -> & -> & Hhi & Hlo & Hall).
  { destruct vd; [congruence | discriminate]. }
  apply in_map_iff in Hhi, Hlo.
  destruct Hhi as (khi & Ehi & Hkhi). destruct Hlo as (klo & Elo & Hklo).
  split.
  - intros Hsame. apply map_ext_in. intros k Hk.
    unfold computeColorFromTrades.
    replace (hi <=? lo) with true; [reflexivity |].
    symmetry. apply Z.leb_le.
    rewrite <- Ehi, <- Elo, (Hsame khi klo Hkhi Hklo). lia.
  - intros (k & k' & Hk & Hk' & Hdiff).
    assert (Hlt : lo < hi).
    { pose proof (Hall _ (in_map numberOfTrades _ _ Hk)).
      pose proof (Hall _ (in_map numberOfTrades _ _ Hk')). lia. }
    clear -Hlt. induction vd as [| k vd IH]; cbn [map]; constructor;
      [| exact IH].
    unfold computeColorFromTrades.
    replace (hi <=? lo) with false by (symmetry; apply Z.leb_gt; lia).
    eauto.
Qed.

Lemma candle_colors_degenerate_witness :
  candleColors
    [sampleBar 1 10 8; sampleBar 2 12 7; sampleBar 3 9 11]%float
    (sampleView 0 10)
  = [Black; Black; Black].
Proof.
  refine (proj1 (candle_colors_degenerate
                   [sampleBar 1 10 8; sampleBar 2 12 7; sampleBar 3 9 11]%float
                   (sampleView 0 10) _) _).
  - vm_compute. discriminate.
  - intros k k' Hk Hk'. vm_compute in Hk, Hk'.
    destruct Hk as [<- | [<- | [<- | []]]];
      destruct Hk' as [<- | [<- | [<- | []]]]; reflexivity.
Defined.

(** ** Paging through a time range *)

Lemma fetchKlinesLoop_finishes (server : Z -> Z -> Response) (endTimeMs : Z) :
  forall (fuel : nat) (all : list Kline) (cursor : Z),
    (Z.to_nat (endTimeMs - cursor) < fuel)%nat ->
    snd (fetchKlinesLoop fuel server all cursor endTimeMs) <> Unfinished
    /\ increasing (fst (fetchKlinesLoop fuel server all cursor endTimeMs))
       = true
    /\ forall c,
         In c (fst (fetchKlinesLoop fuel server all cursor endTimeMs)) ->
         cursor <= c < endTimeMs.
Proof.
  induction fuel as [| fuel IH]; intros all cursor Hf; [lia |].
  cbn [fetchKlinesLoop].
  destruct (cursor <? endTimeMs) eqn:E.
  2:{ cbn [fst snd]. split; [discriminate |].
      split; [reflexivity | intros c []]. }
  apply Z.ltb_lt in E.
  assert (Hone : forall r : fetched (list Kline),
             r <> Unfinished ->
             snd ([cursor], r) <> Unfinished
             /\ increasing (fst ([cursor], r)) = true
             /\ forall c, In c (fst ([cursor], r)) -> cursor <= c < endTimeMs).
  { intros r Hr. cbn [fst snd]. split; [exact Hr |].
    split; [reflexivity |]. intros c [<- | []]. lia. }
  destruct (server cursor endTimeMs) as [chunk | status];
    [| apply Hone; discriminate].
  destruct (len chunk =? 0); [apply Hone; discriminate |].
  cbn zeta.
  destruct (len (map mapArrayToKline chunk) <? 1000);
    [apply Hone; discriminate |].
  set (cursor' :=
         Z.max (cursor + 1)
               (closeTime
                  (last (map mapArrayToKline chunk)
                        (mkKline 0 0 0 0 0 0 0 0 0 0 0 None)) + 1)).
  specialize (IH (all ++ map mapArrayToKline chunk) cursor' ltac:(lia)).
  destruct (fetchKlinesLoop fuel server (all ++ map mapArrayToKline chunk)
              cursor' endTimeMs) as [log r].
  cbn [fst snd] in *. destruct IH as (Hr & Hinc & Hlog).
  split; [exact Hr |]. split.
  - apply increasing_cons_iff. split; [exact Hinc |].
    intros c Hc. specialize (Hlog c Hc). lia.
  - intros c [<- | Hc]; [lia |]. specialize (Hlog c Hc). lia.
Qed.

(** X18: paging always ends.  Whatever the server answers,
    [fetchKlinesByTime] returns the bars or fails with the status of a
    request; the start times it requests are strictly increasing and lie
    in [[startTimeMs, endTimeMs)], so it makes at most
    [endTimeMs - startTimeMs] requests, and none when the range is
    empty. *)
Theorem fetchKlinesByTime_ends (server : Z -> Z -> Response)
    (startTimeMs endTimeMs : Z) :
  let run := fetchKlinesByTime server startTimeMs endTimeMs in
  snd run <> Unfinished
  /\ increasing (fst run) = true
  /\ (forall c, In c (fst run) -> startTimeMs <= c < endTimeMs)
  /\ len (fst run) <= Z.max 0 (endTimeMs - startTimeMs)
  /\ (endTimeMs <= startTimeMs -> run = ([], Fetched [])).
Proof.
  cbn zeta. unfold fetchKlinesByTime.
  destruct (fetchKlinesLoop_finishes server endTimeMs
              (S (Z.to_nat (endTimeMs - startTimeMs))) [] startTimeMs
              ltac:(lia)) as (Hr & Hinc & Hlog).
  split; [exact Hr |]. split; [exact Hinc |]. split; [exact Hlog |]. split.
  - set (log := fst _) in *. clearbody log.
    assert (Hgen : forall (l : list Z) (a : Z),
               increasing l = true -> (forall c, In c l -> a <= c < endTimeMs) ->
               len l <= Z.max 0 (endTimeMs - a)).
    { clear. induction l as [| x l IH]; intros a Hinc Hb.
      - unfold len. cbn. lia.
      - apply increasing_cons_iff in Hinc. destruct Hinc as [Hl Hx].
        assert (Hxb : a <= x < endTimeMs) by (apply Hb; now left).
        specialize (IH (x + 1) Hl).
        assert (Hrec : len l <= Z.max 0 (endTimeMs - (x + 1))).
        { apply IH. intros c Hc. specialize (Hx c Hc).
          specialize (Hb c (or_intror Hc)). lia. }
        unfold len in *. cbn [length]. lia. }
    now apply Hgen.
  - intros He. cbn [fetchKlinesLoop].
    replace (startTimeMs <? endTimeMs) with false
      by (symmetry; apply Z.ltb_ge; lia).
    reflexivity.
Qed.

Lemma increasing_app (l1 l2 : list Z) :
  increasing l1 = true -> increasing l2 = true ->
  (forall a b, In a l1 -> In b l2 -> a < b) ->
  increasing (l1 ++ l2) = true.
Proof.
  induction l1 as [| x l1 IH]; intros H1 H2 H; [exact H2 |].
  apply increasing_cons_iff in H1. destruct H1 as [Hl1 Hx].
  cbn [app]. apply increasing_cons_iff. split.
  - apply IH; try assumption. intros a b Ha Hb. apply H; [now right | exact Hb].
  - intros y Hy. apply in_app_or in Hy.
    destruct Hy as [Hy | Hy]; [now apply Hx | apply H; [now left | exact Hy]].
Qed.

Lemma fetchKlinesLoop_ascending (server : Z -> Z -> Response)
    (startTimeMs endTimeMs : Z) :
  serverInOrder server ->
  forall (fuel : nat) (all : list Kline) (cursor : Z) (klines : list Kline),
    ascending all = true ->
    (forall k, In k all -> startTimeMs <= openTime k < cursor) ->
    startTimeMs <= cursor ->
    snd (fetchKlinesLoop fuel server all cursor endTimeMs) = Fetched klines ->
    ascending klines = true
    /\ forall k, In k klines -> startTimeMs <= openTime k.
Proof.
  intros Hsrv. induction fuel as [| fuel IH];
    intros all cursor klines Hasc Hall Hc; [discriminate |].
  cbn [fetchKlinesLoop].
  assert (Hdone : ascending all = true
                  /\ forall k, In k all -> startTimeMs <= openTime k).
  { split; [exact Hasc |]. intros k Hk. specialize (Hall k Hk). lia. }
  destruct (cursor <? endTimeMs); [| cbn; intros [= <-]; exact Hdone].
  pose proof (Hsrv cursor endTimeMs) as Hpage.
  destruct (server cursor endTimeMs) as [chunk | status]; [| discriminate].
  destruct (len chunk =? 0) eqn:E0; [cbn; intros [= <-]; exact Hdone |].
  destruct Hpage as [Hpasc Hprows]. cbn zeta.
  set (mapped := map mapArrayToKline chunk) in *.
  assert (Hmapped : forall k, In k mapped ->
                      cursor <= openTime k <= closeTime k).
  { intros k Hk. apply in_map_iff in Hk. destruct Hk as (d & <- & Hd).
    exact (Hprows d Hd). }
  assert (Hnew : ascending (all ++ mapped) = true).
  { rewrite ascending_increasing, map_app in *.
    apply increasing_app; try assumption.
    intros a b Ha Hb. apply in_map_iff in Ha, Hb.
    destruct Ha as (ka & <- & Hka). destruct Hb as (kb & <- & Hkb).
    specialize (Hall ka Hka). specialize (Hmapped kb Hkb). lia. }
  assert (Hnewall : forall k, In k (all ++ mapped) ->
                      startTimeMs <= openTime k).
  { intros k Hk. apply in_app_or in Hk. destruct Hk as [Hk | Hk].
    - specialize (Hall k Hk). lia.
    - specialize (Hmapped k Hk). lia. }
  destruct (len mapped <? 1000); [cbn; intros [= <-]; auto |].
  set (d := mkKline 0 0 0 0 0 0 0 0 0 0 0 None).
  set (cursor' := Z.max (cursor + 1) (closeTime (last mapped d) + 1)).
  specialize (IH (all ++ mapped) cursor' klines Hnew).
  destruct (fetchKlinesLoop fuel server (all ++ mapped) cursor' endTimeMs)
    as [log r].
  cbn [snd] in *. apply IH; [| lia].
  assert (Hmne : mapped <> []).
  { intros E. apply Z.eqb_neq in E0. apply E0.
    unfold mapped in E. apply map_eq_nil in E. now subst chunk. }
  assert (Hlastmax : forall k, In k mapped ->
                       openTime k <= openTime (last mapped d)).
  { intros k Hk. rewrite ascending_increasing in Hpasc.
    pose proof (increasing_last_max _ (openTime d) Hpasc (openTime k)
                  (in_map openTime _ _ Hk)) as Hle.
    now rewrite (last_map openTime mapped d (openTime d) Hmne) in Hle. }
  pose proof (Hmapped _ (last_In mapped d Hmne)) as Hlast.
  intros k Hk. apply in_app_or in Hk. destruct Hk as [Hk | Hk].
  - specialize (Hall k Hk). lia.
  - specialize (Hmapped k Hk). specialize (Hlastmax k Hk). lia.
Qed.

(** X19: the pages never overlap.  When the server answers every request
    with ascending bars that open at or after the requested start (and
    close no earlier than they open), the bars that [fetchKlinesByTime]
    returns are ascending by openTime as a whole and none opens before
    [startTimeMs]. *)
Theorem fetchKlinesByTime_ascending (server : Z -> Z -> Response)
    (startTimeMs endTimeMs : Z) (klines : list Kline) :
  serverInOrder server ->
  snd (fetchKlinesByTime server startTimeMs endTimeMs) = Fetched klines ->
  ascending klines = true
  /\ forall k, In k klines -> startTimeMs <= openTime k.
Proof.
  intros Hsrv Hrun. unfold fetchKlinesByTime in Hrun.
  eapply (fetchKlinesLoop_ascending server startTimeMs endTimeMs Hsrv);
    [| | | exact Hrun]; [reflexivity | intros k [] | lia].
Qed.

Lemma pagedRows_increasing (c : Z) (n : nat) :
  forall a : nat,
    increasing
      (map openTime (map mapArrayToKline (map (pagedRow c) (seq a n))))
    = true.
Proof.
  induction n as [| n IH]; intros a; [reflexivity |].
  cbn [seq map]. apply increasing_cons_iff. split; [apply IH |].
  intros y Hy. rewrite !map_map in Hy. apply in_map_iff in Hy.
  destruct Hy as (i & <- & Hi). apply in_seq in Hi.
  cbn [pagedRow mapArrayToKline openTime d0]. lia.
Qed.

Lemma pagedServer_inOrder : serverInOrder pagedServer.
Proof.
  intros c e. unfold pagedServer, pagedRows. split.
  - rewrite ascending_increasing. apply pagedRows_increasing.
  - intros d Hd. apply in_map_iff in Hd. destruct Hd as (i & <- & _).
    cbn [pagedRow d0 d6]. lia.
Qed.

Lemma fetchKlinesByTime_ascending_witness :
  fst (fetchKlinesByTime pagedServer 0 1500) = [0; 1000]
  /\ len (map mapArrayToKline (pagedRows 0 1500)) = 1500
  /\ ascending (map mapArrayToKline (pagedRows 0 1500)) = true
  /\ forall k, In k (map mapArrayToKline (pagedRows 0 1500)) ->
               0 <= openTime k.
Proof.
  split; [vm_compute; reflexivity |].
  split; [vm_compute; reflexivity |].
  apply (fetchKlinesByTime_ascending pagedServer 0 1500).
  - exact pagedServer_inOrder.
  - vm_compute. reflexivity.
Defined.

(** ** The reconnecting stream *)

Lemma wsHandle_stopped (c : WsClient) (ev : WsEvent) :
  stopped c = true ->
  stopped (fst (wsHandle c ev)) = true
  /\ existsb reconnects (snd (wsHandle c ev)) = false.
Proof.
  intros Hs. destruct ev as [[[k |] |] | | |]; cbn [wsHandle].
  - now split.
  - now split.
  - now split.
  - rewrite Hs. now split.
  - cbn [fst snd]. split; [exact Hs |]. now destruct (ws c).
  - cbn [stopped]. rewrite Hs. cbn. now split.
Qed.

Lemma wsRun_stopped (events : list WsEvent) :
  forall (c : WsClient) (effects : list WsEffect),
    stopped c = true -> existsb reconnects effects = false ->
    let r :=
      fold_left
        (fun acc ev =>
           let '(c', effects) := wsHandle (fst acc) ev in
           (c', snd acc ++ effects))
        events (c, effects) in
    stopped (fst r) = true /\ existsb reconnects (snd r) = false.
Proof.
  induction events as [| ev events IH]; intros c effects Hs He;
    [now split |].
  cbn [fold_left fst snd].
  destruct (wsHandle_stopped c ev Hs) as [Hs' He'].
  destruct (wsHandle c ev) as [c' effects'] eqn:Eh. cbn [fst snd] in *.
  apply IH; [exact Hs' |].
  rewrite existsb_app, He, He'. reflexivity.
Qed.

(** X20: the reconnect policy of the stream.  After [stop], whatever
    arrives afterwards (messages, closes, errors, a late timer) neither
    constructs a socket nor sets a timer, and the client stays stopped;
    while it runs with no timer pending, a close, even reported twice,
    sets one timer of 1500 ms, and the timer constructs one new socket. *)
Theorem ws_reconnect_policy (c : WsClient) :
  (forall events : list WsEvent,
      stopped (fst (wsRun events (fst (wsStop c)))) = true
      /\ existsb reconnects (snd (wsRun events (fst (wsStop c)))) = false)
  /\ (stopped c = false -> reconnectTimer c = None ->
      snd (wsRun [OnClose; OnClose; OnTimer] c)
      = [SetTimeout (timers c) 1500; Connect (sockets c)]
      /\ ws (fst (wsRun [OnClose; OnClose; OnTimer] c)) = Some (sockets c)
      /\ reconnectTimer (fst (wsRun [OnClose; OnClose; OnTimer] c)) = None).
Proof.
  split.
  - intros events. unfold wsRun. apply wsRun_stopped; reflexivity.
  - intros Hs Ht. destruct c as [w t s n p]. cbn in Hs, Ht. subst s t.
    repeat split.
Qed.

Lemma ws_reconnect_policy_witness :
  snd (wsRun [OnClose; OnClose; OnTimer]
             (fst (wsStart (mkWsClient None None false 0 1))))
  = [SetTimeout 1 1500; Connect 1].
Proof.
  refine (proj1 (proj2 (ws_reconnect_policy
                          (fst (wsStart (mkWsClient None None false 0 1))))
                       _ _)); reflexivity.
Defined.

(** ** One zoom at the anchor *)



(** ** Retrying and paging through the trades *)

Lemma backoffMs_bounds (attempt : nat) :
  (1 <= attempt)%nat ->
  600 <= backoffMs attempt <= 5000
  /\ backoffMs attempt <= backoffMs (S attempt).
Proof.
  intros Ha. unfold backoffMs.
  assert (H2 : 2 <= 2 ^ Z.of_nat attempt).
  { change 2 with (2 ^ 1) at 1. apply Z.pow_le_mono_r; lia. }
  assert (Hs : 2 ^ Z.of_nat (S attempt) = 2 * 2 ^ Z.of_nat attempt).
  { rewrite Nat2Z.inj_succ, Z.pow_succ_r by lia. reflexivity. }
  rewrite Hs. lia.
Qed.

Lemma fetchWithRetry_failures (answer : nat -> AggResponse) :
  forall (n fuel attempt : nat),
    (forall k, (k < n)%nat ->
               exists status, answer (attempt + k)%nat = AggFail status
                              /\ retryable status = true) ->
    match answer (attempt + n)%nat with
    | AggOk _ => True
    | AggFail status => retryable status = false
    end ->
    (n < fuel)%nat ->
    fetchWithRetry fuel answer attempt
    = (map backoffMs (seq (S attempt) n),
       match answer (attempt + n)%nat with
       | AggOk chunk => Fetched chunk
       | AggFail status => HttpError status
       end).
Proof.
  induction n as [| n IH]; intros fuel attempt Hfail Hend Hf.
  - destruct fuel as [| fuel]; [lia |].
    rewrite Nat.add_0_r in *. cbn [fetchWithRetry seq map].
    destruct (answer attempt) as [chunk | status]; [reflexivity |].
    now rewrite Hend.
  - destruct fuel as [| fuel]; [lia |]. cbn [fetchWithRetry].
    destruct (Hfail 0%nat ltac:(lia)) as (status & Ha & Hr).
    rewrite Nat.add_0_r in Ha. rewrite Ha, Hr.
    replace (attempt + S n)%nat with (S attempt + n)%nat in * by lia.
    rewrite (IH fuel (S attempt)); [reflexivity | | assumption | lia].
    intros k Hk. replace (S attempt + k)%nat with (attempt + S k)%nat
      by lia.
    apply Hfail. lia.
Qed.

(** X22: the retry policy of a trades request.  After [n] answers of 429
    or 5xx in a row the request has slept the delays
    [min(5000, 300 * 2^k)] for [k = 1 .. n] (each between 600 and 5000
    ms); a 2xx answer then delivers its trades and any other status fails
    with it; and through those [n] answers the request is still being
    retried: the number of tries has no cap. *)
Theorem fetchWithRetry_policy (answer : nat -> AggResponse) (n : nat) :
  (forall k, (k < n)%nat ->
             exists status, answer k = AggFail status
                            /\ retryable status = true) ->
  (forall fuel chunk, (n < fuel)%nat -> answer n = AggOk chunk ->
     fetchWithRetry fuel answer 0
     = (map backoffMs (seq 1 n), Fetched chunk))
  /\ (forall fuel status, (n < fuel)%nat -> answer n = AggFail status ->
        retryable status = false ->
        fetchWithRetry fuel answer 0
        = (map backoffMs (seq 1 n), HttpError status))
  /\ (forall fuel, (fuel <= n)%nat ->
        snd (fetchWithRetry fuel answer 0) = Unfinished)
  /\ (forall ms, In ms (map backoffMs (seq 1 n)) -> 600 <= ms <= 5000).
Proof.
  intros Hfail. split; [| split; [| split]].
  - intros fuel chunk Hf Hok.
    rewrite (fetchWithRetry_failures answer n fuel 0);
      cbn [Nat.add]; try rewrite Hok; auto.
  - intros fuel status Hf Ha Hr.
    rewrite (fetchWithRetry_failures answer n fuel 0);
      cbn [Nat.add]; try rewrite Ha; auto.
  - assert (Hgen : forall fuel attempt,
               (attempt + fuel <= n)%nat ->
               snd (fetchWithRetry fuel answer attempt) = Unfinished).
    { induction fuel as [| fuel IH]; intros attempt Hle; [reflexivity |].
      cbn [fetchWithRetry].
      destruct (Hfail attempt ltac:(lia)) as (status & -> & ->).
      specialize (IH (S attempt) ltac:(lia)).
      now destruct (fetchWithRetry fuel answer (S attempt)). }
    intros fuel Hle. apply Hgen. lia.
  - intros ms Hms. apply in_map_iff in Hms. destruct Hms as (k & <- & Hk).
    apply in_seq in Hk. apply backoffMs_bounds. lia.
Qed.

Lemma fetchWithRetry_policy_witness :
  fetchWithRetry 5
    (fun k => if (k <? 2)%nat then AggFail 503
              else AggOk [mkAggTrade 1 10 1 1000 false]) 0
  = ([600; 1200], Fetched [mkAggTrade 1 10 1 1000 false]).
Proof.
  refine (proj1 (fetchWithRetry_policy
                   (fun k => if (k <? 2)%nat then AggFail 503
                             else AggOk [mkAggTrade 1 10 1 1000 false])
                   2 _) 5%nat _ _ _).
  - intros k Hk. exists 503. split; [| reflexivity].
    destruct k as [| [| k]]; [reflexivity | reflexivity | lia].
  - lia.
  - reflexivity.
Defined.

Lemma timeOrdered_last (d : AggTrade) (l : list AggTrade) :
  timeOrdered l = true ->
  forall t, In t l -> timestamp t <= timestamp (List.last l d).
Proof.
  induction l as [| x l IH]; intros Hord t Hin; [destruct Hin |].
  apply timeOrdered_cons in Hord. destruct Hord as [Hl Hx].
  destruct l as [| y l].
  - destruct Hin as [<- | []]. cbn. lia.
  - change (List.last (x :: y :: l) d) with (List.last (y :: l) d).
    destruct Hin as [<- | Hin].
    + specialize (IH Hl y (or_introl eq_refl)).
      specialize (Hx y (or_introl eq_refl)). lia.
    + now apply IH.
Qed.

Lemma timeOrdered_append (l1 l2 : list AggTrade) :
  timeOrdered l1 = true -> timeOrdered l2 = true ->
  (forall a b, In a l1 -> In b l2 -> timestamp a <= timestamp b) ->
  timeOrdered (l1 ++ l2) = true.
Proof.
  induction l1 as [| x l1 IH]; intros H1 H2 Hle; [exact H2 |].
  apply timeOrdered_cons in H1. destruct H1 as [Hl Hx].
  cbn [app]. apply timeOrdered_intro.
  - apply IH; [exact Hl | exact H2 |].
    intros a b Ha Hb. apply Hle; [now right | exact Hb].
  - intros t Ht. apply in_app_or in Ht. destruct Ht as [Ht | Ht].
    + now apply Hx.
    + apply Hle; [now left | exact Ht].
Qed.

Lemma fetchWithRetry_chunk (answer : nat -> AggResponse) :
  forall (fuel attempt : nat) (sleeps : list Z) (chunk : list AggTrade),
    fetchWithRetry fuel answer attempt = (sleeps, Fetched chunk) ->
    exists k, answer k = AggOk chunk.
Proof.
  induction fuel as [| fuel IH]; intros attempt sleeps chunk H;
    [discriminate |].
  cbn [fetchWithRetry] in H.
  destruct (answer attempt) as [chunk' | status] eqn:Ea.
  - injection H as _ <-. now exists attempt.
  - destruct (retryable status); [| discriminate].
    destruct (fetchWithRetry fuel answer (S attempt)) as [sl r] eqn:Er.
    injection H as _ ->. now apply (IH (S attempt) sl).
Qed.

Lemma fetchAggTradesLoop_ordered (retryFuel : nat)
    (server : Z -> Z -> nat -> AggResponse) (lo endTimeMs : Z) :
  aggServerInOrder server ->
  forall (fuel : nat) (all : list AggTrade) (cursor : Z)
         (sleeps : list Z) (trades : list AggTrade),
    timeOrdered all = true ->
    (forall t, In t all -> lo <= timestamp t < cursor) ->
    lo <= cursor ->
    fetchAggTradesLoop fuel retryFuel server all cursor endTimeMs
    = (sleeps, Fetched trades) ->
    timeOrdered trades = true
    /\ forall t, In t trades -> lo <= timestamp t.
Proof.
  intros Hsrv.
  induction fuel as [| fuel IH];
    intros all cursor sleeps trades Hord Hall Hlo H; [discriminate |].
  cbn [fetchAggTradesLoop] in H.
  destruct (cursor <? endTimeMs).
  2:{ injection H as _ <-. split; [exact Hord |].
      intros t Ht. now apply Hall. }
  destruct (fetchWithRetry retryFuel
              (server cursor (Z.min (cursor + windowMs) endTimeMs)) 0)
    as [sl r] eqn:Er.
  destruct r as [chunk | status |]; [| discriminate | discriminate].
  apply fetchWithRetry_chunk in Er. destruct Er as [k Ek].
  pose proof (Hsrv cursor (Z.min (cursor + windowMs) endTimeMs) k) as Hk.
  rewrite Ek in Hk. destruct Hk as [Hchunk Hfrom].
  destruct (len chunk =? 0).
  - destruct (fetchAggTradesLoop fuel retryFuel server all
                (cursor + windowMs) endTimeMs) as [sl' r'] eqn:Eloop.
    injection H as _ ->.
    apply (IH all (cursor + windowMs) sl' trades); auto.
    + intros t Ht. specialize (Hall t Ht). unfold windowMs. lia.
    + unfold windowMs. lia.
  - cbn zeta in H.
    set (d := mkAggTrade 0 0 0 0 false) in *.
    set (cursor' := Z.max (cursor + 1)
                          (timestamp (List.last (all ++ chunk) d) + 1)) in *.
    destruct (fetchAggTradesLoop fuel retryFuel server (all ++ chunk)
                cursor' endTimeMs) as [sl' r'] eqn:Eloop.
    injection H as _ ->.
    assert (Happ : timeOrdered (all ++ chunk) = true).
    { apply timeOrdered_append; auto.
      intros a b Ha Hb. specialize (Hall a Ha). specialize (Hfrom b Hb).
      lia. }
    apply (IH (all ++ chunk) cursor' sl' trades); auto.
    + intros t Ht.
      pose proof (timeOrdered_last d (all ++ chunk) Happ t Ht) as Hmax.
      split; [| unfold cursor'; lia].
      apply in_app_or in Ht. destruct Ht as [Ht | Ht].
      * now apply Hall.
      * specialize (Hfrom t Ht). lia.
    + unfold cursor'. lia.
Qed.

Lemma fetchAggTradesLoop_finishes (retryFuel : nat)
    (server : Z -> Z -> nat -> AggResponse) (endTimeMs : Z) :
  (forall startTime endTime,
     snd (fetchWithRetry retryFuel (server startTime endTime) 0)
     <> Unfinished) ->
  forall (fuel : nat) (all : list AggTrade) (cursor : Z),
    (Z.to_nat (endTimeMs - cursor) < fuel)%nat ->
    snd (fetchAggTradesLoop fuel retryFuel server all cursor endTimeMs)
    <> Unfinished.
Proof.
  intros Hans.
  induction fuel as [| fuel IH]; intros all cursor Hf; [lia |].
  cbn [fetchAggTradesLoop].
  destruct (cursor <? endTimeMs) eqn:E; [| discriminate].
  apply Z.ltb_lt in E.
  pose proof (Hans cursor (Z.min (cursor + windowMs) endTimeMs)) as Hone.
  destruct (fetchWithRetry retryFuel
              (server cursor (Z.min (cursor + windowMs) endTimeMs)) 0)
    as [sl r].
  cbn [snd] in Hone.
  destruct r as [chunk | status |]; [| discriminate | contradiction].
  destruct (len chunk =? 0).
  - specialize (IH all (cursor + windowMs)
                   ltac:(unfold windowMs; lia)).
    now destruct (fetchAggTradesLoop fuel retryFuel server all
                    (cursor + windowMs) endTimeMs).
  - cbn zeta.
    set (cursor' := Z.max (cursor + 1) _).
    specialize (IH (all ++ chunk) cursor' ltac:(lia)).
    now destruct (fetchAggTradesLoop fuel retryFuel server (all ++ chunk)
                    cursor' endTimeMs).
Qed.

(** X23: paging through the trades of a time range.  When every request
    is settled within the tries allowed, the download ends, with the
    trades or with the status of a failed request, whatever the server
    answers.  And when the server answers each window with trades in time
    order, none before the start asked for, the trades that a download
    delivers are in time order across the pages and none is before the
    start of the range, however many tries the requests took. *)
Theorem fetchAggTradesRange_ordered (retryFuel : nat)
    (server : Z -> Z -> nat -> AggResponse) (startTimeMs endTimeMs : Z) :
  ((forall startTime endTime,
       snd (fetchWithRetry retryFuel (server startTime endTime) 0)
       <> Unfinished) ->
   snd (fetchAggTradesRange retryFuel server startTimeMs endTimeMs)
   <> Unfinished)
  /\ (aggServerInOrder server ->
      forall trades,
        snd (fetchAggTradesRange retryFuel server startTimeMs endTimeMs)
        = Fetched trades ->
        timeOrdered trades = true
        /\ forall t, In t trades -> startTimeMs <= timestamp t).
Proof.
  split.
  - intros Hans. apply fetchAggTradesLoop_finishes; [exact Hans | lia].
  - intros Hsrv trades H. unfold fetchAggTradesRange in H.
    destruct (fetchAggTradesLoop (S (Z.to_nat (endTimeMs - startTimeMs)))
                retryFuel server [] startTimeMs endTimeMs)
      as [sleeps r] eqn:E.
    cbn [snd] in H. subst r.
    apply (fetchAggTradesLoop_ordered retryFuel server startTimeMs
             endTimeMs Hsrv (S (Z.to_nat (endTimeMs - startTimeMs))) []
             startTimeMs sleeps trades);
      [reflexivity | intros t [] | lia | exact E].
Qed.

Lemma fetchAggTradesRange_ordered_witness :
  snd (fetchAggTradesRange 3 sampleAggServer 0 3) <> Unfinished
  /\ timeOrdered [mkAggTrade 0 10 1 0 false; mkAggTrade 1 10 1 1 false;
                  mkAggTrade 2 10 1 2 false] = true
  /\ forall t, In t [mkAggTrade 0 10 1 0 false; mkAggTrade 1 10 1 1 false;
                     mkAggTrade 2 10 1 2 false] -> 0 <= timestamp t.
Proof.
  destruct (fetchAggTradesRange_ordered 3 sampleAggServer 0 3)
    as [Hends Hord].
  split.
  - apply Hends. intros s e. cbn. discriminate.
  - apply Hord.
    + intros s e k. destruct k as [| k]; cbn; [exact I |].
      split; [reflexivity |]. intros t [<- | []]. cbn. lia.
    + vm_compute. reflexivity.
Defined.
